(** * A3.c: extraction of video frames into grayscale and colour rasters

    A shallow embedding of [A3.c] (the packet loop of [main], [decode_packet],
    [save_gray_frame], [save_rgb_frame], [allocateFrame]) together with the
    properties of the frame pipeline that the specification states.

    The program is a client of libavformat, libavcodec, libavutil, libswscale
    and of the C standard library.  None of them is part of the program: they
    are gathered in the record [Extern], whose fields are the calls the
    program makes.  All theorems hold for every value of that record, under
    the assumptions on it that each theorem names.

    C [int] is modelled by [Z]; signed overflow is undefined in C and is not
    modelled.  Memory is a finite map from block identifiers to byte lists,
    pointers are a block and an offset.  Undefined behaviour that the program
    can reach (a call through a null [FILE*], a null frame or scaler, an
    access outside a block) is an explicit outcome. *)

From Stdlib Require Import ZArith Ascii List Lia Bool.
From Stdlib.Strings Require Import Byte.
From stdpp Require Import base tactics option list gmap strings pretty.

Local Open Scope Z_scope.

(** ** Memory *)

Abbreviation memory := (gmap nat (list byte)).

Definition ptr : Type := option (nat * Z).
Definition NULL : ptr := None.

(** [p + k] of C, in bytes. *)
Definition ptr_add (p : ptr) (k : Z) : ptr :=
  match p with
  | Some (b, o) => Some (b, o + k)
  | None => None
  end.

(** Reading [n] bytes at [p]: defined only inside an allocated block. *)
Definition load (h : memory) (p : ptr) (n : Z) : option (list byte) :=
  match p with
  | Some (b, o) =>
      match h !! b with
      | Some blk =>
          if decide (0 ≤ o ∧ 0 ≤ n ∧ o + n ≤ Z.of_nat (length blk))
          then Some (take (Z.to_nat n) (drop (Z.to_nat o) blk))
          else None
      | None => None
      end
  | None => None
  end.

(** Writing [bs] at [p]; a block never changes its size. *)
Definition overwrite (blk : list byte) (o : nat) (bs : list byte) : list byte :=
  take (length blk) (take o blk ++ bs ++ drop (o + length bs) blk).

Definition store (h : memory) (p : ptr) (bs : list byte) : option memory :=
  match p with
  | Some (b, o) =>
      match h !! b with
      | Some blk =>
          if decide (0 ≤ o ≤ Z.of_nat (length blk))
          then Some (<[b := overwrite blk (Z.to_nat o) bs]> h)
          else None
      | None => None
      end
  | None => None
  end.

(** ** The data of libav that the program touches *)

Inductive AVMediaType :=
| AVMEDIA_TYPE_UNKNOWN | AVMEDIA_TYPE_VIDEO | AVMEDIA_TYPE_AUDIO
| AVMEDIA_TYPE_DATA | AVMEDIA_TYPE_SUBTITLE | AVMEDIA_TYPE_ATTACHMENT.

Global Instance AVMediaType_eq_dec : EqDecision AVMediaType.
Proof. solve_decision. Defined.

Record AVCodecParameters := mkPar {
  codec_type : AVMediaType;
  codec_id : Z;
  par_width : Z;
  par_height : Z;
  channels : Z;
  sample_rate : Z;
  par_bit_rate : Z }.

Record AVStream := mkStream { codecpar : AVCodecParameters }.

(** The field [id] of the C structure is [avcodec_id] here. *)
Record AVCodec := mkCodec { codec_name : string; avcodec_id : Z }.

Record AVPacket := mkPacket {
  stream_index : Z;
  pkt_pts : Z;
  pkt_data : list byte }.

(** An opened container: its header, its streams in container order, and the
    packets [av_read_frame] still has to deliver before it first answers
    with a negative value. *)
Record AVFormatContext := mkFormat {
  iformat_name : string;
  duration : Z;
  bit_rate : Z;
  streams : list AVStream;
  packets : list AVPacket }.

Record AVFrame := mkFrame {
  data : list ptr;
  linesize : list Z;
  width : Z;
  height : Z;
  format : Z;
  pts : Z;
  key_frame : Z;
  pict_type : Z;
  pkt_size : Z;
  coded_picture_number : Z }.

(** [frame->data[i]] and [frame->linesize[i]]. *)
Definition data_at (f : AVFrame) (i : nat) : ptr := default NULL (data f !! i).
Definition linesize_at (f : AVFrame) (i : nat) : Z := default 0 (linesize f !! i).

(** What [av_frame_alloc] returns: every field at its default. *)
Definition blank_frame : AVFrame :=
  mkFrame [] [] 0 0 (-1) 0 0 0 0 0.

Definition AV_PIX_FMT_YUV420P : Z := 0.
Definition AV_PIX_FMT_RGB24 : Z := 2.

Definition SWS_FAST_BILINEAR : Z := 1.
Definition SWS_FULL_CHR_H_INT : Z := 0x2000.
Definition SWS_ACCURATE_RND : Z := 0x40000.

(** The arguments of [sws_getContext]. *)
Record SwsContext := mkSws {
  srcW : Z; srcH : Z; srcFormat : Z;
  dstW : Z; dstH : Z; dstFormat : Z;
  sws_flags : Z }.

(** The two file-scope variables of the program that are read. *)
Definition src_pix_fmt : Z := AV_PIX_FMT_YUV420P.
Definition dst_pix_fmt : Z := AV_PIX_FMT_RGB24.

(** ** The external calls

    [D] is the type of a codec context ([AVCodecContext]); the program reads
    one field of it, [frame_number], and otherwise only hands it back to the
    library. *)
Record Extern (D : Type) := mkExtern {
  AVERROR_EAGAIN : Z;
  AVERROR_EOF : Z;
  avformat_alloc_context : bool;
  avformat_open_input : string → option AVFormatContext;
  avformat_find_stream_info : AVFormatContext → Z;
  avcodec_find_decoder : Z → option AVCodec;
  avcodec_alloc_context3 : option AVCodec → option D;
  avcodec_parameters_to_context : D → option AVCodecParameters → Z * D;
  avcodec_open2 : D → option AVCodec → Z * D;
  frame_number : D → Z;
  av_frame_alloc : memory → bool;
  av_packet_alloc : bool;
  (** the packet pointer may be null: that is the drain signal *)
  avcodec_send_packet : D → option AVPacket → Z * D;
  (** fills the frame and the picture buffers it points to *)
  avcodec_receive_frame : D → memory → Z * AVFrame * D * memory;
  (** width, height, pixel format, alignment: line sizes and a new buffer *)
  av_image_alloc : memory → Z → Z → Z → Z → option (list Z * list byte);
  sws_getContext : SwsContext → bool;
  (** source planes are read only; the result is what is written at the
      first destination plane *)
  sws_scale : SwsContext → memory → list ptr → list Z → Z → Z → list Z → list byte;
  (** whether [fopen(name, "w")] succeeds *)
  fopen_ok : string → bool;
  (** how many of the requested bytes a write to the file takes, given the
      file name, its current size and the request *)
  write_room : string → nat → nat → nat }.

Arguments AVERROR_EAGAIN {D}.
Arguments AVERROR_EOF {D}.
Arguments avformat_alloc_context {D}.
Arguments avformat_open_input {D}.
Arguments avformat_find_stream_info {D}.
Arguments avcodec_find_decoder {D}.
Arguments avcodec_alloc_context3 {D}.
Arguments avcodec_parameters_to_context {D}.
Arguments avcodec_open2 {D}.
Arguments frame_number {D}.
Arguments av_frame_alloc {D}.
Arguments av_packet_alloc {D}.
Arguments avcodec_send_packet {D}.
Arguments avcodec_receive_frame {D}.
Arguments av_image_alloc {D}.
Arguments sws_getContext {D}.
Arguments sws_scale {D}.
Arguments fopen_ok {D}.
Arguments write_room {D}.

(** ** The observable world *)

(** A [FILE*]: null, or a stream open on the named file. *)
Definition FILE : Type := option string.

(** The calls the program makes, in the order it makes them. *)
Inductive event :=
| EvStdout (s : string)
| EvStderr (s : string)
| EvLog (fmt : string)
| EvReadFrame (p : option AVPacket)
| EvPacketUnref
| EvSendPacket (p : option AVPacket) (r : Z)
| EvReceiveFrame (r : Z)
| EvFopen (name : string) (f : FILE)
| EvFprintf (f : FILE) (s : string)
| EvFwrite (f : FILE) (bytes : list byte) (written : nat)
| EvFclose (f : FILE)
| EvSwsScale (c : SwsContext) (src dst : list ptr)
| EvSwsFree
| EvCloseInput
| EvPacketFree
| EvFrameFree
| EvFreeContext.

Record World := mkWorld {
  heap : memory;
  files : gmap string (list byte);
  trace : list event }.

(** ** Computations *)

Inductive ub := NullFile | NullFrame | NullScaler | BadAccess.

Inductive outcome (A : Type) :=
| Ret (a : A)
| Undefined (u : ub)
| OutOfFuel.
Arguments Ret {A}.
Arguments Undefined {A}.
Arguments OutOfFuel {A}.

Definition M (A : Type) : Type := World → outcome A * World.

Definition ret {A} (a : A) : M A := λ W, (Ret a, W).

Definition bind {A B} (c : M A) (k : A → M B) : M B := λ W,
  match c W with
  | (Ret a, W') => k a W'
  | (Undefined u, W') => (Undefined u, W')
  | (OutOfFuel, W') => (OutOfFuel, W')
  end.

Definition undefined {A} (u : ub) : M A := λ W, (Undefined u, W).
Definition out_of_fuel {A} : M A := λ W, (OutOfFuel, W).

Declare Scope M_scope.
Delimit Scope M_scope with M.
Notation "x <- c ;; k" := (bind c (λ x, k))
  (at level 100, c at next level, right associativity) : M_scope.
Notation "c ;; k" := (bind c (λ _, k))
  (at level 100, right associativity) : M_scope.
Local Open Scope M_scope.

Definition emit (e : event) : M unit := λ W,
  (Ret tt, mkWorld (heap W) (files W) (trace W ++ [e])).

Definition when (b : bool) (c : M unit) : M unit := if b then c else ret tt.

(** [for (i = i0; <n more rounds>; i++) body] *)
Fixpoint for_loop (n : nat) (i : Z) (body : Z → M unit) : M unit :=
  match n with
  | O => ret tt
  | S n' => body i ;; for_loop n' (i + 1) body
  end.

(** [logging] prints one line on stderr; the format string stands for it. *)
Definition logging (fmt : string) : M unit := emit (EvLog fmt).
Definition printf (s : string) : M unit := emit (EvStdout s).
Definition fprintf_stderr (s : string) : M unit := emit (EvStderr s).

Definition nl : string := String "010" "".

(** [%d] *)
Definition fmt_d (n : Z) : string := pretty n.

(** ** The program *)

Section Program.

Context {D : Type} (X : Extern D).

(** *** The C library calls on files, as the program uses them *)

Definition fopen (name : string) : M FILE := λ W,
  if fopen_ok X name
  then (Ret (Some name),
        mkWorld (heap W) (<[name := []]> (files W))
                (trace W ++ [EvFopen name (Some name)]))
  else (Ret None, mkWorld (heap W) (files W) (trace W ++ [EvFopen name None])).

(** Appending to an open file; the result is the number of bytes taken.
    The stream has no buffer of its own here: what a write delivers is in the
    file at once.  The program never reads a file, so the difference shows
    only in what a file holds when an export does not reach [fclose], and no
    property below speaks of that. *)
Definition put_bytes (name : string) (bs : list byte) (W : World) : nat * World :=
  let old := default [] (files W !! name) in
  let n := Nat.min (length bs) (write_room X name (length old) (length bs)) in
  (n, mkWorld (heap W) (<[name := old ++ take n bs]> (files W)) (trace W)).

Definition fprintf (f : FILE) (s : string) : M nat :=
  emit (EvFprintf f s) ;;
  match f with
  | None => undefined NullFile
  | Some name => λ W,
      let '(n, W') := put_bytes name (String.list_byte_of_string s) W in
      (Ret n, W')
  end.

(** [fwrite(p, 1, n, f)].  The result, which the program discards, stands
    for the part of the request that reaches the file.  Reading outside a
    block is undefined behaviour: nothing is said of what follows it. *)
Definition fwrite (p : ptr) (n : Z) (f : FILE) : M nat := λ W,
  match f with
  | None =>
      (Undefined NullFile,
       mkWorld (heap W) (files W) (trace W ++ [EvFwrite None [] 0]))
  | Some name =>
      match load (heap W) p n with
      | None => (Undefined BadAccess, W)
      | Some bs =>
          let '(k, W') := put_bytes name bs W in
          (Ret k, mkWorld (heap W') (files W') (trace W' ++ [EvFwrite f bs k]))
      end
  end.

Definition fclose (f : FILE) : M unit :=
  emit (EvFclose f) ;;
  match f with
  | None => undefined NullFile
  | Some _ => ret tt
  end.

(** *** [save_gray_frame] *)

Definition gray_filename (fnumber : Z) : string :=
  "frame" +:+ "-" +:+ fmt_d fnumber +:+ ".pgm".

Definition gray_header (xsize ysize : Z) : string :=
  "P5" +:+ nl +:+ fmt_d xsize +:+ " " +:+ fmt_d ysize +:+ nl +:+ fmt_d 255 +:+ nl.

Definition save_gray_frame (buf : ptr) (wrap xsize ysize fnumber : Z) : M unit :=
  let filename := gray_filename fnumber in
  f <- fopen filename ;;
  fprintf f (gray_header xsize ysize) ;;
  for_loop (Z.to_nat ysize) 0 (λ i, fwrite (ptr_add buf (i * wrap)) xsize f ;; ret tt) ;;
  fclose f.

(** *** [allocateFrame] *)

(** [av_frame_alloc]: a frame with default fields, or null. *)
Definition frame_alloc : M (option AVFrame) := λ W,
  (Ret (if av_frame_alloc X (heap W) then Some blank_frame else None), W).

Definition set_image (fr : AVFrame) (d : list ptr) (ls : list Z) : AVFrame :=
  mkFrame d ls (width fr) (height fr) (format fr) (pts fr) (key_frame fr)
    (pict_type fr) (pkt_size fr) (coded_picture_number fr).

Definition set_geometry (fr : AVFrame) (w h fmt : Z) : AVFrame :=
  mkFrame (data fr) (linesize fr) w h fmt (pts fr) (key_frame fr)
    (pict_type fr) (pkt_size fr) (coded_picture_number fr).

(** [av_image_alloc(fr->data, fr->linesize, w, h, fmt, align)]: on success a
    new block holds the picture and the frame points to it. *)
Definition image_alloc (fr : AVFrame) (w h fmt align : Z) : M (Z * AVFrame) := λ W,
  match av_image_alloc X (heap W) w h fmt align with
  | Some (ls, blk) =>
      let b := fresh (dom (heap W)) in
      (Ret (Z.of_nat (length blk), set_image fr [Some (b, 0)] ls),
       mkWorld (<[b := blk]> (heap W)) (files W) (trace W))
  | None => (Ret (-1, fr), W)
  end.

Definition allocateFrame (width height : Z) : M AVFrame :=
  newFrame <- frame_alloc ;;
  when (bool_decide (newFrame = None))
    (fprintf_stderr "could not allocate destination frame") ;;
  match newFrame with
  | None => undefined NullFrame (* [newFrame->data] *)
  | Some newFrame =>
      x <- image_alloc newFrame width height dst_pix_fmt 1 ;;
      let '(r, newFrame) := x in
      when (bool_decide (r < 0))
        (fprintf_stderr "Could not allocate destination image") ;;
      ret (set_geometry newFrame width height dst_pix_fmt)
  end.

(** *** [save_rgb_frame] *)

Definition rgb_filename (fnumber : Z) : string :=
  "frame" +:+ "-" +:+ fmt_d fnumber +:+ ".ppm".

Definition rgb_header (w h : Z) : string :=
  "P6" +:+ nl +:+ fmt_d w +:+ " " +:+ fmt_d h +:+ nl +:+ "255" +:+ nl.

(** [sws_getContext]: a scaler, or null. *)
Definition get_scaler (c : SwsContext) : M (option SwsContext) :=
  ret (if sws_getContext X c then Some c else None).

(** [sws_scale(c, src, srcStride, y, h, dst, dstStride)] *)
Definition scale (c : option SwsContext) (src : list ptr) (srcStride : list Z)
    (y h : Z) (dst : list ptr) (dstStride : list Z) : M unit :=
  match c with
  | None => undefined NullScaler
  | Some c => λ W,
      let W1 := mkWorld (heap W) (files W) (trace W ++ [EvSwsScale c src dst]) in
      match store (heap W) (default NULL (dst !! 0%nat))
              (sws_scale X c (heap W) src srcStride y h dstStride) with
      | Some h' => (Ret tt, mkWorld h' (files W1) (trace W1))
      | None => (Undefined BadAccess, W1)
      end
  end.

Definition save_rgb_frame (pFrame : AVFrame) (fnumber : Z) : M unit :=
  let filename := rgb_filename fnumber in
  f <- fopen filename ;;
  fprintf f (rgb_header (width pFrame) (height pFrame)) ;;
  frame_rgb <- allocateFrame (width pFrame) (height pFrame) ;;
  converted_data <-
    get_scaler (mkSws (width pFrame) (height pFrame) (format pFrame)
                  (width frame_rgb) (height frame_rgb) dst_pix_fmt
                  (Z.lor (Z.lor SWS_FAST_BILINEAR SWS_FULL_CHR_H_INT) SWS_ACCURATE_RND)) ;;
  scale converted_data (data pFrame) (linesize pFrame) 0 (height pFrame)
    (data frame_rgb) (linesize frame_rgb) ;;
  emit EvSwsFree ;;
  for_loop (Z.to_nat (height frame_rgb)) 0
    (λ i, fwrite (ptr_add (data_at frame_rgb 0) (i * linesize_at frame_rgb 0))
            (width frame_rgb * 3) f ;; ret tt) ;;
  fclose f.

(** *** [decode_packet] *)

Definition send_packet (ctx : D) (p : option AVPacket) : M (Z * D) := λ W,
  let '(r, ctx') := avcodec_send_packet X ctx p in
  (Ret (r, ctx'), mkWorld (heap W) (files W) (trace W ++ [EvSendPacket p r])).

Definition receive_frame (ctx : D) : M (Z * AVFrame * D) := λ W,
  let '(r, fr, ctx', h') := avcodec_receive_frame X ctx (heap W) in
  (Ret (r, fr, ctx'), mkWorld h' (files W) (trace W ++ [EvReceiveFrame r])).

(** The [while (response >= 0)] loop; it is entered with a non-negative
    response and every round that does not leave it ends with one.  [fuel]
    bounds the number of rounds: the loop ends when the decoder stops
    yielding frames, which the program cannot tell in advance. *)
Fixpoint receive_loop (fuel : nat) (ctx : D) (pFrame : AVFrame) : M (Z * D * AVFrame) :=
  match fuel with
  | O => out_of_fuel
  | S fuel' =>
      x <- receive_frame ctx ;;
      let '(response, pFrame, ctx) := x in
      if decide (response = AVERROR_EAGAIN X ∨ response = AVERROR_EOF X)
      then ret (0, ctx, pFrame)
      else if decide (response < 0)
      then logging "Error while receiving a frame from the decoder: %s" ;;
           ret (response, ctx, pFrame)
      else
        logging "Frame %d (type=%c, size=%d bytes, format=%d) pts %d key_frame %d [DTS %d]" ;;
        when (negb (format pFrame =? AV_PIX_FMT_YUV420P))
          (logging "Warning: the generated file may not be a grayscale image, but could e.g. be just the R component if the video format is RGB") ;;
        save_gray_frame (data_at pFrame 0) (linesize_at pFrame 0)
          (width pFrame) (height pFrame) (frame_number X ctx) ;;
        save_rgb_frame pFrame (frame_number X ctx) ;;
        receive_loop fuel' ctx pFrame
  end.

Definition decode_packet (fuel : nat) (pPacket : AVPacket) (ctx : D) (pFrame : AVFrame)
  : M (Z * D * AVFrame) :=
  x <- send_packet ctx (Some pPacket) ;;
  let '(response, ctx) := x in
  if decide (response < 0)
  then logging "Error while sending a packet to the decoder: %s" ;;
       ret (response, ctx, pFrame)
  else receive_loop fuel ctx pFrame.

(** *** [main] *)

(** The format of the line that ends a round of the stream loop; it starts
    with a tab. *)
Definition codec_line : string := String "009" "Codec %s ID %d bit_rate %lld".

(** The three locals the stream loop assigns. *)
Record selection := mkSel {
  video_stream_index : Z;
  pCodec : option AVCodec;
  pCodecParameters : option AVCodecParameters }.

(** The loop over [pFormatContext->streams], from index [i] on. *)
Fixpoint stream_loop (i : Z) (ss : list AVStream) (sel : selection) : M selection :=
  match ss with
  | [] => ret sel
  | s :: rest =>
      let pLocalCodecParameters := codecpar s in
      logging "AVStream->time_base before open coded %d/%d" ;;
      logging "AVStream->r_frame_rate before open coded %d/%d" ;;
      logging "AVStream->start_time %ld" ;;
      logging "AVStream->duration %ld" ;;
      logging "finding the proper decoder (CODEC)" ;;
      match avcodec_find_decoder X (codec_id pLocalCodecParameters) with
      | None =>
          logging "ERROR unsupported codec!" ;;
          stream_loop (i + 1) rest sel
      | Some pLocalCodec =>
          sel <-
            (if decide (codec_type pLocalCodecParameters = AVMEDIA_TYPE_VIDEO)
             then
               let sel :=
                 if decide (video_stream_index sel = -1)
                 then mkSel i (Some pLocalCodec) (Some pLocalCodecParameters)
                 else sel in
               logging "Video Codec: resolution %d x %d" ;;
               ret sel
             else if decide (codec_type pLocalCodecParameters = AVMEDIA_TYPE_AUDIO)
             then logging "Audio Codec: %d channels, sample rate %d" ;; ret sel
             else ret sel) ;;
          logging codec_line ;;
          stream_loop (i + 1) rest sel
      end
  end.

(** The values of the locals when the packet loop is left. *)
Record loop_exit := mkExit {
  exit_response : Z;
  exit_budget : Z;
  exit_ctx : D;
  exit_frame : AVFrame }.

(** The [while (av_read_frame(...) >= 0)] loop over the packets the
    container still delivers. *)
Fixpoint packet_loop (fuel : nat) (video_stream_index : Z) (pkts : list AVPacket)
    (response how_many_packets_to_process : Z) (ctx : D) (pFrame : AVFrame)
  : M loop_exit :=
  match pkts with
  | [] =>
      emit (EvReadFrame None) ;;
      ret (mkExit response how_many_packets_to_process ctx pFrame)
  | pPacket :: rest =>
      emit (EvReadFrame (Some pPacket)) ;;
      if decide (stream_index pPacket = video_stream_index)
      then
        logging "AVPacket->pts %ld" ;;
        x <- decode_packet fuel pPacket ctx pFrame ;;
        let '(response, ctx, pFrame) := x in
        if decide (response < 0)
        then ret (mkExit response how_many_packets_to_process ctx pFrame)
        else if decide (how_many_packets_to_process - 1 ≤ 0)
        then ret (mkExit response (how_many_packets_to_process - 1) ctx pFrame)
        else
          emit EvPacketUnref ;;
          packet_loop fuel video_stream_index rest response
            (how_many_packets_to_process - 1) ctx pFrame
      else
        emit EvPacketUnref ;;
        packet_loop fuel video_stream_index rest response
          how_many_packets_to_process ctx pFrame
  end.

(** [main] from the declaration of [how_many_packets_to_process] on, that
    variable being initialised to [budget]. *)
Definition run_packets (fuel : nat) (budget : Z) (sel : selection)
    (pFormatContext : AVFormatContext) (pCodecContext : D) (pFrame : AVFrame) : M Z :=
  packet_loop fuel (video_stream_index sel) (packets pFormatContext)
    0 budget pCodecContext pFrame ;;
  logging "releasing all the resources" ;;
  emit EvCloseInput ;;
  emit EvPacketFree ;;
  emit EvFrameFree ;;
  emit EvFreeContext ;;
  ret 0.

Definition main_with (budget : Z) (fuel : nat) (argc : Z) (argv1 : string) : M Z :=
  if decide (argc < 2)
  then printf ("You need to specify a media file." +:+ nl) ;; ret (-1)
  else
  logging "initializing all the containers, codecs and protocols." ;;
  if negb (avformat_alloc_context X)
  then logging "ERROR could not allocate memory for Format Context" ;; ret (-1)
  else
  logging "opening the input file (%s) and loading format (container) header" ;;
  match avformat_open_input X argv1 with
  | None => logging "ERROR av could not open the file" ;; ret (-1)
  | Some pFormatContext =>
  logging "format %s, duration %lld us, bit_rate %lld" ;;
  logging "finding stream info from format" ;;
  if decide (avformat_find_stream_info X pFormatContext < 0)
  then logging "ERROR could not get the stream info" ;; ret (-1)
  else
  sel <- stream_loop 0 (streams pFormatContext) (mkSel (-1) None None) ;;
  if decide (video_stream_index sel = -1)
  then logging "File %s does not contain a video stream!" ;; ret (-1)
  else
  match avcodec_alloc_context3 X (pCodec sel) with
  | None => logging "failed to allocated memory for AVCodecContext" ;; ret (-1)
  | Some pCodecContext =>
  let '(r, pCodecContext) :=
    avcodec_parameters_to_context X pCodecContext (pCodecParameters sel) in
  if decide (r < 0)
  then logging "failed to copy codec params to codec context" ;; ret (-1)
  else
  let '(r, pCodecContext) := avcodec_open2 X pCodecContext (pCodec sel) in
  if decide (r < 0)
  then logging "failed to open codec through avcodec_open2" ;; ret (-1)
  else
  pFrame <- frame_alloc ;;
  match pFrame with
  | None => logging "failed to allocate memory for AVFrame" ;; ret (-1)
  | Some pFrame =>
  if negb (av_packet_alloc X)
  then logging "failed to allocate memory for AVPacket" ;; ret (-1)
  else run_packets fuel budget sel pFormatContext pCodecContext pFrame
  end end end.

(** [int how_many_packets_to_process = 5;] *)
Definition main : nat → Z → string → M Z := main_with 5.

End Program.

(** ** Notions used to state the properties *)

(** The rows a row loop reads: row [i], [i+1], ... of [count] rows of [n]
    bytes, [stride] bytes apart, from [p]. *)
Fixpoint plane_rows (h : memory) (p : ptr) (stride n : Z) (i : Z) (count : nat)
  : list (list byte) :=
  match count with
  | O => []
  | S count' =>
      default [] (load h (ptr_add p (i * stride)) n)
        :: plane_rows h p stride n (i + 1) count'
  end.

(** Every row of the plane lies inside its block. *)
Definition plane_readable (h : memory) (p : ptr) (stride n rows : Z) : Prop :=
  ∀ i, 0 ≤ i < rows → is_Some (load h (ptr_add p (i * stride)) n).

(** A write or a close made through the valid handle of file [name]. *)
Definition stream_io (name : string) (e : event) : Prop :=
  match e with
  | EvFprintf (Some f) _ => f = name
  | EvFwrite (Some f) _ _ => f = name
  | EvFclose (Some f) => f = name
  | _ => False
  end.

(** What an export does after it has opened [name]: write and close through
    the valid handle, and convert. *)
Definition export_io (name : string) (e : event) : Prop :=
  match e with
  | EvSwsScale _ _ _ | EvSwsFree => True
  | _ => stream_io name e
  end.

(** The picture [av_image_alloc] made holds [h] rows of [w] pixels of three
    bytes. *)
Definition image_fits (ls : list Z) (blk : list byte) (w h : Z) : Prop :=
  let l0 := default 0 (ls !! 0%nat) in
  0 ≤ w ∧ ∀ i, 0 ≤ i < h → 0 ≤ i * l0 ∧ i * l0 + w * 3 ≤ Z.of_nat (length blk).

(** Writes to [name] are never short. *)
Definition writes_complete {D} (X : Extern D) (name : string) : Prop :=
  ∀ cur req : nat, (req ≤ write_room X name cur req)%nat.

Definition bytes_of (s : string) : list byte := String.list_byte_of_string s.

(** The scaler the colour exporter asks for. *)
Definition rgb_scaler (fr : AVFrame) : SwsContext :=
  mkSws (width fr) (height fr) (format fr) (width fr) (height fr) dst_pix_fmt
    (Z.lor (Z.lor SWS_FAST_BILINEAR SWS_FULL_CHR_H_INT) SWS_ACCURATE_RND).

(** The effect of a step that touches at most the file [name]. *)
Definition file_effect (name : string) (W W' : World) (evs : list event) : Prop :=
  heap W' = heap W ∧
  (∀ k, k ≠ name → files W' !! k = files W !! k) ∧
  trace W' = trace W ++ evs.

Definition is_scale (e : event) : Prop :=
  match e with EvSwsScale _ _ _ => True | _ => False end.

(** A computation that leaves memory alone and converts nothing. *)
Definition quiet {A} (c : M A) : Prop :=
  ∀ W, heap (c W).2 = heap W ∧
       ∃ evs, trace (c W).2 = trace W ++ evs ∧ Forall (λ e, ¬ is_scale e) evs.

(** *** Reading a trace *)

(** The response of a pull that hands over a frame: the one case in which
    the receive loop exports. *)
Definition yield_code {D} (X : Extern D) (r : Z) : Prop :=
  ¬ (r = AVERROR_EAGAIN X ∨ r = AVERROR_EOF X) ∧ ¬ r < 0.

(** The response of a pull that [decode_packet] treats as an error. *)
Definition pull_error {D} (X : Extern D) (r : Z) : Prop :=
  ¬ (r = AVERROR_EAGAIN X ∨ r = AVERROR_EOF X) ∧ r < 0.

Definition is_yield {D} (X : Extern D) (e : event) : bool :=
  match e with
  | EvReceiveFrame r => bool_decide (yield_code X r)
  | _ => false
  end.

Definition is_decode_error {D} (X : Extern D) (e : event) : bool :=
  match e with
  | EvSendPacket _ r => bool_decide (r < 0)
  | EvReceiveFrame r => bool_decide (pull_error X r)
  | _ => false
  end.

Definition count (p : event → bool) (tr : list event) : nat :=
  length (List.filter p tr).

(** What was handed to [avcodec_send_packet], in order. *)
Definition sent (tr : list event) : list (option AVPacket) :=
  omap (λ e, match e with EvSendPacket p _ => Some p | _ => None end) tr.

(** The files that were opened, in order. *)
Definition opened (tr : list event) : list string :=
  omap (λ e, match e with EvFopen n (Some _) => Some n | _ => None end) tr.

(** The two files of frame number [n]. *)
Definition two_names (n : Z) : list string := [gray_filename n; rgb_filename n].

(** The suffix test on file names. *)
Definition ends_with (suffix name : string) : bool :=
  bool_decide (String.list_ascii_of_string suffix
               `suffix_of` String.list_ascii_of_string name).

(** How many of the names end with [suffix]. *)
Definition names_with (suffix : string) (names : list string) : nat :=
  length (List.filter (ends_with suffix) names).

(** The calls that release the resources at the end of [main]. *)
Definition release_calls : list event :=
  [EvCloseInput; EvPacketFree; EvFrameFree; EvFreeContext].

Definition releasing : string := "releasing all the resources".

(** What may happen before the packet loop is left: anything but the drain
    signal, the line that announces the release, and the release calls. *)
Definition before_release (e : event) : Prop :=
  match e with
  | EvSendPacket None _ => False
  | EvLog s => s ≠ releasing
  | EvCloseInput | EvPacketFree | EvFrameFree | EvFreeContext => False
  | _ => True
  end.

(** The events of a computation, however it ends, all satisfy [P]. *)
Definition emits {A} (P : event → Prop) (c : M A) : Prop :=
  ∀ W, ∃ evs, trace (c W).2 = trace W ++ evs ∧ Forall P evs.

(** A computation at the end of which the resources may be released: its
    events are [before_release] ones, possibly followed by the line that
    announces the release and by the release calls. *)
Definition releases_last {A} (c : M A) : Prop :=
  ∀ W, ∃ body, Forall before_release body ∧
    (trace (c W).2 = trace W ++ body ∨
     trace (c W).2 = trace W ++ body ++ EvLog releasing :: release_calls).

(** [c] run in [W] returns [a] in [W'], having made the calls [evs]. *)
Definition runs {A} (c : M A) (W : World) (a : A) (W' : World) (evs : list event) : Prop :=
  c W = (Ret a, W') ∧ trace W' = trace W ++ evs.

(** What a stretch of the trace amounts to: the frames exported, by their
    numbers, the packets submitted, and the number of decode errors. *)
Record summary {D} (X : Extern D) (evs : list event)
    (nums : list Z) (pkts : list AVPacket) (errors : nat) : Prop := mkSummary {
  sum_opened : opened evs = flat_map two_names nums;
  sum_yields : count (is_yield X) evs = length nums;
  sum_sent : sent evs = map Some pkts;
  sum_errors : count (is_decode_error X) evs = errors }.

(** A line printed on stdout or stderr. *)
Definition is_log (e : event) : Prop :=
  match e with EvLog _ | EvStdout _ | EvStderr _ => True | _ => False end.

(** The packets of the selected stream. *)
Definition videos (vsi : Z) (pkts : list AVPacket) : list AVPacket :=
  filter (λ p, stream_index p = vsi) pkts.

(** A stream the selection may pick: its codec resolves to a decoder and it
    is a video stream. *)
Definition eligible {D} (X : Extern D) (s : AVStream) : Prop :=
  is_Some (avcodec_find_decoder X (codec_id (codecpar s))) ∧
  codec_type (codecpar s) = AVMEDIA_TYPE_VIDEO.

Global Instance eligible_dec {D} (X : Extern D) s : Decision (eligible X s).
Proof. unfold eligible. apply _. Defined.

(** The index of the first eligible stream, or [-1]. *)
Definition selected_index {D} (X : Extern D) (ss : list AVStream) : Z :=
  match list_find (eligible X) ss with
  | Some (j, _) => Z.of_nat j
  | None => -1
  end.

(** *** Assumptions on the library *)

(** An environment in which no export can go wrong and the decoder hands
    over at most [fuel - 1] pictures in a row: files open, allocations and
    scalers are granted, the destination picture has room for its rows, and
    every frame the decoder yields has a positive size and a readable first
    plane. *)
Record benign {D} (X : Extern D) (fuel : nat) : Prop := mkBenign {
  benign_open : ∀ name, fopen_ok X name = true;
  benign_frame : ∀ h, av_frame_alloc X h = true;
  benign_scaler : ∀ c, sws_getContext X c = true;
  benign_image : ∀ h w hh, 0 < w → 0 < hh →
    ∃ ls blk, av_image_alloc X h w hh dst_pix_fmt 1 = Some (ls, blk) ∧
              image_fits ls blk w hh;
  benign_picture : ∀ d h r fr d' h',
    avcodec_receive_frame X d h = (r, fr, d', h') → yield_code X r →
    0 < width fr ∧ 0 < height fr ∧
    plane_readable h' (data_at fr 0) (linesize_at fr 0) (width fr) (height fr);
  benign_pending : ∃ pending : D → nat,
    (∀ d, pending d < fuel)%nat ∧
    ∀ d h r fr d' h',
      avcodec_receive_frame X d h = (r, fr, d', h') → yield_code X r →
      (pending d' < pending d)%nat }.

(** libavcodec counts the frames it hands over in [frame_number]: a pull
    that yields a frame adds one, no other call changes it, and it is zero
    when the codec has just been opened. *)
Record counts_frames {D} (X : Extern D) : Prop := mkCounts {
  counts_send : ∀ d p, frame_number X (avcodec_send_packet X d p).2 = frame_number X d;
  counts_yield : ∀ d h r fr d' h',
    avcodec_receive_frame X d h = (r, fr, d', h') → yield_code X r →
    frame_number X d' = frame_number X d + 1;
  counts_other : ∀ d h r fr d' h',
    avcodec_receive_frame X d h = (r, fr, d', h') → ¬ yield_code X r →
    frame_number X d' = frame_number X d;
  counts_open : ∀ d c, frame_number X (avcodec_open2 X d c).2 = 0 }.

(** What a whole run amounts to: the summary of its trace, the bound on the
    packets submitted, the frame numbers when the library counts frames, and
    the packets submitted as a prefix of those of the selected stream. *)
Definition main_post {D} (X : Extern D) (budget : Z) (argv1 : string)
    (code : Z) (evs : list event) : Prop :=
  ∃ nums pkts errs,
    summary X evs nums pkts errs ∧
    (length pkts ≤ Z.to_nat (Z.max budget 1))%nat ∧
    (counts_frames X → nums = seqZ 1 (Z.of_nat (length nums))) ∧
    ∀ fc, avformat_open_input X argv1 = Some fc →
      let vp := videos (selected_index X (streams fc)) (packets fc) in
      ∃ k : nat, pkts = take k vp ∧ (k ≤ length vp)%nat ∧
        (errs = 0%nat → code = 0 →
         k = Nat.min (Z.to_nat (Z.max budget 1)) (length vp)).

(** ** A small concrete library, for examples *)

Module Toy.

(** The codec context: the frame counter, the number of pictures that are
    ready to be pulled, and whether the bit stream is damaged. *)
Record ctx := mkCtx { counter : Z; ready : nat; broken : bool }.

(** Two rows of three pixels, four bytes apart. *)
Definition picture : list byte :=
  [x01; x02; x03; xff; x04; x05; x06; xff].

Definition frame : AVFrame :=
  mkFrame [Some (0%nat, 0)] [4] 3 2 AV_PIX_FMT_YUV420P 0 1 1 8 0.

Definition AVERROR_INVALIDDATA : Z := -1094995529.

(** The first byte of a packet says how many pictures it completes; [xff]
    makes the decoder reject the packet, [xfe] is accepted but makes every
    later pull fail.  At most eight pictures wait. *)
Definition send (c : ctx) (p : option AVPacket) : Z * ctx :=
  match p with
  | None => (0, c)
  | Some p =>
      match pkt_data p with
      | xff :: _ => (AVERROR_INVALIDDATA, c)
      | xfe :: _ => (0, mkCtx (counter c) (ready c) true)
      | b :: _ => (0, mkCtx (counter c) (Nat.min (ready c + Byte.to_nat b) 8) (broken c))
      | [] => (0, c)
      end
  end.

Definition receive (c : ctx) (h : memory) : Z * AVFrame * ctx * memory :=
  if broken c then (AVERROR_INVALIDDATA, blank_frame, c, h)
  else
    match ready c with
    | O => (-11, blank_frame, c, h)
    | S n =>
        if decide (n < 8)%nat
        then (0, frame, mkCtx (counter c + 1) n false, <[0%nat := picture]> h)
        else (-11, blank_frame, c, h)
    end.

Definition container (ss : list AVStream) (pkts : list AVPacket) : AVFormatContext :=
  mkFormat "toy" 0 0 ss pkts.

Definition audio_stream : AVStream := mkStream (mkPar AVMEDIA_TYPE_AUDIO 86018 0 0 2 44100 0).
Definition video_stream : AVStream := mkStream (mkPar AVMEDIA_TYPE_VIDEO 27 3 2 0 0 0).

Definition lib (ss : list AVStream) (pkts : list AVPacket) (open_ok : string → bool)
    (room : string → nat → nat → nat) : Extern ctx :=
  mkExtern ctx (-11) (-541478725) true
    (λ _, Some (container ss pkts)) (λ _, 0)
    (λ i, if decide (i = 27) then Some (mkCodec "h264" 27)
          else if decide (i = 86018) then Some (mkCodec "aac" 86018) else None)
    (λ _, Some (mkCtx 0 0 false)) (λ c _, (0, c)) (λ _ _, (0, mkCtx 0 0 false))
    counter (λ _, true) true send receive
    (λ _ w h _ _, Some ([3 * w], replicate (Z.to_nat (3 * w * h)) x00))
    (λ _, true)
    (λ c _ _ _ _ _ _, replicate (Z.to_nat (3 * dstW c * dstH c)) x2a)
    open_ok room.

(** Every file opens and every write is complete. *)
Definition good (pkts : list AVPacket) : Extern ctx :=
  lib [audio_stream; video_stream] pkts (λ _, true) (λ _ _ n, n).

Definition video (n : byte) : AVPacket := mkPacket 1 0 [n].
Definition audio : AVPacket := mkPacket 0 0 [x00].

Definition W0 : World := mkWorld ∅ ∅ [].

(** A world in which the picture is in memory. *)
Definition W1 : World := mkWorld {[ 0%nat := picture ]} ∅ [].

End Toy.

(** *** Sources for concrete runs *)

Definition six_in_three : list AVPacket :=
  [Toy.video x02; Toy.video x02; Toy.video x02].

Definition late_decoder : list AVPacket :=
  [Toy.video x00; Toy.video x01; Toy.video x01; Toy.video x01;
   Toy.video x01; Toy.video x01; Toy.video x01].

(** The frames the decoder hands over when every packet is submitted. *)
Definition decodable (pkts : list AVPacket) : nat :=
  count (is_yield (Toy.good pkts))
    (trace (main_with (Toy.good pkts) 1000 9 2 "in.mp4" Toy.W0).2).

Definition gray_files (pkts : list AVPacket) : nat :=
  names_with ".pgm" (opened (trace (main (Toy.good pkts) 9 2 "in.mp4" Toy.W0).2)).

Definition colour_files (pkts : list AVPacket) : nat :=
  names_with ".ppm" (opened (trace (main (Toy.good pkts) 9 2 "in.mp4" Toy.W0).2)).

(** ** Notions for the properties of the whole program *)

(** The name of an exported file, grayscale or colour. *)
Definition frame_file (k : string) : Prop :=
  ∃ n, k = gray_filename n ∨ k = rgb_filename n.

(** A computation that, however it ends, changes no file outside [P]. *)
Definition writes_within {A} (P : string → Prop) (c : M A) : Prop :=
  ∀ W k, ¬ P k → files (c W).2 !! k = files W !! k.

(** The responses of [avcodec_receive_frame], in order. *)
Definition pulls (tr : list event) : list Z :=
  omap (λ e, match e with EvReceiveFrame r => Some r | _ => None end) tr.

(** What [av_read_frame] delivered, in order; [None] is the end of the
    container. *)
Definition reads (tr : list event) : list (option AVPacket) :=
  omap (λ e, match e with EvReadFrame p => Some p | _ => None end) tr.

(** The files that were closed through a valid handle, in order. *)
Definition closed (tr : list event) : list string :=
  omap (λ e, match e with EvFclose (Some n) => Some n | _ => None end) tr.

Definition is_unref (e : event) : bool :=
  match e with EvPacketUnref => true | _ => false end.

(** What an exporter may call. *)
Definition export_event (e : event) : Prop :=
  match e with
  | EvFopen _ _ | EvFprintf _ _ | EvFwrite _ _ _ | EvFclose _
  | EvSwsScale _ _ _ | EvSwsFree | EvStderr _ => True
  | _ => False
  end.

(** What [decode_packet] may call once the packet is submitted. *)
Definition decode_event (e : event) : Prop :=
  match e with
  | EvReceiveFrame _ | EvLog _ => True
  | _ => export_event e
  end.

(** A row written through the valid handle of [name]. *)
Definition row_write (name : string) (e : event) : Prop :=
  match e with EvFwrite (Some f) _ _ => f = name | _ => False end.

(** Two worlds with the same memory and the same files. *)
Definition same_store (W1 W2 : World) : Prop :=
  heap W1 = heap W2 ∧ files W1 = files W2.

(** How a run of [main] that returns [code] relates the worlds before and
    after: [-1] after a failed setup, with nothing but lines printed; [0]
    after the packet loop, with the release at the end. *)
Definition exit_shape (code : Z) (W W' : World) : Prop :=
  ∃ evs, trace W' = trace W ++ evs ∧
    ((code = -1 ∧ Forall is_log evs ∧ heap W' = heap W ∧ files W' = files W) ∨
     (code = 0 ∧ ∃ body, evs = body ++ EvLog releasing :: release_calls)).

(** A computation all of whose returning runs have the shape [exit_shape]. *)
Definition exits_in_shape (c : M Z) : Prop :=
  ∀ W code W', c W = (Ret code, W') → exit_shape code W W'.

(** The library [L] with other answers to the three requests the colour
    exporter makes: a frame, a picture, a scaler. *)
Definition with_allocs {D} (L : Extern D) (frame_ok : memory → bool)
    (image : memory → Z → Z → Z → Z → option (list Z * list byte))
    (scaler_ok : SwsContext → bool) : Extern D :=
  mkExtern D (AVERROR_EAGAIN L) (AVERROR_EOF L) (avformat_alloc_context L)
    (avformat_open_input L) (avformat_find_stream_info L) (avcodec_find_decoder L)
    (avcodec_alloc_context3 L) (avcodec_parameters_to_context L) (avcodec_open2 L)
    (frame_number L) frame_ok (av_packet_alloc L)
    (avcodec_send_packet L) (avcodec_receive_frame L)
    image scaler_ok (sws_scale L) (fopen_ok L) (write_room L).

(** What an export does between opening and closing [name]: write through
    the valid handle, and convert. *)
Definition export_write (name : string) (e : event) : Prop :=
  match e with
  | EvFprintf (Some f) _ | EvFwrite (Some f) _ _ => f = name
  | EvSwsScale _ _ _ | EvSwsFree => True
  | _ => False
  end.

(** The calls of one export that returned: the file is opened, written and
    closed. *)
Definition export_stretch (name : string) (evs : list event) : Prop :=
  ∃ mid, evs = EvFopen name (Some name) :: mid ++ [EvFclose (Some name)] ∧
         Forall (export_write name) mid.

(** A stretch of the trace in which every frame the decoder yielded was
    exported to its two files, and every file opened was closed. *)
Definition balanced {D} (X : Extern D) (evs : list event) : Prop :=
  ∃ nums, opened evs = flat_map two_names nums ∧
          closed evs = opened evs ∧
          count (is_yield X) evs = length nums.

(** A computation whose returning runs are [balanced]. *)
Definition returns_balanced {D} (X : Extern D) {A} (c : M A) : Prop :=
  ∀ W a W', c W = (Ret a, W') →
    ∃ evs, trace W' = trace W ++ evs ∧ balanced X evs.

(** What a run may call once an input file is named: anything but a line on
    standard output. *)
Definition not_stdout (e : event) : Prop :=
  match e with EvStdout _ => False | _ => True end.

(** Two results that agree on everything but the trace. *)
Definition agree {A} (x y : outcome A * World) : Prop :=
  x.1 = y.1 ∧ same_store x.2 y.2.

(** A computation that cannot tell what was called before it. *)
Definition history_free {A} (c : M A) : Prop :=
  ∀ W1 W2, same_store W1 W2 → agree (c W1) (c W2).

(** A computation that, however it ends, hands at most [n] packets to the
    decoder. *)
Definition submits_at_most {A} (n : nat) (c : M A) : Prop :=
  ∀ W, ∃ evs, trace (c W).2 = trace W ++ evs ∧ (length (sent evs) ≤ n)%nat.

(** ** The decoding protocol, read off a trace *)

(** A call to the decoder, with its response. *)
Inductive decoder_call :=
| Submit (p : option AVPacket) (r : Z)
| Pull (r : Z).

(** The calls to the decoder, in order. *)
Definition calls (tr : list event) : list decoder_call :=
  omap (λ e, match e with
             | EvSendPacket p r => Some (Submit p r)
             | EvReceiveFrame r => Some (Pull r)
             | _ => None
             end) tr.

(** The decoder calls of a run that drains every packet it submits: a
    packet the decoder accepts is followed by pulls, repeated as long as
    they hand over a frame and up to the first pull that does not; when that
    pull answers would-block or end of stream the next packet may follow;
    when it answers an error, or when the decoder rejects the packet, no
    call follows. *)
Inductive drained {D} (X : Extern D) : list decoder_call → Prop :=
| drained_nil : drained X []
| drained_rejected p r : r < 0 → drained X [Submit p r]
| drained_failed p r ys last :
    ¬ r < 0 → Forall (yield_code X) ys → pull_error X last →
    drained X (Submit p r :: map Pull ys ++ [Pull last])
| drained_packet p r ys last rest :
    ¬ r < 0 → Forall (yield_code X) ys →
    last = AVERROR_EAGAIN X ∨ last = AVERROR_EOF X →
    drained X rest →
    drained X (Submit p r :: map Pull ys ++ Pull last :: rest).

(** A computation whose returning runs are [drained]. *)
Definition returns_drained {D} (X : Extern D) {A} (c : M A) : Prop :=
  ∀ W a W', c W = (Ret a, W') →
    ∃ evs, trace W' = trace W ++ evs ∧ drained X (calls evs).

(** ** The frame counter *)

(** Modelled from the spec: the frame counter of the decoder session.  The
    program reads it as [pCodecContext->frame_number]; it is kept by
    libavcodec, whose code is not under [src/].  The specification says of
    it that it is "monotonically increasing per successfully decoded frame",
    that "each yielded DecodedFrame increments the session's frame-number
    counter before being handed to the Driver", and that it is "1-based" at
    the time of decode.  [counted L] is the library [L] with such a counter
    beside each codec context: zero when the session is created and when it
    is opened, one more after each pull that hands over a frame, and
    unchanged by every other call. *)
Definition counted {D} (L : Extern D) : Extern (Z * D) :=
  mkExtern (Z * D) (AVERROR_EAGAIN L) (AVERROR_EOF L) (avformat_alloc_context L)
    (avformat_open_input L) (avformat_find_stream_info L) (avcodec_find_decoder L)
    (λ c, (λ d, (0, d)) <$> avcodec_alloc_context3 L c)
    (λ s p, let '(r, d) := avcodec_parameters_to_context L s.2 p in (r, (s.1, d)))
    (λ s c, let '(r, d) := avcodec_open2 L s.2 c in (r, (0, d)))
    fst
    (av_frame_alloc L) (av_packet_alloc L)
    (λ s p, let '(r, d) := avcodec_send_packet L s.2 p in (r, (s.1, d)))
    (λ s h, let '(r, fr, d, h') := avcodec_receive_frame L s.2 h in
            (r, fr, (if decide (yield_code L r) then s.1 + 1 else s.1, d), h'))
    (av_image_alloc L) (sws_getContext L) (sws_scale L) (fopen_ok L) (write_room L).

(** The names of the files of the [m] frames that follow counter value
    [c0]. *)
Definition frame_names (c0 : Z) (m : nat) : list string :=
  flat_map two_names (seqZ (c0 + 1) (Z.of_nat m)).

(** A call that opens no file and hands over no frame. *)
Definition plain_call {D} (X : Extern D) (e : event) : Prop :=
  opened [e] = [] ∧ count (is_yield X) [e] = 0%nat.

(** What an exporter may call once it has called [fopen]. *)
Definition tail_event (e : event) : Prop :=
  match e with
  | EvFprintf _ _ | EvFwrite _ _ _ | EvFclose _
  | EvSwsScale _ _ _ | EvSwsFree | EvStderr _ => True
  | _ => False
  end.

(** The files opened in a stretch of a run, against the frame counter.  The
    stretch starts with the counter at [c0] and with the files [pin] still
    to be opened for a frame already pulled.  When the stretch returned,
    with the counter at [c1] and the files [pout] still to be opened, the
    files opened followed by [pout] are [pin] followed by the names of the
    frames pulled in the stretch; when it did not return, the files opened
    are the first of these. *)
Definition numbered {D} (X : Extern D) (pin : list string) (c0 : Z)
    (evs : list event) (final : option (list string * Z)) : Prop :=
  let m := count (is_yield X) evs in
  match final with
  | Some (pout, c1) =>
      opened evs ++ pout = pin ++ frame_names c0 m ∧ c1 = c0 + Z.of_nat m
  | None => opened evs `prefix_of` pin ++ frame_names c0 m
  end.

Definition numbers {D} (X : Extern D) {A} (pin : list string) (c0 : Z)
    (post : A → list string * Z) (c : M A) : Prop :=
  ∀ W, ∃ evs,
    trace (c W).2 = trace W ++ evs ∧
    numbered X pin c0 evs (match (c W).1 with Ret a => Some (post a) | _ => None end).

(** A computation that starts with the counter at zero and whose files are
    named by the counter. *)
Definition names_by_counter {D} (X : Extern D) {A} (c : M A) : Prop :=
  ∀ W, ∃ evs,
    trace (c W).2 = trace W ++ evs ∧
    opened evs `prefix_of` frame_names 0 (count (is_yield X) evs) ∧
    ∀ a, (c W).1 = Ret a → opened evs = frame_names 0 (count (is_yield X) evs).

(** * Properties *)

(** ** Memory and rows *)

Lemma ptr_add_add (p : ptr) (a b : Z) : ptr_add (ptr_add p a) b = ptr_add p (a + b).
Proof. destruct p as [[blk o]|]; simpl; [|done]. do 2 f_equal. lia. Qed.

Lemma load_length h p n bs : load h p n = Some bs → Z.of_nat (length bs) = n.
Proof.
  unfold load. destruct p as [[b o]|]; [|done].
  destruct (h !! b) as [blk|]; [|done].
  case_decide; [|done]. intros [= <-].
  rewrite length_take, length_drop. lia.
Qed.

(** The byte at column [c] of a row that was read is the byte at [p + c]. *)
Lemma load_row_byte h p n bs (c : Z) :
  load h p n = Some bs → 0 ≤ c < n →
  ∃ x, bs !! Z.to_nat c = Some x ∧ load h (ptr_add p c) 1 = Some [x].
Proof.
  unfold load. destruct p as [[b o]|]; simpl; [|done].
  destruct (h !! b) as [blk|]; [|done].
  case_decide as Hin; [|done]. intros [= <-] Hc.
  destruct (lookup_lt_is_Some_2 blk (Z.to_nat (o + c))) as [x Hx]; [lia|].
  exists x. split.
  - rewrite lookup_take_lt by lia. rewrite lookup_drop.
    rewrite <- Hx. f_equal. lia.
  - rewrite decide_True by lia. f_equal.
    rewrite (drop_S _ x) by done. done.
Qed.

Lemma plane_rows_length h p stride n i count :
  0 ≤ n →
  (∀ j, i ≤ j < i + Z.of_nat count → is_Some (load h (ptr_add p (j * stride)) n)) →
  Forall (λ row, length row = Z.to_nat n) (plane_rows h p stride n i count).
Proof.
  intros Hn. revert i. induction count as [|count IH]; intros i Hrd; simpl.
  - constructor.
  - constructor.
    + destruct (Hrd i) as [bs Hbs]; [lia|]. rewrite Hbs. simpl.
      apply load_length in Hbs. lia.
    + apply IH. intros j Hj. apply Hrd. lia.
Qed.

Lemma plane_rows_lookup h p stride n i count (r : nat) :
  (r < count)%nat →
  plane_rows h p stride n i count !! r
  = Some (default [] (load h (ptr_add p ((i + Z.of_nat r) * stride)) n)).
Proof.
  revert i r. induction count as [|count IH]; intros i r Hr; [lia|].
  destruct r as [|r]; simpl.
  - by replace (i + Z.of_nat 0) with i by lia.
  - rewrite IH by lia. by replace (i + 1 + Z.of_nat r) with (i + Z.of_nat (S r)) by lia.
Qed.

(** Lookup in the concatenation of rows of one length. *)
Lemma concat_uniform_lookup {A} (rows : list (list A)) (w r c : nat) :
  Forall (λ row, length row = w) rows → (c < w)%nat →
  concat rows !! (r * w + c)%nat = rows !! r ≫= (λ row, row !! c).
Proof.
  intros Hall Hc. revert r. induction Hall as [|row rows Hrow _ IH]; intros r.
  - by destruct r.
  - destruct r as [|r]; simpl.
    + rewrite lookup_app_l by lia. done.
    + rewrite lookup_app_r by lia. rewrite <- IH. f_equal. lia.
Qed.

Lemma plane_rows_total_length h p stride n i count :
  0 ≤ n →
  (∀ j, i ≤ j < i + Z.of_nat count → is_Some (load h (ptr_add p (j * stride)) n)) →
  length (concat (plane_rows h p stride n i count)) = (count * Z.to_nat n)%nat.
Proof.
  intros Hn Hrd.
  pose proof (plane_rows_length h p stride n i count Hn Hrd) as Hall.
  assert (length (plane_rows h p stride n i count) = count) as Hlen.
  { clear. revert i. induction count; intros; simpl; auto. }
  assert (∀ rows : list (list byte),
            Forall (λ row, length row = Z.to_nat n) rows →
            length (concat rows) = (length rows * Z.to_nat n)%nat) as Hgen.
  { induction 1 as [|row rows Hrow _ IH]; simpl; [done|].
    rewrite length_app, Hrow, IH. lia. }
  by rewrite Hgen, Hlen.
Qed.

(** ** The file calls *)

Lemma file_effect_refl name W : file_effect name W W [].
Proof. unfold file_effect. by rewrite app_nil_r. Qed.

Lemma file_effect_trans name W1 W2 W3 e1 e2 :
  file_effect name W1 W2 e1 → file_effect name W2 W3 e2 →
  file_effect name W1 W3 (e1 ++ e2).
Proof.
  intros (Hh1 & Hf1 & Ht1) (Hh2 & Hf2 & Ht2). split_and!.
  - congruence.
  - intros k Hk. rewrite Hf2, Hf1; auto.
  - rewrite Ht2, Ht1. by rewrite app_assoc.
Qed.

Section Files.

Context {D : Type} (X : Extern D).

Lemma fopen_ok_spec name W :
  fopen_ok X name = true →
  ∃ W', fopen X name W = (Ret (Some name), W') ∧
    file_effect name W W' [EvFopen name (Some name)] ∧
    files W' !! name = Some [].
Proof.
  intros Hok. unfold fopen. rewrite Hok. eexists. split; [done|]. split.
  - split_and!; simpl; [done| |done]. intros k Hk. by rewrite lookup_insert_ne.
  - simpl. by rewrite lookup_insert_eq.
Qed.

Lemma min_room name (cur : list byte) (bs : list byte) :
  writes_complete X name →
  (length bs `min` write_room X name (length cur) (length bs))%nat = length bs.
Proof. intros Hc. specialize (Hc (length cur) (length bs)). lia. Qed.

Lemma fprintf_spec name s W :
  ∃ k W', fprintf X (Some name) s W = (Ret k, W') ∧
    file_effect name W W' [EvFprintf (Some name) s] ∧
    files W' !! name = Some (default [] (files W !! name) ++ take k (bytes_of s)) ∧
    (writes_complete X name → k = length (bytes_of s)).
Proof.
  unfold fprintf, bind, emit, put_bytes. simpl.
  eexists _, _. split; [reflexivity|]. split_and!; simpl.
  - split_and!; simpl; [done| |done]. intros k Hk. by rewrite lookup_insert_ne.
  - by rewrite lookup_insert_eq.
  - apply min_room.
Qed.

Lemma fwrite_spec name p n bs W :
  load (heap W) p n = Some bs →
  ∃ k W', fwrite X p n (Some name) W = (Ret k, W') ∧
    file_effect name W W' [EvFwrite (Some name) bs k] ∧
    files W' !! name = Some (default [] (files W !! name) ++ take k bs) ∧
    (writes_complete X name → k = length bs).
Proof.
  intros Hl. unfold fwrite, put_bytes. rewrite Hl. simpl.
  eexists _, _. split; [reflexivity|]. split_and!; simpl.
  - split_and!; simpl; [done| |done]. intros k Hk. by rewrite lookup_insert_ne.
  - by rewrite lookup_insert_eq.
  - apply min_room.
Qed.

Lemma fclose_spec name W :
  ∃ W', fclose (Some name) W = (Ret tt, W') ∧
    file_effect name W W' [EvFclose (Some name)] ∧ files W' = files W.
Proof.
  unfold fclose, bind, emit. simpl. eexists. split; [done|].
  by split_and!.
Qed.

(** The row loop of both exporters. *)
Lemma row_loop_spec name p stride n count i cur W :
  files W !! name = Some cur →
  (∀ j, i ≤ j < i + Z.of_nat count → is_Some (load (heap W) (ptr_add p (j * stride)) n)) →
  ∃ W' evs added,
    for_loop count i (λ i, fwrite X (ptr_add p (i * stride)) n (Some name) ;; ret tt) W
    = (Ret tt, W') ∧
    file_effect name W W' evs ∧ Forall (stream_io name) evs ∧
    files W' !! name = Some (cur ++ added) ∧
    (writes_complete X name → added = concat (plane_rows (heap W) p stride n i count)).
Proof.
  revert i cur W. induction count as [|count IH]; intros i cur W Hcur Hrd.
  - exists W, [], []. split; [done|]. split; [apply file_effect_refl|].
    split; [constructor|]. by rewrite app_nil_r.
  - destruct (Hrd i) as [bs Hbs]; [lia|].
    destruct (fwrite_spec name _ _ _ _ Hbs) as (k & W1 & Hrun & Heff & Hfile & Hk).
    rewrite Hcur in Hfile. simpl in Hfile.
    destruct (IH (i + 1) _ W1 Hfile) as (W' & evs & added & Hloop & Heff' & Hev & Hfile' & Hadd).
    { intros j Hj. destruct Heff as (-> & _). apply Hrd. lia. }
    exists W', ([EvFwrite (Some name) bs k] ++ evs), (take k bs ++ added).
    split_and!.
    + simpl. unfold bind at 1. unfold bind at 1. rewrite Hrun. simpl. done.
    + by eapply file_effect_trans.
    + constructor; [done|done].
    + by rewrite Hfile', app_assoc.
    + intros Hc. rewrite (Hadd Hc), (Hk Hc), firstn_all. simpl.
      rewrite Hbs. simpl. destruct Heff as (-> & _). done.
Qed.

End Files.

Section Exporters.

Context {D : Type} (X : Extern D).

Lemma bind_ret_eq {A B} (c : M A) (k : A → M B) W a W1 :
  c W = (Ret a, W1) → (x <- c ;; k x) W = k a W1.
Proof. intros H. unfold bind. by rewrite H. Qed.

Lemma stream_io_export_io name e : stream_io name e → export_io name e.
Proof. by destruct e. Qed.

Lemma save_gray_frame_spec buf wrap xsize ysize fnumber W :
  let name := gray_filename fnumber in
  fopen_ok X name = true →
  plane_readable (heap W) buf wrap xsize ysize →
  ∃ W' evs content,
    save_gray_frame X buf wrap xsize ysize fnumber W = (Ret tt, W') ∧
    file_effect name W W' (EvFopen name (Some name) :: evs) ∧
    Forall (stream_io name) evs ∧
    files W' !! name = Some content ∧
    (writes_complete X name →
     content = bytes_of (gray_header xsize ysize)
               ++ concat (plane_rows (heap W) buf wrap xsize 0 (Z.to_nat ysize))).
Proof.
  intros name Hopen Hrd. unfold save_gray_frame. fold name.
  destruct (fopen_ok_spec X name W Hopen) as (W1 & Hr1 & He1 & Hf1).
  destruct (fprintf_spec X name (gray_header xsize ysize) W1) as (k & W2 & Hr2 & He2 & Hf2 & Hk).
  rewrite Hf1 in Hf2. simpl in Hf2.
  assert (heap W2 = heap W) as Hh2.
  { destruct He1 as (? & _), He2 as (? & _). congruence. }
  destruct (row_loop_spec X name buf wrap xsize (Z.to_nat ysize) 0 _ W2 Hf2)
    as (W3 & evs & added & Hr3 & He3 & Hev & Hf3 & Hadd).
  { intros j Hj. rewrite Hh2. apply Hrd. lia. }
  destruct (fclose_spec name W3) as (W4 & Hr4 & He4 & Hf4).
  exists W4, ([EvFprintf (Some name) (gray_header xsize ysize)] ++ evs ++ [EvFclose (Some name)]),
    (take k (bytes_of (gray_header xsize ysize)) ++ added).
  split_and!.
  - rewrite (bind_ret_eq _ _ _ _ _ Hr1), (bind_ret_eq _ _ _ _ _ Hr2),
      (bind_ret_eq _ _ _ _ _ Hr3). exact Hr4.
  - change (EvFopen name (Some name) :: ?l) with ([EvFopen name (Some name)] ++ l).
    eapply file_effect_trans; [done|]. eapply file_effect_trans; [done|].
    eapply file_effect_trans; done.
  - constructor; [done|]. apply Forall_app. split; [done|]. by constructor.
  - by rewrite Hf4, Hf3.
  - intros Hc. rewrite (Hk Hc), firstn_all, (Hadd Hc), Hh2. done.
Qed.

Lemma allocateFrame_spec w h ls blk W :
  av_frame_alloc X (heap W) = true →
  av_image_alloc X (heap W) w h dst_pix_fmt 1 = Some (ls, blk) →
  allocateFrame X w h W
  = (Ret (mkFrame [Some (fresh (dom (heap W)), 0)] ls w h dst_pix_fmt 0 0 0 0 0),
     mkWorld (<[fresh (dom (heap W)) := blk]> (heap W)) (files W) (trace W)).
Proof.
  intros Hfa Hia. unfold allocateFrame, bind, frame_alloc, image_alloc, when.
  rewrite Hfa. simpl. rewrite Hia. simpl.
  rewrite bool_decide_eq_false_2 by lia. done.
Qed.

Lemma overwrite_length blk o bs : length (overwrite blk o bs) = length blk.
Proof.
  unfold overwrite. rewrite length_take, !length_app, length_take, length_drop. lia.
Qed.

Lemma save_rgb_frame_spec fr fnumber ls blk W :
  let name := rgb_filename fnumber in
  let b := fresh (dom (heap W)) in
  fopen_ok X name = true →
  av_frame_alloc X (heap W) = true →
  av_image_alloc X (heap W) (width fr) (height fr) dst_pix_fmt 1 = Some (ls, blk) →
  sws_getContext X (rgb_scaler fr) = true →
  image_fits ls blk (width fr) (height fr) →
  ∃ W' evs content new,
    save_rgb_frame X fr fnumber W = (Ret tt, W') ∧
    heap W' = <[b := new]> (heap W) ∧ length new = length blk ∧
    (∀ k, k ≠ name → files W' !! k = files W !! k) ∧
    trace W' = trace W ++ EvFopen name (Some name) :: evs ∧
    Forall (export_io name) evs ∧
    files W' !! name = Some content ∧
    (writes_complete X name →
     content = bytes_of (rgb_header (width fr) (height fr))
               ++ concat (plane_rows (heap W') (Some (b, 0)) (default 0 (ls !! 0%nat))
                            (width fr * 3) 0 (Z.to_nat (height fr)))).
Proof.
  intros name b Hopen Hfa Hia Hsws [Hw Hfit]. unfold save_rgb_frame. fold name.
  destruct (fopen_ok_spec X name W Hopen) as (W1 & Hr1 & He1 & Hf1).
  destruct (fprintf_spec X name (rgb_header (width fr) (height fr)) W1)
    as (k & W2 & Hr2 & He2 & Hf2 & Hk).
  rewrite Hf1 in Hf2. simpl in Hf2.
  assert (heap W2 = heap W) as Hh2.
  { destruct He1 as (? & _), He2 as (? & _). congruence. }
  pose proof (file_effect_trans _ _ _ _ _ _ He1 He2) as (_ & Hf12 & Ht12).
  rewrite (bind_ret_eq _ _ _ _ _ Hr1), (bind_ret_eq _ _ _ _ _ Hr2).
  erewrite bind_ret_eq; [|apply allocateFrame_spec; rewrite Hh2; eassumption].
  rewrite Hh2. fold b. cbn [width height data linesize].
  unfold get_scaler. unfold bind at 1. unfold ret at 1.
  change (mkSws _ _ _ _ _ _ _) with (rgb_scaler fr). rewrite Hsws.
  set (out := sws_scale X (rgb_scaler fr) (<[b:=blk]> (heap W)) (data fr) (linesize fr)
                0 (height fr) ls).
  set (new := overwrite blk 0 out).
  set (W3 := mkWorld (<[b:=new]> (heap W)) (files W2)
               (trace W2 ++ [EvSwsScale (rgb_scaler fr) (data fr) [Some (b, 0)]; EvSwsFree])).
  assert (files W3 !! name = Some (take k (bytes_of (rgb_header (width fr) (height fr)))))
    as Hf3 by done.
  destruct (row_loop_spec X name (Some (b, 0)) (default 0 (ls !! 0%nat)) (width fr * 3)
              (Z.to_nat (height fr)) 0 _ W3 Hf3)
    as (W4 & evs & added & Hr4 & He4 & Hev & Hf4 & Hadd).
  { intros j Hj. simpl. rewrite lookup_insert_eq. unfold new.
    rewrite overwrite_length. destruct (Hfit j) as [? ?]; [lia|].
    rewrite decide_True by lia. done. }
  destruct (fclose_spec name W4) as (W5 & Hr5 & He5 & Hf5).
  exists W5,
    ([EvFprintf (Some name) (rgb_header (width fr) (height fr));
      EvSwsScale (rgb_scaler fr) (data fr) [Some (b, 0)]; EvSwsFree]
     ++ evs ++ [EvFclose (Some name)]),
    (take k (bytes_of (rgb_header (width fr) (height fr))) ++ added), new.
  assert (heap W5 = <[b:=new]> (heap W)) as Hh5.
  { destruct He5 as (-> & _), He4 as (-> & _). done. }
  split_and!.
  - unfold bind at 1. unfold scale. simpl.
    rewrite lookup_insert_eq. rewrite decide_True by lia. simpl.
    rewrite insert_insert_eq. fold out. fold new.
    unfold bind at 1, emit. simpl.
    rewrite <- app_assoc. simpl. fold W3.
    unfold data_at, linesize_at. simpl.
    rewrite (bind_ret_eq _ _ _ _ _ Hr4). exact Hr5.
  - done.
  - apply overwrite_length.
  - intros k' Hk'. destruct He5 as (_ & -> & _); [|done].
    destruct He4 as (_ & -> & _); [|done]. simpl. by apply Hf12.
  - destruct He5 as (_ & _ & ->), He4 as (_ & _ & ->). simpl. rewrite Ht12.
    rewrite <- !app_assoc. done.
  - repeat (constructor; [done|]). apply Forall_app. split.
    + eapply Forall_impl; [done|]. apply stream_io_export_io.
    + by constructor.
  - by rewrite Hf5, Hf4.
  - intros Hc. rewrite (Hk Hc), firstn_all, (Hadd Hc), Hh5. done.
Qed.

End Exporters.

(** ** The two exporters *)

Lemma gray_rgb_names_differ n : gray_filename n ≠ rgb_filename n.
Proof.
  unfold gray_filename, rgb_filename. intros H.
  do 3 apply (inj (String.app _)) in H. discriminate.
Qed.

Lemma gray_header_text w h :
  gray_header w h = "P5" +:+ nl +:+ pretty w +:+ " " +:+ pretty h +:+ nl +:+ "255" +:+ nl.
Proof. reflexivity. Qed.

Section ExporterTheorems.

Context {D : Type} (X : Extern D).

(** C2.  The grayscale exporter copies the luma plane, row by row and
    addressing each source row by the stride: when the file opens, writes
    are complete and every row of the plane is readable, the payload byte at
    position [r * w + c] of the written file is the byte [buf[r * s + c]],
    for every row [r < h] and column [c < w].  (The property does not need
    [s >= w].) *)
Theorem gray_pixel_is_luma_byte buf wrap xsize ysize fnumber r c W :
  fopen_ok X (gray_filename fnumber) = true →
  writes_complete X (gray_filename fnumber) →
  plane_readable (heap W) buf wrap xsize ysize →
  0 ≤ r < ysize → 0 ≤ c < xsize →
  ∃ W' payload x,
    save_gray_frame X buf wrap xsize ysize fnumber W = (Ret tt, W') ∧
    files W' !! gray_filename fnumber
    = Some (bytes_of ("P5" +:+ nl +:+ pretty xsize +:+ " " +:+ pretty ysize
                      +:+ nl +:+ "255" +:+ nl) ++ payload) ∧
    payload !! Z.to_nat (r * xsize + c) = Some x ∧
    load (heap W) (ptr_add buf (r * wrap + c)) 1 = Some [x].
Proof.
  intros Hopen Hfull Hrd Hr Hc.
  destruct (save_gray_frame_spec X buf wrap xsize ysize fnumber W Hopen Hrd)
    as (W' & evs & content & Hrun & _ & _ & Hfile & Hcontent).
  specialize (Hcontent Hfull).
  set (rows := plane_rows (heap W) buf wrap xsize 0 (Z.to_nat ysize)) in *.
  destruct (Hrd r Hr) as [row Hrow].
  destruct (load_row_byte _ _ _ _ c Hrow) as (x & Hx & Hload); [lia|].
  exists W', (concat rows), x. split_and!.
  - done.
  - by rewrite Hfile, Hcontent.
  - replace (Z.to_nat (r * xsize + c))
      with (Z.to_nat r * Z.to_nat xsize + Z.to_nat c)%nat by nia.
    rewrite (concat_uniform_lookup rows (Z.to_nat xsize)).
    + unfold rows. rewrite plane_rows_lookup by lia.
      replace (0 + Z.of_nat (Z.to_nat r)) with r by lia.
      rewrite Hrow. done.
    + apply plane_rows_length; [lia|]. intros j Hj. apply Hrd. lia.
    + lia.
  - by rewrite <- ptr_add_add.
Qed.

(** C3.  Each of the two files written for a frame is the ASCII header
    followed by exactly [width * height] payload bytes (grayscale) or
    [width * height * 3] payload bytes (colour): the payload is made of the
    first [width] (resp. [3 * width]) bytes of each row, the rows being read
    one stride apart, so that no padding byte of a row is written.  This
    holds when the files open, the writes are complete, the luma plane is
    readable and the destination picture is allocated with room for its
    rows. *)
Theorem exported_files_layout fr fnumber ls blk W :
  let w := width fr in
  let h := height fr in
  let b := fresh (dom (heap W)) in
  fopen_ok X (gray_filename fnumber) = true →
  fopen_ok X (rgb_filename fnumber) = true →
  writes_complete X (gray_filename fnumber) →
  writes_complete X (rgb_filename fnumber) →
  0 ≤ w → 0 ≤ h →
  plane_readable (heap W) (data_at fr 0) (linesize_at fr 0) w h →
  av_frame_alloc X (heap W) = true →
  av_image_alloc X (heap W) w h dst_pix_fmt 1 = Some (ls, blk) →
  image_fits ls blk w h →
  sws_getContext X (rgb_scaler fr) = true →
  ∃ W1 W2 gray rgb,
    save_gray_frame X (data_at fr 0) (linesize_at fr 0) w h fnumber W = (Ret tt, W1) ∧
    save_rgb_frame X fr fnumber W1 = (Ret tt, W2) ∧
    files W2 !! gray_filename fnumber
    = Some (bytes_of ("P5" +:+ nl +:+ pretty w +:+ " " +:+ pretty h
                      +:+ nl +:+ "255" +:+ nl) ++ gray) ∧
    gray = concat (plane_rows (heap W) (data_at fr 0) (linesize_at fr 0) w 0 (Z.to_nat h)) ∧
    Z.of_nat (length gray) = w * h ∧
    files W2 !! rgb_filename fnumber
    = Some (bytes_of ("P6" +:+ nl +:+ pretty w +:+ " " +:+ pretty h
                      +:+ nl +:+ "255" +:+ nl) ++ rgb) ∧
    rgb = concat (plane_rows (heap W2) (Some (b, 0)) (default 0 (ls !! 0%nat))
                    (w * 3) 0 (Z.to_nat h)) ∧
    Z.of_nat (length rgb) = w * h * 3.
Proof.
  intros w h b Hog Hor Hfg Hfr Hw Hh Hrd Hfa Hia Hfit Hsws.
  destruct (save_gray_frame_spec X _ _ _ _ fnumber W Hog Hrd)
    as (W1 & evs1 & gray & Hrun1 & (Hh1 & Hk1 & _) & _ & Hfile1 & Hgray).
  specialize (Hgray Hfg).
  rewrite <- Hh1 in Hfa, Hia.
  destruct (save_rgb_frame_spec X fr fnumber ls blk W1 Hor Hfa Hia Hsws Hfit)
    as (W2 & evs2 & rgb & new & Hrun2 & Hh2 & Hnew & Hk2 & _ & _ & Hfile2 & Hrgb).
  specialize (Hrgb Hfr). rewrite Hh1 in Hh2, Hrgb. fold b in Hh2, Hrgb.
  eexists W1, W2, _, _. split_and!; try done.
  - rewrite Hk2 by apply gray_rgb_names_differ. rewrite Hfile1, Hgray. done.
  - rewrite plane_rows_total_length; [nia|lia|]. intros j Hj. apply Hrd. lia.
  - rewrite Hfile2, Hrgb. done.
  - destruct Hfit as [_ Hfit].
    rewrite plane_rows_total_length; [fold w h; nia|fold w; lia|].
    intros j Hj. rewrite Hh2. simpl. rewrite lookup_insert_eq, Hnew.
    destruct (Hfit j) as [? ?]; [lia|]. fold w.
    rewrite decide_True by lia. done.
Qed.

(** *** Conversion *)

Ltac no_scale :=
  repeat first [apply List.Forall_nil | apply List.Forall_cons; [cbn; tauto|]].

Lemma quiet_ret {A} (a : A) : quiet (ret a).
Proof. intros W. split; [done|]. exists []. by rewrite app_nil_r. Qed.

Lemma quiet_undefined {A} u : quiet (@undefined A u).
Proof. intros W. split; [done|]. exists []. by rewrite app_nil_r. Qed.

Lemma quiet_emit e : ¬ is_scale e → quiet (emit e).
Proof. intros He W. split; [done|]. exists [e]. split; [done|]. by constructor. Qed.

Lemma quiet_bind {A B} (c : M A) (k : A → M B) :
  quiet c → (∀ a, quiet (k a)) → quiet (x <- c ;; k x).
Proof.
  intros Hc Hk W. unfold bind. destruct (Hc W) as (Hh & evs & Ht & Hev).
  destruct (c W) as [[a|u|] W1]; simpl in *;
    [|split; [done|]; by exists evs..].
  destruct (Hk a W1) as (Hh' & evs' & Ht' & Hev'). split; [congruence|].
  exists (evs ++ evs'). split; [|by apply Forall_app].
  by rewrite Ht', Ht, app_assoc.
Qed.

Lemma quiet_fopen name : quiet (fopen X name).
Proof.
  intros W. unfold fopen. destruct (fopen_ok X name); simpl;
    (split; [done|]); eexists [_]; (split; [done|]); no_scale.
Qed.

Lemma quiet_fprintf f s : quiet (fprintf X f s).
Proof.
  unfold fprintf. apply quiet_bind; [apply quiet_emit; cbn; tauto|]. intros _.
  destruct f as [name|]; [|apply quiet_undefined].
  intros W. unfold put_bytes. simpl. split; [done|]. exists []. by rewrite app_nil_r.
Qed.

Lemma quiet_fwrite p n f : quiet (fwrite X p n f).
Proof.
  intros W. unfold fwrite, put_bytes. destruct f as [name|]; simpl.
  - destruct (load (heap W) p n); simpl.
    + split; [done|]. eexists [_]. split; [done|]. no_scale.
    + split; [done|]. exists []. by rewrite app_nil_r.
  - split; [done|]. eexists [_]. split; [done|]. no_scale.
Qed.

Lemma quiet_fclose f : quiet (fclose f).
Proof.
  unfold fclose. apply quiet_bind; [apply quiet_emit; cbn; tauto|]. intros _.
  destruct f; [apply quiet_ret|apply quiet_undefined].
Qed.

Lemma quiet_for_loop n i (body : Z → M unit) :
  (∀ i, quiet (body i)) → quiet (for_loop n i body).
Proof.
  intros Hb. revert i. induction n as [|n IH]; intros i; simpl.
  - apply quiet_ret.
  - apply quiet_bind; [apply Hb|]. intros _. apply IH.
Qed.

(** What the colour exporter does once it holds the destination frame. *)
Lemma quiet_rows_and_close (frame_rgb : AVFrame) f :
  quiet (emit EvSwsFree ;;
         for_loop (Z.to_nat (height frame_rgb)) 0
           (λ i, fwrite X (ptr_add (data_at frame_rgb 0) (i * linesize_at frame_rgb 0))
                   (width frame_rgb * 3) f ;; ret tt) ;;
         fclose f).
Proof.
  apply quiet_bind; [apply quiet_emit; cbn; tauto|]. intros _.
  apply quiet_bind; [|intros _; apply quiet_fclose].
  apply quiet_for_loop. intros i. apply quiet_bind; [apply quiet_fwrite|].
  intros _. apply quiet_ret.
Qed.

Lemma not_scale_elem c src dst evs :
  Forall (λ e, ¬ is_scale e) evs → EvSwsScale c src dst ∉ evs.
Proof.
  intros Hall Hin. rewrite List.Forall_forall in Hall.
  apply (Hall (EvSwsScale c src dst)); [by apply list_elem_of_In|done].
Qed.

Ltac no_conv H :=
  exfalso; eapply not_scale_elem; [|exact H];
  first [done | apply Forall_app; split; [done|]; first [done | no_scale]].

Lemma allocateFrame_no_frame w h W :
  av_frame_alloc X (heap W) = false →
  allocateFrame X w h W
  = (Undefined NullFrame,
     mkWorld (heap W) (files W)
       (trace W ++ [EvStderr "could not allocate destination frame"])).
Proof.
  intros Hfa. unfold allocateFrame, bind, frame_alloc, when. rewrite Hfa. done.
Qed.

Lemma allocateFrame_no_image w h W :
  av_frame_alloc X (heap W) = true →
  av_image_alloc X (heap W) w h dst_pix_fmt 1 = None →
  allocateFrame X w h W
  = (Ret (mkFrame [] [] w h dst_pix_fmt 0 0 0 0 0),
     mkWorld (heap W) (files W)
       (trace W ++ [EvStderr "Could not allocate destination image"])).
Proof.
  intros Hfa Hia. unfold allocateFrame, bind, frame_alloc, image_alloc, when.
  rewrite Hfa. simpl. rewrite Hia. done.
Qed.

Lemma bind_ret_l {A B} (a : A) (k : A → M B) W : (x <- ret a ;; k x) W = k a W.
Proof. done. Qed.

Lemma scale_fresh c src ss y h b blk ds W :
  heap W !! b = Some blk →
  scale X (Some c) src ss y h [Some (b, 0)] ds W
  = (Ret tt,
     mkWorld (<[b := overwrite blk 0 (sws_scale X c (heap W) src ss y h ds)]> (heap W))
       (files W) (trace W ++ [EvSwsScale c src [Some (b, 0)]])).
Proof. intros Hb. unfold scale, store. simpl. rewrite Hb. by rewrite decide_True by lia. Qed.

Lemma scale_null c src ss y h ds W :
  scale X (Some c) src ss y h [] ds W
  = (Undefined BadAccess,
     mkWorld (heap W) (files W) (trace W ++ [EvSwsScale c src []])).
Proof. done. Qed.


End ExporterTheorems.

(** *** Concrete runs of the exporters *)

Lemma toy_plane_readable : plane_readable (heap Toy.W1) (Some (0%nat, 0)) 4 3 2.
Proof.
  intros i Hi. assert (i = 0 ∨ i = 1) as [-> | ->] by lia; vm_compute; by eexists.
Qed.

(** The pixel of row 1, column 2 of the toy picture, whose rows are four
    bytes apart, is byte 5 of the payload. *)
Lemma gray_pixel_is_luma_byte_witness :
  ∃ W' payload,
    save_gray_frame (Toy.good []) (Some (0%nat, 0)) 4 3 2 1 Toy.W1 = (Ret tt, W') ∧
    files W' !! "frame-1.pgm" = Some (bytes_of (gray_header 3 2) ++ payload) ∧
    payload !! 5%nat = Some x06.
Proof.
  destruct (gray_pixel_is_luma_byte (Toy.good []) (Some (0%nat, 0)) 4 3 2 1 1 2 Toy.W1)
    as (W' & payload & x & Hrun & Hfile & Hpix & Hload).
  - reflexivity.
  - intros cur req. simpl. lia.
  - exact toy_plane_readable.
  - lia.
  - lia.
  - exists W', payload. split; [exact Hrun|]. split; [exact Hfile|].
    vm_compute in Hload. injection Hload as <-. exact Hpix.
Defined.

Lemma exported_files_layout_witness :
  ∃ W2 gray rgb,
    files W2 !! "frame-1.pgm" = Some (bytes_of (gray_header 3 2) ++ gray) ∧
    length gray = 6%nat ∧
    files W2 !! "frame-1.ppm" = Some (bytes_of (rgb_header 3 2) ++ rgb) ∧
    length rgb = 18%nat.
Proof.
  destruct (exported_files_layout (Toy.good []) Toy.frame 1 [9] (replicate 18 x00) Toy.W1)
    as (W1 & W2 & gray & rgb & _ & _ & Hg & _ & Hgl & Hc & _ & Hcl).
  - reflexivity.
  - reflexivity.
  - intros cur req. simpl. lia.
  - intros cur req. simpl. lia.
  - simpl. lia.
  - simpl. lia.
  - exact toy_plane_readable.
  - reflexivity.
  - reflexivity.
  - split; [simpl; lia|]. intros i Hi.
    change (0 ≤ i < 2) in Hi. change (0 ≤ i * 9 ∧ i * 9 + 3 * 3 ≤ 18). lia.
  - reflexivity.
  - exists W2, gray, rgb. cbv zeta in Hgl, Hcl.
    change (width Toy.frame) with 3 in Hgl, Hcl. change (height Toy.frame) with 2 in Hgl, Hcl.
    split; [exact Hg|].
    split; [lia|]. split; [exact Hc|]. lia.
Defined.

(** ** Runs *)

Lemma runs_ret {A} (a : A) W : runs (ret a) W a W [].
Proof. split; [done|]. by rewrite app_nil_r. Qed.

Lemma runs_emit e W :
  runs (emit e) W tt (mkWorld (heap W) (files W) (trace W ++ [e])) [e].
Proof. done. Qed.

Lemma runs_bind {A B} (c : M A) (k : A → M B) W a W1 e1 b W2 e2 :
  runs c W a W1 e1 → runs (k a) W1 b W2 e2 →
  runs (x <- c ;; k x) W b W2 (e1 ++ e2).
Proof.
  intros [Hc Ht1] [Hk Ht2]. split.
  - unfold bind. by rewrite Hc.
  - by rewrite Ht2, Ht1, app_assoc.
Qed.

Lemma runs_events {A} (c : M A) W a W' evs evs' :
  runs c W a W' evs → evs = evs' → runs c W a W' evs'.
Proof. by intros ? <-. Qed.

(** ** Summaries *)

Lemma count_app p l1 l2 : count p (l1 ++ l2) = (count p l1 + count p l2)%nat.
Proof. unfold count. by rewrite List.filter_app, length_app. Qed.

Lemma sent_app l1 l2 : sent (l1 ++ l2) = sent l1 ++ sent l2.
Proof. apply omap_app. Qed.

Lemma opened_app l1 l2 : opened (l1 ++ l2) = opened l1 ++ opened l2.
Proof. apply omap_app. Qed.

Section Summaries.

Context {D : Type} (X : Extern D).

Lemma summary_nil : summary X [] [] [] 0.
Proof. by split. Qed.

Lemma summary_app e1 e2 n1 n2 p1 p2 k1 k2 :
  summary X e1 n1 p1 k1 → summary X e2 n2 p2 k2 →
  summary X (e1 ++ e2) (n1 ++ n2) (p1 ++ p2) (k1 + k2).
Proof.
  intros [Ho1 Hy1 Hs1 He1] [Ho2 Hy2 Hs2 He2]. split.
  - by rewrite opened_app, Ho1, Ho2, flat_map_app.
  - by rewrite count_app, Hy1, Hy2, length_app.
  - by rewrite sent_app, Hs1, Hs2, map_app.
  - by rewrite count_app, He1, He2.
Qed.

Lemma summary_app_r e1 e2 n p k :
  summary X e1 n p k → summary X e2 [] [] 0 → summary X (e1 ++ e2) n p k.
Proof.
  intros H1 H2. pose proof (summary_app _ _ _ _ _ _ _ _ H1 H2) as H.
  by rewrite !app_nil_r, Nat.add_0_r in H.
Qed.

Lemma summary_log s : summary X [EvLog s] [] [] 0.
Proof. by split. Qed.

Lemma summary_export_io name evs :
  Forall (export_io name) evs → summary X evs [] [] 0.
Proof.
  induction 1 as [|e evs He _ IH]; [apply summary_nil|].
  change (e :: evs) with ([e] ++ evs).
  apply (summary_app [e] evs [] [] [] [] 0 0); [|done].
  destruct e as [| | | | | | | | [f|] | [f|] | [f|] | | | | | |]; try done.
Qed.

End Summaries.

(** ** The decode loop in a benign environment *)

Section Decode.

Context {D : Type} (X : Extern D) (fuel : nat) (HX : benign X fuel).

(** The two exports of one frame. *)
Lemma export_pair_runs fr n W :
  0 < width fr → 0 < height fr →
  plane_readable (heap W) (data_at fr 0) (linesize_at fr 0) (width fr) (height fr) →
  ∃ W1 e1 W2 e2,
    runs (save_gray_frame X (data_at fr 0) (linesize_at fr 0) (width fr) (height fr) n)
      W tt W1 e1 ∧
    runs (save_rgb_frame X fr n) W1 tt W2 e2 ∧
    opened (e1 ++ e2) = two_names n ∧ sent (e1 ++ e2) = [] ∧
    count (is_yield X) (e1 ++ e2) = 0%nat ∧ count (is_decode_error X) (e1 ++ e2) = 0%nat.
Proof.
  intros Hw Hh Hrd.
  destruct (save_gray_frame_spec X _ _ _ _ n W (benign_open X fuel HX _) Hrd)
    as (W1 & e1 & c1 & Hr1 & (Hh1 & _ & Ht1) & He1 & _).
  destruct (benign_image X fuel HX (heap W1) _ _ Hw Hh) as (ls & blk & Hia & Hfit).
  destruct (save_rgb_frame_spec X fr n ls blk W1 (benign_open X fuel HX _)
              (benign_frame X fuel HX _) Hia (benign_scaler X fuel HX _) Hfit)
    as (W2 & e2 & c2 & new & Hr2 & _ & _ & _ & Ht2 & He2 & _).
  exists W1, (EvFopen (gray_filename n) (Some (gray_filename n)) :: e1),
    W2, (EvFopen (rgb_filename n) (Some (rgb_filename n)) :: e2).
  pose proof (Forall_impl _ _ _ He1 (stream_io_export_io (gray_filename n))) as He1'.
  destruct (summary_export_io X _ _ He1') as [Ho1 Hy1 Hs1 Hx1].
  destruct (summary_export_io X _ _ He2) as [Ho2 Hy2 Hs2 Hx2].
  split_and!; try done.
  - rewrite opened_app. simpl. by rewrite Ho1, Ho2.
  - rewrite sent_app. simpl. by rewrite Hs1, Hs2.
  - rewrite count_app. unfold count in *. simpl. by rewrite Hy1, Hy2.
  - rewrite count_app. unfold count in *. simpl. by rewrite Hx1, Hx2.
Qed.

Lemma summary_logs evs : Forall is_log evs → summary X evs [] [] 0.
Proof.
  induction 1 as [|e evs He _ IH]; [apply summary_nil|].
  change (e :: evs) with ([e] ++ evs).
  apply (summary_app X [e] evs [] [] [] [] 0 0); [|done].
  by destruct e.
Qed.

Lemma summary_blocked r :
  r = AVERROR_EAGAIN X ∨ r = AVERROR_EOF X → summary X [EvReceiveFrame r] [] [] 0.
Proof.
  intros Hr. split; try done; unfold count; simpl.
  - rewrite bool_decide_eq_false_2; [done|]. intros [H _]. by apply H.
  - rewrite bool_decide_eq_false_2; [done|]. intros [H _]. by apply H.
Qed.

Lemma summary_pull_error r : pull_error X r → summary X [EvReceiveFrame r] [] [] 1.
Proof.
  intros Hr. split; try done; unfold count; simpl.
  - rewrite bool_decide_eq_false_2; [done|]. intros [_ H]. destruct Hr. lia.
  - by rewrite bool_decide_eq_true_2.
Qed.

(** A pull that yields frame number [n], the log lines and the two exports. *)
Lemma summary_yield r logs evs n :
  yield_code X r → Forall is_log logs →
  opened evs = two_names n → sent evs = [] →
  count (is_yield X) evs = 0%nat → count (is_decode_error X) evs = 0%nat →
  summary X ([EvReceiveFrame r] ++ logs ++ evs) [n] [] 0.
Proof.
  intros Hr Hlogs Ho Hs Hy He. destruct (summary_logs _ Hlogs) as [Ho' Hy' Hs' He'].
  split.
  - rewrite !opened_app, Ho', Ho. done.
  - rewrite !count_app, Hy', Hy. unfold count. simpl. by rewrite bool_decide_eq_true_2.
  - rewrite !sent_app, Hs', Hs. done.
  - rewrite !count_app, He', He. unfold count. simpl.
    rewrite bool_decide_eq_false_2; [done|]. intros [_ H]. destruct Hr. lia.
Qed.

Lemma runs_when_log (b : bool) s W :
  ∃ W', runs (when b (logging s)) W tt W' (if b then [EvLog s] else []) ∧
        heap W' = heap W.
Proof.
  destruct b; simpl.
  - eexists. split; [apply runs_emit|done].
  - exists W. split; [apply runs_ret|done].
Qed.

Lemma receive_loop_runs (pending : D → nat) :
  (∀ d h r fr d' h',
     avcodec_receive_frame X d h = (r, fr, d', h') → yield_code X r →
     (pending d' < pending d)%nat) →
  ∀ f ctx pFrame W, (pending ctx < f)%nat →
  ∃ resp ctx' fr' W' evs nums,
    runs (receive_loop X f ctx pFrame) W (resp, ctx', fr') W' evs ∧
    summary X evs nums [] (if decide (resp < 0) then 1 else 0) ∧
    resp ≤ 0 ∧
    (counts_frames X →
     nums = seqZ (frame_number X ctx + 1) (Z.of_nat (length nums)) ∧
     frame_number X ctx' = frame_number X ctx + Z.of_nat (length nums)).
Proof.
  intros Hdec f. induction f as [|f IH]; intros ctx pFrame W Hf; [lia|].
  destruct (avcodec_receive_frame X ctx (heap W)) as [[[r fr] ctx1] h1] eqn:Erf.
  set (W1 := mkWorld h1 (files W) (trace W ++ [EvReceiveFrame r])).
  assert (runs (receive_frame X ctx) W (r, fr, ctx1) W1 [EvReceiveFrame r]) as Hrf.
  { unfold runs, receive_frame. by rewrite Erf. }
  cbn [receive_loop].
  destruct (decide (r = AVERROR_EAGAIN X ∨ r = AVERROR_EOF X)) as [Hblk|Hblk].
  { (* nothing to pull *)
    exists 0, ctx1, fr, W1, ([EvReceiveFrame r] ++ []), []. split_and!.
    - eapply runs_bind; [exact Hrf|]. cbv beta iota. rewrite decide_True by done.
      apply runs_ret.
    - by apply summary_blocked.
    - lia.
    - intros HC. simpl. split; [done|].
      rewrite (counts_other X HC _ _ _ _ _ _ Erf); [lia|]. intros [H _]. by apply H. }
  destruct (decide (r < 0)) as [Hneg|Hneg].
  { (* the pull failed *)
    eexists r, ctx1, fr, _, ([EvReceiveFrame r] ++ [EvLog _] ++ []), []. split_and!.
    - eapply runs_bind; [exact Hrf|]. cbv beta iota.
      rewrite decide_False by done. rewrite decide_True by done.
      eapply runs_bind; [apply runs_emit|]. apply runs_ret.
    - rewrite decide_True by done.
      apply (summary_app X [_] [_] [] [] [] [] 1 0);
        [by apply summary_pull_error|apply summary_log].
    - lia.
    - intros HC. simpl. split; [done|].
      rewrite (counts_other X HC _ _ _ _ _ _ Erf); [lia|]. intros [_ H]. lia. }
  (* a frame *)
  assert (yield_code X r) as Hy by done.
  destruct (benign_picture X fuel HX _ _ _ _ _ _ Erf Hy) as (Hw & Hh & Hrd).
  set (n := frame_number X ctx1).
  set (W2 := mkWorld (heap W1) (files W1) (trace W1 ++ [EvLog
    "Frame %d (type=%c, size=%d bytes, format=%d) pts %d key_frame %d [DTS %d]"])).
  destruct (runs_when_log (negb (format fr =? AV_PIX_FMT_YUV420P))
    "Warning: the generated file may not be a grayscale image, but could e.g. be just the R component if the video format is RGB"
    W2) as (W3 & Hwhen & Hh3).
  destruct (export_pair_runs fr n W3 Hw Hh) as (W4 & e1 & W5 & e2 & Hg & Hc & Ho & Hs & Hyy & Hee).
  { by rewrite Hh3. }
  destruct (IH ctx1 fr W5) as (resp & ctx' & fr' & W' & evs & nums & Hrest & Hsum & Hresp & Hnum).
  { specialize (Hdec _ _ _ _ _ _ Erf Hy). lia. }
  match type of Hwhen with runs _ _ _ _ ?l => set (wl := l) in * end.
  set (fl := EvLog "Frame %d (type=%c, size=%d bytes, format=%d) pts %d key_frame %d [DTS %d]").
  exists resp, ctx', fr', W',
    (([EvReceiveFrame r] ++ ([fl] ++ wl) ++ (e1 ++ e2)) ++ evs), (n :: nums).
  split_and!.
  - eapply runs_events.
    + eapply runs_bind; [exact Hrf|]. cbv beta iota.
      rewrite decide_False by done. rewrite decide_False by done.
      eapply runs_bind; [apply runs_emit|]. fold W2.
      eapply runs_bind; [exact Hwhen|].
      eapply runs_bind; [exact Hg|].
      eapply runs_bind; [exact Hc|]. exact Hrest.
    + by rewrite <- !app_assoc.
  - change (n :: nums) with ([n] ++ nums).
    apply (summary_app X _ evs [n] nums [] [] 0); [|done].
    apply summary_yield; try done.
    apply Forall_app. split; [by constructor|]. subst wl. destruct (negb _); by repeat constructor.
  - done.
  - intros HC. destruct (Hnum HC) as [Hn1 Hn2].
    pose proof (counts_yield X HC _ _ _ _ _ _ Erf Hy) as Hfn. fold n in Hfn.
    simpl length. split.
    + rewrite seqZ_cons by lia. f_equal; [lia|]. rewrite Hn1 at 1.
      f_equal; lia.
    + rewrite Hn2. fold n. lia.
Qed.

Lemma summary_send pkt r :
  summary X [EvSendPacket (Some pkt) r] [] [pkt] (if decide (r < 0) then 1 else 0).
Proof.
  split; try done. unfold count. simpl.
  destruct (decide (r < 0)).
  - by rewrite bool_decide_eq_true_2.
  - by rewrite bool_decide_eq_false_2.
Qed.

Lemma decode_packet_runs pkt ctx pFrame W :
  ∃ resp ctx' fr' W' evs nums,
    runs (decode_packet X fuel pkt ctx pFrame) W (resp, ctx', fr') W' evs ∧
    summary X evs nums [pkt] (if decide (resp < 0) then 1 else 0) ∧
    resp ≤ 0 ∧
    (counts_frames X →
     nums = seqZ (frame_number X ctx + 1) (Z.of_nat (length nums)) ∧
     frame_number X ctx' = frame_number X ctx + Z.of_nat (length nums)).
Proof.
  destruct (benign_pending X fuel HX) as (pending & Hbound & Hdec).
  destruct (avcodec_send_packet X ctx (Some pkt)) as [r ctx1] eqn:Esp.
  set (W1 := mkWorld (heap W) (files W) (trace W ++ [EvSendPacket (Some pkt) r])).
  assert (runs (send_packet X ctx (Some pkt)) W (r, ctx1) W1 [EvSendPacket (Some pkt) r])
    as Hsend.
  { unfold runs, send_packet. by rewrite Esp. }
  assert (frame_number X ctx1 = frame_number X (avcodec_send_packet X ctx (Some pkt)).2)
    as Hfn by (by rewrite Esp).
  pose proof (summary_send pkt r) as Hs.
  unfold decode_packet. destruct (decide (r < 0)) as [Hneg|Hneg].
  - (* the packet is rejected *)
    eexists r, ctx1, pFrame, _, ([_] ++ [EvLog _] ++ []), []. split_and!.
    + eapply runs_bind; [exact Hsend|]. cbv beta iota. rewrite decide_True by done.
      eapply runs_bind; [apply runs_emit|]. apply runs_ret.
    + rewrite decide_True by done.
      apply (summary_app X [_] [_] [] [] [pkt] [] 1 0); [done|apply summary_log].
    + lia.
    + intros HC. simpl. split; [done|]. rewrite Hfn, (counts_send X HC). lia.
  - destruct (receive_loop_runs pending Hdec fuel ctx1 pFrame W1 (Hbound _))
      as (resp & ctx' & fr' & W' & evs & nums & Hloop & Hsum & Hresp & Hnum).
    exists resp, ctx', fr', W', ([EvSendPacket (Some pkt) r] ++ evs), nums. split_and!.
    + eapply runs_bind; [exact Hsend|]. cbv beta iota. by rewrite decide_False by done.
    + apply (summary_app X [_] evs [] nums [pkt] [] 0 _); done.
    + done.
    + intros HC. destruct (Hnum HC) as [Hn1 Hn2].
      rewrite Hfn, (counts_send X HC) in Hn1, Hn2. done.
Qed.

Lemma packet_loop_runs vsi pkts :
  ∀ resp0 budget ctx pFrame W, 0 ≤ resp0 →
  ∃ ex W' evs nums (k : nat),
    runs (packet_loop X fuel vsi pkts resp0 budget ctx pFrame) W ex W' evs ∧
    summary X evs nums (take k (videos vsi pkts))
      (if decide (exit_response ex < 0) then 1 else 0) ∧
    Z.of_nat k = budget - exit_budget ex + (if decide (exit_response ex < 0) then 1 else 0) ∧
    (k ≤ length (videos vsi pkts))%nat ∧
    (k ≤ Z.to_nat (Z.max budget 1))%nat ∧
    (¬ exit_response ex < 0 →
     k = Nat.min (Z.to_nat (Z.max budget 1)) (length (videos vsi pkts))) ∧
    (counts_frames X →
     nums = seqZ (frame_number X ctx + 1) (Z.of_nat (length nums)) ∧
     frame_number X (exit_ctx ex) = frame_number X ctx + Z.of_nat (length nums)).
Proof.
  induction pkts as [|pkt rest IH]; intros resp0 budget ctx pFrame W Hresp0.
  - (* the container is exhausted *)
    eexists (mkExit resp0 budget ctx pFrame), _, ([EvReadFrame None] ++ []), [], 0%nat.
    cbn [packet_loop exit_response exit_budget exit_ctx]. rewrite !decide_False by lia.
    split_and!.
    + eapply runs_bind; [apply runs_emit|]. apply runs_ret.
    + by split.
    + lia.
    + lia.
    + lia.
    + intros _. unfold videos. simpl. lia.
    + intros _. simpl. split; [done|lia].
  - cbn [packet_loop]. unfold videos. destruct (decide (stream_index pkt = vsi)) as [Hv|Hv].
    + (* a packet of the video stream *)
      rewrite filter_cons_True by done. fold (videos vsi rest).
      destruct (decode_packet_runs pkt ctx pFrame
                  (mkWorld (heap W) (files W)
                     ((trace W ++ [EvReadFrame (Some pkt)]) ++ [EvLog "AVPacket->pts %ld"])))
        as (resp & ctx1 & fr1 & W1 & e1 & n1 & Hdec & Hsum1 & Hresp & Hnum1).
      destruct (decide (resp < 0)) as [Hneg|Hneg].
      { eexists (mkExit resp budget ctx1 fr1), W1, ([_] ++ [_] ++ e1 ++ []), n1, 1%nat.
        cbn [exit_response exit_budget exit_ctx]. rewrite !decide_True by done.
        split_and!.
        - eapply runs_bind; [apply runs_emit|].
          eapply runs_bind; [apply runs_emit|].
          eapply runs_bind; [exact Hdec|]. cbv beta iota. rewrite decide_True by done.
          apply runs_ret.
        - rewrite app_nil_r. simpl take. rewrite take_0.
          apply (summary_app X [_; _] e1 [] n1 [] [pkt] 0 1); [by split|done].
        - lia.
        - simpl. lia.
        - lia.
        - done.
        - done. }
      destruct (decide (budget - 1 ≤ 0)) as [Hlast|Hmore].
      { eexists (mkExit resp (budget - 1) ctx1 fr1), W1, ([_] ++ [_] ++ e1 ++ []), n1, 1%nat.
        cbn [exit_response exit_budget exit_ctx]. rewrite !decide_False by done.
        split_and!.
        - eapply runs_bind; [apply runs_emit|].
          eapply runs_bind; [apply runs_emit|].
          eapply runs_bind; [exact Hdec|]. cbv beta iota. rewrite decide_False by done.
          apply runs_ret.
        - rewrite app_nil_r. simpl take. rewrite take_0.
          apply (summary_app X [_; _] e1 [] n1 [] [pkt] 0 0); [by split|done].
        - lia.
        - simpl. lia.
        - lia.
        - intros _. simpl. lia.
        - done. }
      destruct (IH resp (budget - 1) ctx1 fr1
                  (mkWorld (heap W1) (files W1) (trace W1 ++ [EvPacketUnref])))
        as (ex & W' & e2 & n2 & k & Hrest & Hsum2 & Hk & Hk1 & Hk2 & Hk3 & Hnum2); [lia|].
      exists ex, W', (([EvReadFrame (Some pkt); EvLog "AVPacket->pts %ld"] ++ e1)
                      ++ [EvPacketUnref] ++ e2), (n1 ++ n2), (S k).
      split_and!.
      * eapply runs_events.
        { eapply runs_bind; [apply runs_emit|].
          eapply runs_bind; [apply runs_emit|].
          eapply runs_bind; [exact Hdec|]. cbv beta iota. rewrite decide_False by done.
          eapply runs_bind; [apply runs_emit|]. exact Hrest. }
        by rewrite <- !app_assoc.
      * simpl take. change (pkt :: take k ?l) with ([pkt] ++ take k l).
        apply (summary_app X _ _ n1 n2 [pkt] _ 0).
        { apply (summary_app X [_; _] e1 [] n1 [] [pkt] 0 0); [by split|done]. }
        apply (summary_app X [_] e2 [] n2 [] _ 0); [by split|done].
      * lia.
      * simpl. lia.
      * lia.
      * intros Hok. specialize (Hk3 Hok). simpl. lia.
      * intros HC. destruct (Hnum1 HC) as [Ha1 Ha2]. destruct (Hnum2 HC) as [Hb1 Hb2].
        rewrite length_app, Nat2Z.inj_add. split.
        -- rewrite seqZ_app by lia. rewrite <- Ha1. f_equal. rewrite Hb1 at 1.
           f_equal. lia.
        -- rewrite Hb2, Ha2. lia.
    + (* a packet of another stream *)
      rewrite filter_cons_False by done. fold (videos vsi rest).
      destruct (IH resp0 budget ctx pFrame
                  (mkWorld (heap W) (files W)
                     ((trace W ++ [EvReadFrame (Some pkt)]) ++ [EvPacketUnref])))
        as (ex & W' & e2 & n2 & k & Hrest & Hsum2 & Hk & Hk1 & Hk2 & Hk3 & Hnum2); [lia|].
      exists ex, W', ([EvReadFrame (Some pkt)] ++ [EvPacketUnref] ++ e2), n2, k.
      split_and!; try done.
      * eapply runs_bind; [apply runs_emit|].
        eapply runs_bind; [apply runs_emit|]. exact Hrest.
      * apply (summary_app X [_; _] e2 [] n2 [] _ 0); [by split|done].
Qed.

End Decode.

(** ** Stream selection *)

Section Selection.

Context {D : Type} (X : Extern D).

Ltac run_emit := eapply runs_bind; [apply runs_emit|].

Lemma list_find_cons {A} (P : A → Prop) `{∀ x, Decision (P x)} (x : A) l :
  list_find P (x :: l)
  = if decide (P x) then Some (0%nat, x) else prod_map S id <$> list_find P l.
Proof. done. Qed.

(** The loop over the streams only logs, and leaves in the three locals the
    first eligible stream at or after index [i], unless one was selected
    before. *)
Lemma stream_loop_runs ss :
  ∀ i sel W, 0 ≤ i →
  ∃ sel' W' evs,
    runs (stream_loop X i ss sel) W sel' W' evs ∧
    Forall is_log evs ∧ heap W' = heap W ∧ files W' = files W ∧
    sel' = (if decide (video_stream_index sel = -1)
            then match list_find (eligible X) ss with
                 | Some (j, s) =>
                     mkSel (i + Z.of_nat j)
                       (avcodec_find_decoder X (codec_id (codecpar s)))
                       (Some (codecpar s))
                 | None => sel
                 end
            else sel).
Proof.
  induction ss as [|s rest IH]; intros i sel W Hi.
  - exists sel, W, []. split; [apply runs_ret|]. split; [constructor|].
    split; [done|]. split; [done|]. simpl. by destruct (decide _).
  - cbn [stream_loop].
    set (W5 := mkWorld (heap W) (files W)
                 (((((trace W ++ [EvLog "AVStream->time_base before open coded %d/%d"])
                   ++ [EvLog "AVStream->r_frame_rate before open coded %d/%d"])
                   ++ [EvLog "AVStream->start_time %ld"])
                   ++ [EvLog "AVStream->duration %ld"])
                   ++ [EvLog "finding the proper decoder (CODEC)"])).
    destruct (avcodec_find_decoder X (codec_id (codecpar s))) as [codec|] eqn:Hfind.
    + (* the codec resolves *)
      destruct (decide (codec_type (codecpar s) = AVMEDIA_TYPE_VIDEO)) as [Hvid|Hvid].
      * set (sel1 := if decide (video_stream_index sel = -1)
                     then mkSel i (Some codec) (Some (codecpar s)) else sel).
        destruct (IH (i + 1) sel1
                    (mkWorld (heap W5) (files W5)
                       ((trace W5 ++ [EvLog "Video Codec: resolution %d x %d"])
                        ++ [EvLog codec_line])))
          as (sel' & W' & evs & Hrun & Hlog & Hh & Hf & Hsel); [lia|].
        eexists sel', W', _. split_and!.
        -- do 5 run_emit. eapply runs_bind.
           { eapply runs_bind; [apply runs_emit|]. apply runs_ret. }
           run_emit. exact Hrun.
        -- repeat (apply Forall_app; split; [by repeat constructor|]). done.
        -- done.
        -- done.
        -- rewrite Hsel. unfold sel1. rewrite list_find_cons.
           destruct (decide (video_stream_index sel = -1)) as [Hnone|Hsome].
           ++ simpl. rewrite decide_False by lia.
              rewrite (decide_True (P:=eligible X s)) by (split; [by rewrite Hfind|done]).
              rewrite Hfind. f_equal. lia.
           ++ by rewrite decide_False by done.
      * assert (¬ eligible X s) as Hne by (by intros [_ ?]).
        destruct (decide (codec_type (codecpar s) = AVMEDIA_TYPE_AUDIO)) as [Haud|Haud].
        -- destruct (IH (i + 1) sel
                       (mkWorld (heap W5) (files W5)
                          ((trace W5 ++ [EvLog "Audio Codec: %d channels, sample rate %d"])
                           ++ [EvLog codec_line])))
             as (sel' & W' & evs & Hrun & Hlog & Hh & Hf & Hsel); [lia|].
           eexists sel', W', _. split_and!.
           ++ do 5 run_emit. eapply runs_bind.
              { eapply runs_bind; [apply runs_emit|]. apply runs_ret. }
              run_emit. exact Hrun.
           ++ repeat (apply Forall_app; split; [by repeat constructor|]). done.
           ++ done.
           ++ done.
           ++ rewrite Hsel. rewrite list_find_cons, (decide_False (P:=eligible X s)) by done.
              destruct (decide _); [|done].
              destruct (list_find (eligible X) rest) as [[j s']|]; [|done].
              simpl. f_equal. lia.
        -- destruct (IH (i + 1) sel
                       (mkWorld (heap W5) (files W5)
                          (trace W5 ++ [EvLog codec_line])))
             as (sel' & W' & evs & Hrun & Hlog & Hh & Hf & Hsel); [lia|].
           eexists sel', W', _. split_and!.
           ++ do 5 run_emit. eapply runs_bind; [apply runs_ret|].
              run_emit. exact Hrun.
           ++ repeat (apply Forall_app; split; [by repeat constructor|]). done.
           ++ done.
           ++ done.
           ++ rewrite Hsel. rewrite list_find_cons, (decide_False (P:=eligible X s)) by done.
              destruct (decide _); [|done].
              destruct (list_find (eligible X) rest) as [[j s']|]; [|done].
              simpl. f_equal. lia.
    + (* no decoder: the stream is skipped *)
      assert (¬ eligible X s) as Hne.
      { intros [[c Hc] _]. congruence. }
      destruct (IH (i + 1) sel
                  (mkWorld (heap W5) (files W5)
                     (trace W5 ++ [EvLog "ERROR unsupported codec!"])))
        as (sel' & W' & evs & Hrun & Hlog & Hh & Hf & Hsel); [lia|].
      eexists sel', W', _. split_and!.
      * do 5 run_emit. run_emit. exact Hrun.
      * repeat (apply Forall_app; split; [by repeat constructor|]). done.
      * done.
      * done.
      * rewrite Hsel. rewrite list_find_cons, (decide_False (P:=eligible X s)) by done.
        destruct (decide _); [|done].
        destruct (list_find (eligible X) rest) as [[j s']|]; [|done].
        simpl. f_equal. lia.
Qed.

End Selection.

(** ** The whole run in a benign environment *)

Section Main.

Context {D : Type} (X : Extern D) (fuel : nat) (HX : benign X fuel).

Ltac run_emit := eapply runs_bind; [apply runs_emit|].

Lemma main_post_early budget argv1 evs :
  Forall is_log evs → main_post X budget argv1 (-1) evs.
Proof.
  intros Hlog. exists [], [], 0%nat. split_and!.
  - by apply summary_logs.
  - simpl. lia.
  - done.
  - intros fc _ vp. exists 0%nat. split; [by rewrite take_0|]. split; [lia|]. lia.
Qed.

Lemma main_post_prefix budget argv1 code l evs :
  Forall is_log l → main_post X budget argv1 code evs →
  main_post X budget argv1 code (l ++ evs).
Proof.
  intros Hl (nums & pkts & errs & Hsum & Hrest). exists nums, pkts, errs.
  split; [|done].
  apply (summary_app X l evs [] nums [] pkts 0 errs); [by apply summary_logs|done].
Qed.

(** One step of [main] that only prints. *)
Lemma runs_bind_post {A} (c : M A) (k : A → M Z) budget argv1 W a W1 e1 :
  runs c W a W1 e1 → Forall is_log e1 →
  (∃ code W2 e2, runs (k a) W1 code W2 e2 ∧
     main_post X budget argv1 code e2 ∧ (code = 0 ∨ code = -1)) →
  ∃ code W2 evs, runs (x <- c ;; k x) W code W2 evs ∧
     main_post X budget argv1 code evs ∧ (code = 0 ∨ code = -1).
Proof.
  intros Hc Hlog (code & W2 & e2 & Hk & Hpost & Hcode).
  exists code, W2, (e1 ++ e2). split; [by eapply runs_bind|].
  split; [by apply main_post_prefix|done].
Qed.

Ltac log_step :=
  eapply runs_bind_post; [apply runs_emit|by repeat constructor|].

Ltac early_exit :=
  log_step; eexists (-1), _, []; split; [apply runs_ret|];
  split; [by apply main_post_early|by right].

Lemma run_packets_runs budget sel fc ctx ctx1 r2 pFrame argv1 W :
  avformat_open_input X argv1 = Some fc →
  video_stream_index sel = selected_index X (streams fc) →
  avcodec_open2 X ctx1 (pCodec sel) = (r2, ctx) →
  ∃ code W2 evs, runs (run_packets X fuel budget sel fc ctx pFrame) W code W2 evs ∧
     main_post X budget argv1 code evs ∧ (code = 0 ∨ code = -1).
Proof.
  intros Hopen Hvsi Hopen2.
  destruct (packet_loop_runs X fuel HX (video_stream_index sel) (packets fc)
              0 budget ctx pFrame W)
    as (ex & W2 & e2 & nums & k & Hloop & Hsum & Hk & Hk1 & Hk2 & Hk3 & Hnum); [lia|].
  eexists 0, _, _. split; [|split; [|by left]].
  - unfold run_packets.
    eapply runs_bind; [exact Hloop|]. do 5 (eapply runs_bind; [apply runs_emit|]).
    apply runs_ret.
  - exists nums, (take k (videos (video_stream_index sel) (packets fc))),
      (if decide (exit_response ex < 0)%Z then 1 else 0)%nat.
    split_and!.
    + apply summary_app_r; [done|]. by split.
    + rewrite length_take. lia.
    + intros HC. destruct (Hnum HC) as [Hn _]. rewrite Hn at 1. f_equal.
      pose proof (counts_open X HC ctx1 (pCodec sel)) as H0. rewrite Hopen2 in H0.
      simpl in H0. lia.
    + intros fc' Hfc' vp. rewrite Hopen in Hfc'. injection Hfc' as <-.
      subst vp. rewrite <- Hvsi. exists k. split; [done|]. split; [done|].
      intros Herr _. apply Hk3. by destruct (decide (exit_response ex < 0)).
Qed.

Lemma main_with_runs budget argc argv1 W :
  ∃ code W' evs,
    runs (main_with X budget fuel argc argv1) W code W' evs ∧
    main_post X budget argv1 code evs ∧ (code = 0 ∨ code = -1).
Proof.
  unfold main_with.
  destruct (decide (argc < 2)); [early_exit|].
  log_step.
  destruct (avformat_alloc_context X); cbn [negb]; [|early_exit].
  log_step.
  destruct (avformat_open_input X argv1) as [fc|] eqn:Hopen; [|early_exit].
  do 2 log_step.
  destruct (decide (avformat_find_stream_info X fc < 0)); [early_exit|].
  match goal with |- ∃ _ _ _, runs _ ?W0 _ _ _ ∧ _ =>
    destruct (stream_loop_runs X (streams fc) 0 (mkSel (-1) None None) W0)
      as (sel & W1 & e1 & Hsel_run & Hlog1 & Hh1 & Hf1 & Hsel); [lia|]
  end.
  cbn [video_stream_index] in Hsel. rewrite decide_True in Hsel by done.
  assert (video_stream_index sel = selected_index X (streams fc)) as Hvsi.
  { unfold selected_index. rewrite Hsel.
    destruct (list_find (eligible X) (streams fc)) as [[j s]|]; simpl; [lia|done]. }
  eapply runs_bind_post; [exact Hsel_run|done|].
  destruct (decide (video_stream_index sel = -1)); [early_exit|].
  destruct (avcodec_alloc_context3 X (pCodec sel)) as [ctx|]; [|early_exit].
  destruct (avcodec_parameters_to_context X ctx (pCodecParameters sel)) as [r1 ctx1].
  destruct (decide (r1 < 0)); [early_exit|].
  destruct (avcodec_open2 X ctx1 (pCodec sel)) as [r2 ctx2] eqn:Hopen2.
  destruct (decide (r2 < 0)); [early_exit|].
  eapply runs_bind_post.
  { unfold runs, frame_alloc. rewrite (benign_frame X fuel HX). split; [done|].
    by rewrite app_nil_r. }
  { constructor. }
  destruct (av_packet_alloc X); cbn [negb]; [|early_exit].
  by eapply run_packets_runs.
Qed.

End Main.

(** ** File names *)

Lemma list_ascii_app s1 s2 :
  String.list_ascii_of_string (s1 +:+ s2)
  = String.list_ascii_of_string s1 ++ String.list_ascii_of_string s2.
Proof. induction s1 as [|a s1 IH]; simpl; [done|]. by rewrite IH. Qed.

Lemma list_ascii_length s :
  length (String.list_ascii_of_string s) = String.length s.
Proof. induction s as [|a s IH]; simpl; [done|]. by rewrite IH. Qed.

Lemma ends_with_app pre suffix : ends_with suffix (pre +:+ suffix) = true.
Proof.
  unfold ends_with. apply bool_decide_eq_true_2. rewrite list_ascii_app.
  by apply suffix_app_r.
Qed.

Lemma ends_with_other pre s1 s2 :
  String.length s1 = String.length s2 → s1 ≠ s2 → ends_with s1 (pre +:+ s2) = false.
Proof.
  intros Hlen Hne. unfold ends_with. apply bool_decide_eq_false_2.
  rewrite list_ascii_app. intros [k Hk].
  apply app_inj_2 in Hk as [_ Hk].
  - apply Hne. rewrite <- (String.string_of_list_ascii_of_string s1),
      <- (String.string_of_list_ascii_of_string s2). by rewrite Hk.
  - by rewrite !list_ascii_length.
Qed.

Lemma gray_name_shape n : gray_filename n = ("frame" +:+ "-" +:+ fmt_d n) +:+ ".pgm".
Proof.
  unfold gray_filename. generalize (fmt_d n). intros s. done.
Qed.

Lemma rgb_name_shape n : rgb_filename n = ("frame" +:+ "-" +:+ fmt_d n) +:+ ".ppm".
Proof.
  unfold rgb_filename. generalize (fmt_d n). intros s. done.
Qed.

Lemma names_with_two_names nums :
  names_with ".pgm" (flat_map two_names nums) = length nums ∧
  names_with ".ppm" (flat_map two_names nums) = length nums.
Proof.
  unfold names_with. induction nums as [|n nums [IH1 IH2]]; [done|].
  cbn [flat_map two_names app List.filter].
  rewrite gray_name_shape, rgb_name_shape, !ends_with_app.
  rewrite !ends_with_other by done. simpl. by rewrite IH1, IH2.
Qed.

Lemma gray_filename_inj n m : gray_filename n = gray_filename m → n = m.
Proof.
  unfold gray_filename, fmt_d. intros H. do 2 apply (inj (String.app _)) in H.
  assert (String.list_ascii_of_string (pretty n +:+ ".pgm")
          = String.list_ascii_of_string (pretty m +:+ ".pgm")) as Hl by (by rewrite H).
  rewrite !list_ascii_app in Hl. apply app_inj_2 in Hl as [Hl _]; [|done].
  apply (inj pretty).
  rewrite <- (String.string_of_list_ascii_of_string (pretty n)),
    <- (String.string_of_list_ascii_of_string (pretty m)). by rewrite Hl.
Qed.

Lemma rgb_filename_inj n m : rgb_filename n = rgb_filename m → n = m.
Proof.
  unfold rgb_filename, fmt_d. intros H. do 2 apply (inj (String.app _)) in H.
  assert (String.list_ascii_of_string (pretty n +:+ ".ppm")
          = String.list_ascii_of_string (pretty m +:+ ".ppm")) as Hl by (by rewrite H).
  rewrite !list_ascii_app in Hl. apply app_inj_2 in Hl as [Hl _]; [|done].
  apply (inj pretty).
  rewrite <- (String.string_of_list_ascii_of_string (pretty n)),
    <- (String.string_of_list_ascii_of_string (pretty m)). by rewrite Hl.
Qed.

Lemma gray_rgb_differ n m : gray_filename n ≠ rgb_filename m.
Proof.
  intros H.
  assert (ends_with ".pgm" (gray_filename n) = ends_with ".pgm" (rgb_filename m)) as He
    by (by rewrite H).
  rewrite gray_name_shape, rgb_name_shape, ends_with_app in He.
  rewrite ends_with_other in He by done. done.
Qed.

Lemma flat_map_bind {A B} (f : A → list B) l : flat_map f l = l ≫= f.
Proof. induction l as [|x l IH]; simpl; [done|]. by rewrite IH. Qed.

(** Frames with different numbers never share a file. *)
Lemma two_names_NoDup nums : NoDup nums → NoDup (flat_map two_names nums).
Proof.
  intros Hnd. rewrite flat_map_bind. apply NoDup_bind; [| |done].
  - intros n m name _ _ Hn Hm. unfold two_names in *.
    apply elem_of_cons in Hn as [->|Hn]; apply elem_of_cons in Hm as [Hm|Hm].
    + by apply gray_filename_inj.
    + apply list_elem_of_singleton in Hm. by apply gray_rgb_differ in Hm.
    + apply list_elem_of_singleton in Hn. subst. symmetry in Hm.
      by apply gray_rgb_differ in Hm.
    + apply list_elem_of_singleton in Hn, Hm. subst. by apply rgb_filename_inj.
  - intros n _. unfold two_names. apply NoDup_cons. split; [|apply NoDup_singleton].
    intros Hin. apply list_elem_of_singleton in Hin. by apply gray_rgb_differ in Hin.
Qed.

(** ** The toy library is benign and counts frames *)

Lemma toy_yield_inv c h r fr c' h' :
  Toy.receive c h = (r, fr, c', h') → ¬ (r = -11 ∨ r = -541478725) ∧ ¬ r < 0 →
  ∃ n, Toy.ready c = S n ∧ (n < 8)%nat ∧ fr = Toy.frame ∧
       c' = Toy.mkCtx (Toy.counter c + 1) n false ∧ h' = <[0%nat := Toy.picture]> h.
Proof.
  unfold Toy.receive. intros H [Hblk Hneg].
  destruct (Toy.broken c).
  { injection H as <- _ _ _. exfalso. apply Hneg. done. }
  destruct (Toy.ready c) as [|n].
  - injection H as <- _ _ _. exfalso. apply Hblk. by left.
  - destruct (decide (n < 8)%nat).
    + injection H as _ <- <- <-. by exists n.
    + injection H as <- _ _ _. exfalso. apply Hblk. by left.
Qed.

Lemma toy_benign ss pkts room :
  benign (Toy.lib ss pkts (λ _, true) room) 9.
Proof.
  split.
  - done.
  - done.
  - done.
  - intros h w hh Hw Hh. eexists _, _. split; [reflexivity|].
    split; [lia|]. simpl. rewrite length_replicate. intros i Hi. nia.
  - intros d h r fr d' h' Hrf Hy.
    destruct (toy_yield_inv _ _ _ _ _ _ Hrf Hy) as (n & _ & _ & -> & _ & ->).
    split; [done|]. split; [done|].
    intros i Hi. change (0 ≤ i < 2) in Hi. unfold load.
    change (data_at Toy.frame 0) with (Some (0%nat, 0)).
    change (linesize_at Toy.frame 0) with 4. change (width Toy.frame) with 3.
    simpl. rewrite lookup_insert_eq.
    assert (i = 0 ∨ i = 1) as [-> | ->] by lia; by eexists.
  - exists (λ d, Nat.min (Toy.ready d) 8). split; [intros d; lia|].
    intros d h r fr d' h' Hrf Hy.
    destruct (toy_yield_inv _ _ _ _ _ _ Hrf Hy) as (n & Hn & Hlt & _ & -> & _).
    simpl. rewrite Hn. lia.
Qed.

(** ** What a run emits, however it ends *)

Section Emits.

Context (P : event → Prop).

Lemma emits_ret {A} (a : A) : emits P (ret a).
Proof. intros W. exists []. by rewrite app_nil_r. Qed.

Lemma emits_undefined {A} u : emits P (@undefined A u).
Proof. intros W. exists []. by rewrite app_nil_r. Qed.

Lemma emits_out_of_fuel {A} : emits P (@out_of_fuel A).
Proof. intros W. exists []. by rewrite app_nil_r. Qed.

Lemma emits_emit e : P e → emits P (emit e).
Proof. intros He W. exists [e]. split; [done|]. by constructor. Qed.

Lemma emits_bind {A B} (c : M A) (k : A → M B) :
  emits P c → (∀ a, emits P (k a)) → emits P (x <- c ;; k x).
Proof.
  intros Hc Hk W. unfold bind. destruct (Hc W) as (evs & Ht & Hev).
  destruct (c W) as [[a|u|] W1]; simpl in *; [|by exists evs..].
  destruct (Hk a W1) as (evs' & Ht' & Hev').
  exists (evs ++ evs'). split; [|by apply Forall_app].
  by rewrite Ht', Ht, app_assoc.
Qed.

Lemma emits_when b c : emits P c → emits P (when b c).
Proof. intros Hc. destruct b; [done|apply emits_ret]. Qed.

Lemma emits_for_loop n i (body : Z → M unit) :
  (∀ i, emits P (body i)) → emits P (for_loop n i body).
Proof.
  intros Hb. revert i. induction n as [|n IH]; intros i; simpl.
  - apply emits_ret.
  - apply emits_bind; [apply Hb|]. intros _. apply IH.
Qed.

(** A step that makes at most one call. *)
Lemma emits_step {A} (c : M A) :
  (∀ W, trace (c W).2 = trace W ∨ ∃ e, P e ∧ trace (c W).2 = trace W ++ [e]) →
  emits P c.
Proof.
  intros Hc W. destruct (Hc W) as [Ht|(e & He & Ht)].
  - exists []. by rewrite app_nil_r.
  - exists [e]. split; [done|]. by constructor.
Qed.

End Emits.

Section BeforeRelease.

Context {D : Type} (X : Extern D).

Abbreviation ok := (emits before_release).

Ltac one_call := apply emits_step; intros W.
Ltac called := right; eexists; (split; [|reflexivity]); done.

Lemma ok_log s : s ≠ releasing → ok (logging s).
Proof. intros Hs. by apply emits_emit. Qed.

Lemma ok_fopen name : ok (fopen X name).
Proof.
  one_call. unfold fopen. destruct (fopen_ok X name); called.
Qed.

Lemma ok_fprintf f s : ok (fprintf X f s).
Proof.
  unfold fprintf. apply emits_bind; [by apply emits_emit; destruct f|]. intros _.
  destruct f as [name|]; [|apply emits_undefined]. one_call. by left.
Qed.

Lemma ok_fwrite p n f : ok (fwrite X p n f).
Proof.
  one_call. unfold fwrite, put_bytes. destruct f as [name|]; simpl.
  - destruct (load (heap W) p n); simpl; [called|by left].
  - called.
Qed.

Lemma ok_fclose f : ok (fclose f).
Proof.
  unfold fclose. apply emits_bind; [by apply emits_emit; destruct f|]. intros _.
  destruct f; [apply emits_ret|apply emits_undefined].
Qed.

Lemma ok_save_gray_frame buf wrap xsize ysize n :
  ok (save_gray_frame X buf wrap xsize ysize n).
Proof.
  unfold save_gray_frame. apply emits_bind; [apply ok_fopen|]. intros f.
  apply emits_bind; [apply ok_fprintf|]. intros _.
  apply emits_bind; [|intros _; apply ok_fclose].
  apply emits_for_loop. intros i. apply emits_bind; [apply ok_fwrite|].
  intros _. apply emits_ret.
Qed.

Lemma ok_allocateFrame w h : ok (allocateFrame X w h).
Proof.
  unfold allocateFrame. apply emits_bind; [one_call; by left|]. intros fr.
  apply emits_bind; [apply emits_when; by apply emits_emit|]. intros _.
  destruct fr as [fr|]; [|apply emits_undefined].
  apply emits_bind.
  { one_call. left. unfold image_alloc. by destruct (av_image_alloc _ _ _ _ _ _) as [[]|]. }
  intros [r fr']. apply emits_bind; [apply emits_when; by apply emits_emit|].
  intros _. apply emits_ret.
Qed.

Lemma ok_save_rgb_frame fr n : ok (save_rgb_frame X fr n).
Proof.
  unfold save_rgb_frame. apply emits_bind; [apply ok_fopen|]. intros f.
  apply emits_bind; [apply ok_fprintf|]. intros _.
  apply emits_bind; [apply ok_allocateFrame|]. intros frame_rgb.
  apply emits_bind; [apply emits_ret|]. intros c.
  apply emits_bind.
  { destruct c as [c|]; [|apply emits_undefined]. one_call. unfold scale.
    destruct (store _ _ _); called. }
  intros _. apply emits_bind; [by apply emits_emit|]. intros _.
  apply emits_bind; [|intros _; apply ok_fclose].
  apply emits_for_loop. intros i. apply emits_bind; [apply ok_fwrite|].
  intros _. apply emits_ret.
Qed.

Lemma ok_receive_loop fuel : ∀ ctx pFrame, ok (receive_loop X fuel ctx pFrame).
Proof.
  induction fuel as [|fuel IH]; intros ctx pFrame; simpl; [apply emits_out_of_fuel|].
  apply emits_bind.
  { one_call. unfold receive_frame.
    destruct (avcodec_receive_frame X ctx (heap W)) as [[[r fr] c] h]. called. }
  intros [[r fr] c]. destruct (decide _); [apply emits_ret|].
  destruct (decide _).
  { apply emits_bind; [by apply ok_log|]. intros _. apply emits_ret. }
  apply emits_bind; [by apply ok_log|]. intros _.
  apply emits_bind; [apply emits_when; by apply ok_log|]. intros _.
  apply emits_bind; [apply ok_save_gray_frame|]. intros _.
  apply emits_bind; [apply ok_save_rgb_frame|]. intros _. apply IH.
Qed.

Lemma ok_decode_packet fuel pkt ctx pFrame : ok (decode_packet X fuel pkt ctx pFrame).
Proof.
  unfold decode_packet. apply emits_bind.
  { one_call. unfold send_packet.
    destruct (avcodec_send_packet X ctx (Some pkt)) as [r c]. called. }
  intros [r c]. destruct (decide _); [|apply ok_receive_loop].
  apply emits_bind; [by apply ok_log|]. intros _. apply emits_ret.
Qed.

Lemma ok_packet_loop fuel vsi pkts :
  ∀ resp budget ctx pFrame, ok (packet_loop X fuel vsi pkts resp budget ctx pFrame).
Proof.
  induction pkts as [|pkt rest IH]; intros resp budget ctx pFrame; simpl.
  - apply emits_bind; [by apply emits_emit|]. intros _. apply emits_ret.
  - apply emits_bind; [by apply emits_emit|]. intros _.
    destruct (decide _).
    + apply emits_bind; [by apply ok_log|]. intros _.
      apply emits_bind; [apply ok_decode_packet|]. intros [[r c] fr].
      destruct (decide _); [apply emits_ret|].
      destruct (decide _); [apply emits_ret|].
      apply emits_bind; [by apply emits_emit|]. intros _. apply IH.
    + apply emits_bind; [by apply emits_emit|]. intros _. apply IH.
Qed.

Lemma ok_stream_loop ss : ∀ i sel, ok (stream_loop X i ss sel).
Proof.
  induction ss as [|s rest IH]; intros i sel; simpl; [apply emits_ret|].
  do 5 (apply emits_bind; [by apply ok_log|]; intros _).
  destruct (avcodec_find_decoder X _).
  - apply emits_bind.
    { destruct (decide _).
      - apply emits_bind; [by apply ok_log|]. intros _. apply emits_ret.
      - destruct (decide _); [|apply emits_ret].
        apply emits_bind; [by apply ok_log|]. intros _. apply emits_ret. }
    intros sel'. apply emits_bind; [by apply ok_log|]. intros _. apply IH.
  - apply emits_bind; [by apply ok_log|]. intros _. apply IH.
Qed.

(** *** The release comes last *)

Lemma releases_last_emits {A} (c : M A) : ok c → releases_last c.
Proof. intros Hc W. destruct (Hc W) as (evs & Ht & Hev). exists evs. by split; [|left]. Qed.

Lemma releases_last_bind {A B} (c : M A) (k : A → M B) :
  ok c → (∀ a, releases_last (k a)) → releases_last (x <- c ;; k x).
Proof.
  intros Hc Hk W. unfold bind. destruct (Hc W) as (evs & Ht & Hev).
  destruct (c W) as [[a|u|] W1]; simpl in *; [|exists evs; by split; [|left]..].
  destruct (Hk a W1) as (body & Hbody & Hshape).
  exists (evs ++ body). split; [by apply Forall_app|].
  rewrite Ht in Hshape. rewrite <- !app_assoc in *. done.
Qed.

Lemma releases_last_run_packets fuel budget sel fc ctx pFrame :
  releases_last (run_packets X fuel budget sel fc ctx pFrame).
Proof.
  intros W. unfold run_packets, bind, logging, emit, ret.
  destruct (ok_packet_loop fuel (video_stream_index sel) (packets fc) 0 budget ctx pFrame W)
    as (body & Ht & Hbody).
  destruct (packet_loop _ _ _ _ _ _ _ _ W) as [[ex|u|] W1]; simpl in *;
    [|exists body; by split; [|left]..].
  exists body. split; [done|]. right. rewrite Ht, <- !app_assoc. done.
Qed.

Lemma releases_last_main budget fuel argc argv1 :
  releases_last (main_with X budget fuel argc argv1).
Proof.
  assert (∀ s, s ≠ releasing → releases_last (logging s ;; ret (-1))) as Hexit.
  { intros s Hs. apply releases_last_emits. apply emits_bind; [by apply ok_log|].
    intros _. apply emits_ret. }
  unfold main_with.
  destruct (decide _).
  { apply releases_last_emits. apply emits_bind; [by apply emits_emit|].
    intros _. apply emits_ret. }
  apply releases_last_bind; [by apply ok_log|]. intros _.
  destruct (avformat_alloc_context X); cbn [negb]; [|by apply Hexit].
  apply releases_last_bind; [by apply ok_log|]. intros _.
  destruct (avformat_open_input X argv1) as [fc|]; [|by apply Hexit].
  do 2 (apply releases_last_bind; [by apply ok_log|]; intros _).
  destruct (decide _); [by apply Hexit|].
  apply releases_last_bind; [apply ok_stream_loop|]. intros sel.
  destruct (decide _); [by apply Hexit|].
  destruct (avcodec_alloc_context3 X (pCodec sel)) as [ctx|]; [|by apply Hexit].
  destruct (avcodec_parameters_to_context X ctx (pCodecParameters sel)) as [r1 ctx1].
  destruct (decide _); [by apply Hexit|].
  destruct (avcodec_open2 X ctx1 (pCodec sel)) as [r2 ctx2].
  destruct (decide _); [by apply Hexit|].
  apply releases_last_bind.
  { apply emits_step. intros W. by left. }
  intros [pFrame|]; [|by apply Hexit].
  destruct (av_packet_alloc X); cbn [negb]; [|by apply Hexit].
  apply releases_last_run_packets.
Qed.

(** Where a list without [x] is followed by [x], that is the first [x]. *)
Lemma split_at_first {A} (x : A) l1 l2 k1 k2 :
  x ∉ l1 → x ∉ l2 → l1 ++ x :: l2 = k1 ++ x :: k2 → k2 = l2.
Proof.
  revert k1. induction l1 as [|a l1 IH]; intros k1 H1 H2 Heq.
  - destruct k1 as [|b k1]; simpl in Heq.
    + by injection Heq as <-.
    + injection Heq as <- Heq. exfalso. apply H2. rewrite Heq.
      apply elem_of_app. right. by left.
  - destruct k1 as [|b k1]; simpl in Heq.
    + injection Heq as -> _. exfalso. apply H1. by left.
    + injection Heq as _ Heq. apply (IH k1); [|done|done].
      intros Hin. apply H1. by right.
Qed.


End BeforeRelease.

Section NoVideo.

Context {D : Type} (X : Extern D).

Ltac exit_with_logs :=
  eexists _, _; split;
  [repeat first [apply runs_ret | eapply runs_bind; [apply runs_emit|]]
  |split; [done|by repeat constructor]].

(** A source without an eligible stream: [main] prints, writes no file and
    returns [-1]. *)
Lemma main_without_video budget fuel argc argv1 W :
  (∀ fc, avformat_open_input X argv1 = Some fc →
         list_find (eligible X) (streams fc) = None) →
  ∃ W' evs,
    runs (main_with X budget fuel argc argv1) W (-1) W' evs ∧
    files W' = files W ∧ Forall is_log evs.
Proof.
  intros Hnone. unfold main_with.
  destruct (decide (argc < 2)); [exit_with_logs|].
  destruct (avformat_alloc_context X); cbn [negb]; [|exit_with_logs].
  destruct (avformat_open_input X argv1) as [fc|] eqn:Hopen; [|exit_with_logs].
  destruct (decide (avformat_find_stream_info X fc < 0)); [exit_with_logs|].
  destruct (stream_loop_runs X (streams fc) 0 (mkSel (-1) None None)
              (mkWorld (heap W) (files W)
                 ((((trace W
                     ++ [EvLog "initializing all the containers, codecs and protocols."])
                    ++ [EvLog "opening the input file (%s) and loading format (container) header"])
                   ++ [EvLog "format %s, duration %lld us, bit_rate %lld"])
                  ++ [EvLog "finding stream info from format"])))
    as (sel & W1 & e1 & Hsel_run & Hlog1 & Hh1 & Hf1 & Hsel); [lia|].
  cbn [video_stream_index] in Hsel. rewrite decide_True in Hsel by done.
  rewrite (Hnone fc eq_refl) in Hsel.
  eexists _, _. split; [|split].
  - do 4 (eapply runs_bind; [apply runs_emit|]).
    eapply runs_bind; [exact Hsel_run|]. cbv beta. rewrite Hsel. cbn [video_stream_index].
    rewrite decide_True by done.
    eapply runs_bind; [apply runs_emit|]. apply runs_ret.
  - done.
  - repeat first [done | apply Forall_app; split | by repeat constructor].
Qed.

(** C5.  The stream loop only logs, skips every stream whose codec does not
    resolve, and leaves in [video_stream_index] the index of the first
    stream, in container order, that is a video stream with a resolvable
    codec, with its codec and parameters, or [-1] when there is none; and
    when there is none, [main] returns [-1] (a nonzero exit status) having
    written no file. *)
Theorem first_eligible_stream_selected fuel argc argv1 W :
  (∀ ss W0, ∃ sel W1 evs,
      runs (stream_loop X 0 ss (mkSel (-1) None None)) W0 sel W1 evs ∧
      Forall is_log evs ∧ files W1 = files W0 ∧
      match list_find (eligible X) ss with
      | Some (j, s) =>
          video_stream_index sel = Z.of_nat j ∧
          pCodec sel = avcodec_find_decoder X (codec_id (codecpar s)) ∧
          pCodecParameters sel = Some (codecpar s)
      | None => video_stream_index sel = -1
      end) ∧
  ((∀ fc, avformat_open_input X argv1 = Some fc →
          list_find (eligible X) (streams fc) = None) →
   ∃ W' evs,
     runs (main X fuel argc argv1) W (-1) W' evs ∧
     files W' = files W ∧ opened evs = []).
Proof.
  split.
  - intros ss W0.
    destruct (stream_loop_runs X ss 0 (mkSel (-1) None None) W0)
      as (sel & W1 & evs & Hrun & Hlog & _ & Hf & Hsel); [lia|].
    exists sel, W1, evs. split_and!; try done.
    cbn [video_stream_index] in Hsel. rewrite decide_True in Hsel by done.
    destruct (list_find (eligible X) ss) as [[j s]|]; subst sel; simpl; [|done].
    split; [lia|done].
  - intros Hnone.
    destruct (main_without_video 5 fuel argc argv1 W Hnone) as (W' & evs & Hrun & Hf & Hlog).
    exists W', evs. split; [done|]. split; [done|].
    by destruct (summary_logs X evs Hlog).
Qed.

End NoVideo.

(** ** Concrete runs of the pipeline *)

(** C1 fails on the code.  Three packets that complete two pictures each:
    six files of each kind for a budget of five.  Seven packets of which the
    first completes no picture: four files of each kind, though six frames
    can be decoded. *)
Lemma file_count_is_not_min_budget_frames :
  (decodable six_in_three = 6%nat ∧
   gray_files six_in_three = 6%nat ∧ colour_files six_in_three = 6%nat ∧
   gray_files six_in_three ≠ Nat.min 5 (decodable six_in_three)) ∧
  (decodable late_decoder = 6%nat ∧
   gray_files late_decoder = 4%nat ∧ colour_files late_decoder = 4%nat ∧
   gray_files late_decoder ≠ Nat.min 5 (decodable late_decoder)).
Proof. vm_compute. repeat split; discriminate. Qed.

(** C6 on the code.  The decoder rejects the first packet, or accepts it
    and fails at the pull: either way the error comes back to [main], which
    reads no further packet, releases the resources and returns 0. *)
Theorem decode_error_exit_status :
  let rejected := Toy.good [Toy.video xff; Toy.video x01] in
  let damaged := Toy.good [Toy.video xfe; Toy.video x01] in
  let reads := count (λ e, match e with EvReadFrame _ => true | _ => false end) in
  let r1 := main rejected 9 2 "in.mp4" Toy.W0 in
  let r2 := main damaged 9 2 "in.mp4" Toy.W0 in
  (r1.1 = Ret 0 ∧
   sent (trace r1.2) = [Some (Toy.video xff)] ∧
   count (is_decode_error rejected) (trace r1.2) = 1%nat ∧
   reads (trace r1.2) = 1%nat ∧
   EvSendPacket (Some (Toy.video xff)) Toy.AVERROR_INVALIDDATA ∈ trace r1.2) ∧
  (r2.1 = Ret 0 ∧
   sent (trace r2.2) = [Some (Toy.video xfe)] ∧
   count (is_decode_error damaged) (trace r2.2) = 1%nat ∧
   reads (trace r2.2) = 1%nat ∧
   EvReceiveFrame Toy.AVERROR_INVALIDDATA ∈ trace r2.2).
Proof.
  vm_compute. split; (split_and!; [done..|]); apply list_elem_of_In; simpl; tauto.
Qed.

Lemma first_eligible_stream_selected_witness :
  ∃ W' evs,
    runs (main (Toy.lib [Toy.audio_stream] [Toy.audio] (λ _, true) (λ _ _ n, n))
            9 2 "in.mp4") Toy.W0 (-1) W' evs ∧
    files W' = ∅.
Proof.
  destruct (first_eligible_stream_selected
              (Toy.lib [Toy.audio_stream] [Toy.audio] (λ _, true) (λ _ _ n, n))
              9 2 "in.mp4" Toy.W0) as [_ Hmain].
  destruct Hmain as (W' & evs & Hrun & Hf & _).
  - intros fc Hfc. injection Hfc as <-. reflexivity.
  - exists W', evs. split; [exact Hrun|exact Hf].
Defined.

(** * Further properties of the program *)

(** ** Which files a run can change *)

Lemma bind_ret_inv {A B} (c : M A) (k : A → M B) W b W' :
  (x <- c ;; k x) W = (Ret b, W') →
  ∃ a W1, c W = (Ret a, W1) ∧ k a W1 = (Ret b, W').
Proof.
  unfold bind. destruct (c W) as [[a|u|] W1]; intros H; [|done..].
  by exists a, W1.
Qed.

Section WritesWithin.

Context {D : Type} (X : Extern D) (P : string → Prop).

Lemma ww_ret {A} (a : A) : writes_within P (ret a).
Proof. by intros W k _. Qed.

Lemma ww_undefined {A} u : writes_within P (@undefined A u).
Proof. by intros W k _. Qed.

Lemma ww_out_of_fuel {A} : writes_within P (@out_of_fuel A).
Proof. by intros W k _. Qed.

Lemma ww_emit e : writes_within P (emit e).
Proof. by intros W k _. Qed.

Lemma ww_bind {A B} (c : M A) (k : A → M B) :
  writes_within P c →
  (∀ W a W1, c W = (Ret a, W1) → writes_within P (k a)) →
  writes_within P (x <- c ;; k x).
Proof.
  intros Hc Hk W n Hn. unfold bind. specialize (Hc W n Hn).
  destruct (c W) as [[a|u|] W1] eqn:E; simpl in *; [|done..].
  rewrite <- Hc. by eapply Hk.
Qed.

Lemma ww_seq {A B} (c : M A) (k : A → M B) :
  writes_within P c → (∀ a, writes_within P (k a)) →
  writes_within P (x <- c ;; k x).
Proof. intros Hc Hk. apply ww_bind; [done|]. intros _ a _ _. apply Hk. Qed.

Lemma ww_when b c : writes_within P c → writes_within P (when b c).
Proof. intros Hc. destruct b; [done|apply ww_ret]. Qed.

Lemma ww_for_loop n i (body : Z → M unit) :
  (∀ i, writes_within P (body i)) → writes_within P (for_loop n i body).
Proof.
  intros Hb. revert i. induction n as [|n IH]; intros i; simpl.
  - apply ww_ret.
  - apply ww_seq; [apply Hb|]. intros _. apply IH.
Qed.

Lemma ww_fopen name : P name → writes_within P (fopen X name).
Proof.
  intros Hname W k Hk. unfold fopen. destruct (fopen_ok X name); simpl; [|done].
  apply lookup_insert_ne. by intros ->.
Qed.

Lemma fopen_handle name W f W1 :
  fopen X name W = (Ret f, W1) → f = Some name ∨ f = None.
Proof.
  unfold fopen. destruct (fopen_ok X name); intros H; injection H as <- _; auto.
Qed.

Lemma ww_fprintf f s : (∀ name, f = Some name → P name) → writes_within P (fprintf X f s).
Proof.
  intros Hf W k Hk. unfold fprintf, bind, emit, put_bytes.
  destruct f as [name|]; simpl; [|done].
  apply lookup_insert_ne. intros ->. by apply Hk, Hf.
Qed.

Lemma ww_fwrite p n f : (∀ name, f = Some name → P name) → writes_within P (fwrite X p n f).
Proof.
  intros Hf W k Hk. unfold fwrite, put_bytes.
  destruct f as [name|]; simpl; [|done].
  destruct (load (heap W) p n); simpl; [|done].
  apply lookup_insert_ne. intros ->. by apply Hk, Hf.
Qed.

Lemma ww_fclose f : writes_within P (fclose f).
Proof. intros W k _. unfold fclose, bind, emit. by destruct f. Qed.

Lemma ww_rows f p stride n count i :
  (∀ name, f = Some name → P name) →
  writes_within P (for_loop count i (λ i, fwrite X (ptr_add p (i * stride)) n f ;; ret tt)).
Proof.
  intros Hf. apply ww_for_loop. intros j.
  apply ww_seq; [by apply ww_fwrite|]. intros _. apply ww_ret.
Qed.

Lemma ww_save_gray_frame buf wrap xsize ysize n :
  P (gray_filename n) → writes_within P (save_gray_frame X buf wrap xsize ysize n).
Proof.
  intros Hn. unfold save_gray_frame.
  apply ww_bind; [by apply ww_fopen|]. intros W f W1 Hf.
  assert (∀ name, f = Some name → P name) as Hname.
  { intros name ->. by apply fopen_handle in Hf as [[= ->]|?]. }
  apply ww_seq; [by apply ww_fprintf|]. intros _.
  apply ww_seq; [by apply ww_rows|]. intros _. apply ww_fclose.
Qed.

Lemma ww_allocateFrame w h : writes_within P (allocateFrame X w h).
Proof.
  unfold allocateFrame. apply ww_seq; [by intros W k _|]. intros fr.
  apply ww_seq; [apply ww_when, ww_emit|]. intros _.
  destruct fr as [fr|]; [|apply ww_undefined].
  apply ww_seq.
  { intros W k _. unfold image_alloc. by destruct (av_image_alloc _ _ _ _ _ _) as [[]|]. }
  intros [r fr']. apply ww_seq; [apply ww_when, ww_emit|]. intros _. apply ww_ret.
Qed.

Lemma ww_scale c src ss y h dst ds : writes_within P (scale X c src ss y h dst ds).
Proof.
  intros W k _. unfold scale. destruct c as [c|]; [|done].
  by destruct (store _ _ _).
Qed.

Lemma ww_save_rgb_frame fr n :
  P (rgb_filename n) → writes_within P (save_rgb_frame X fr n).
Proof.
  intros Hn. unfold save_rgb_frame.
  apply ww_bind; [by apply ww_fopen|]. intros W f W1 Hf.
  assert (∀ name, f = Some name → P name) as Hname.
  { intros name ->. by apply fopen_handle in Hf as [[= ->]|?]. }
  apply ww_seq; [by apply ww_fprintf|]. intros _.
  apply ww_seq; [apply ww_allocateFrame|]. intros frame_rgb.
  apply ww_seq; [apply ww_ret|]. intros c.
  apply ww_seq; [apply ww_scale|]. intros _.
  apply ww_seq; [apply ww_emit|]. intros _.
  apply ww_seq; [by apply ww_rows|]. intros _. apply ww_fclose.
Qed.

Hypothesis frames_in : ∀ k, frame_file k → P k.

Lemma ww_receive_loop fuel : ∀ ctx pFrame, writes_within P (receive_loop X fuel ctx pFrame).
Proof.
  induction fuel as [|fuel IH]; intros ctx pFrame; simpl; [apply ww_out_of_fuel|].
  apply ww_seq.
  { intros W k _. unfold receive_frame.
    by destruct (avcodec_receive_frame X ctx (heap W)) as [[[r fr] c] h]. }
  intros [[r fr] c]. destruct (decide _); [apply ww_ret|].
  destruct (decide _).
  { apply ww_seq; [apply ww_emit|]. intros _. apply ww_ret. }
  apply ww_seq; [apply ww_emit|]. intros _.
  apply ww_seq; [apply ww_when, ww_emit|]. intros _.
  apply ww_seq.
  { apply ww_save_gray_frame, frames_in. eexists. by left. }
  intros _. apply ww_seq; [|intros _; apply IH].
  apply ww_save_rgb_frame, frames_in. eexists. by right.
Qed.

Lemma ww_decode_packet fuel pkt ctx pFrame :
  writes_within P (decode_packet X fuel pkt ctx pFrame).
Proof.
  unfold decode_packet. apply ww_seq.
  { intros W k _. unfold send_packet.
    by destruct (avcodec_send_packet X ctx (Some pkt)) as [r c]. }
  intros [r c]. destruct (decide _); [|apply ww_receive_loop].
  apply ww_seq; [apply ww_emit|]. intros _. apply ww_ret.
Qed.

Lemma ww_packet_loop fuel vsi pkts :
  ∀ resp budget ctx pFrame,
    writes_within P (packet_loop X fuel vsi pkts resp budget ctx pFrame).
Proof.
  induction pkts as [|pkt rest IH]; intros resp budget ctx pFrame; simpl.
  - apply ww_seq; [apply ww_emit|]. intros _. apply ww_ret.
  - apply ww_seq; [apply ww_emit|]. intros _.
    destruct (decide _).
    + apply ww_seq; [apply ww_emit|]. intros _.
      apply ww_seq; [apply ww_decode_packet|]. intros [[r c] fr].
      destruct (decide _); [apply ww_ret|].
      destruct (decide _); [apply ww_ret|].
      apply ww_seq; [apply ww_emit|]. intros _. apply IH.
    + apply ww_seq; [apply ww_emit|]. intros _. apply IH.
Qed.

Lemma ww_stream_loop ss : ∀ i sel, writes_within P (stream_loop X i ss sel).
Proof.
  induction ss as [|s rest IH]; intros i sel; simpl; [apply ww_ret|].
  do 5 (apply ww_seq; [apply ww_emit|]; intros _).
  destruct (avcodec_find_decoder X _).
  - apply ww_seq.
    { destruct (decide _).
      - apply ww_seq; [apply ww_emit|]. intros _. apply ww_ret.
      - destruct (decide _); [|apply ww_ret].
        apply ww_seq; [apply ww_emit|]. intros _. apply ww_ret. }
    intros sel'. apply ww_seq; [apply ww_emit|]. intros _. apply IH.
  - apply ww_seq; [apply ww_emit|]. intros _. apply IH.
Qed.

Lemma ww_main_with budget fuel argc argv1 :
  writes_within P (main_with X budget fuel argc argv1).
Proof.
  assert (∀ s, writes_within P (logging s ;; ret (-1))) as Hexit.
  { intros s. apply ww_seq; [apply ww_emit|]. intros _. apply ww_ret. }
  unfold main_with.
  destruct (decide _).
  { apply ww_seq; [apply ww_emit|]. intros _. apply ww_ret. }
  apply ww_seq; [apply ww_emit|]. intros _.
  destruct (avformat_alloc_context X); cbn [negb]; [|apply Hexit].
  apply ww_seq; [apply ww_emit|]. intros _.
  destruct (avformat_open_input X argv1) as [fc|]; [|apply Hexit].
  do 2 (apply ww_seq; [apply ww_emit|]; intros _).
  destruct (decide _); [apply Hexit|].
  apply ww_seq; [apply ww_stream_loop|]. intros sel.
  destruct (decide _); [apply Hexit|].
  destruct (avcodec_alloc_context3 X (pCodec sel)) as [ctx|]; [|apply Hexit].
  destruct (avcodec_parameters_to_context X ctx (pCodecParameters sel)) as [r1 ctx1].
  destruct (decide _); [apply Hexit|].
  destruct (avcodec_open2 X ctx1 (pCodec sel)) as [r2 ctx2].
  destruct (decide _); [apply Hexit|].
  apply ww_seq; [by intros W k _|].
  intros [pFrame|]; [|apply Hexit].
  destruct (av_packet_alloc X); cbn [negb]; [|apply Hexit].
  unfold run_packets. apply ww_seq; [apply ww_packet_loop|]. intros _.
  do 5 (apply ww_seq; [apply ww_emit|]; intros _). apply ww_ret.
Qed.

End WritesWithin.

Section OwnFiles.

Context {D : Type} (X : Extern D).

Lemma quiet_save_gray_frame buf wrap xsize ysize n :
  quiet (save_gray_frame X buf wrap xsize ysize n).
Proof.
  unfold save_gray_frame. apply quiet_bind; [apply quiet_fopen|]. intros f.
  apply quiet_bind; [apply quiet_fprintf|]. intros _.
  apply quiet_bind; [|intros _; apply quiet_fclose].
  apply quiet_for_loop. intros i. apply quiet_bind; [apply quiet_fwrite|].
  intros _. apply quiet_ret.
Qed.

(** Each exporter touches its own file only, however it ends: after
    [save_gray_frame] for frame [n], every file other than [frame-n.pgm] is
    as before and memory is unchanged; after [save_rgb_frame], every file
    other than [frame-n.ppm] is as before. *)
Theorem export_touches_own_file buf wrap xsize ysize fr n W :
  (heap (save_gray_frame X buf wrap xsize ysize n W).2 = heap W ∧
   ∀ k, k ≠ gray_filename n →
     files (save_gray_frame X buf wrap xsize ysize n W).2 !! k = files W !! k) ∧
  (∀ k, k ≠ rgb_filename n →
     files (save_rgb_frame X fr n W).2 !! k = files W !! k).
Proof.
  split; [split|].
  - apply quiet_save_gray_frame.
  - intros k Hk.
    apply (ww_save_gray_frame X (λ k, k = gray_filename n)); [done|done].
  - intros k Hk.
    apply (ww_save_rgb_frame X (λ k, k = rgb_filename n)); [done|done].
Qed.

(** Whatever the library calls answer and however the run ends, [main]
    changes no file other than the frame files [frame-<n>.pgm] and
    [frame-<n>.ppm]. *)
Theorem run_writes_only_frame_files fuel argc argv1 W k :
  (∀ n, k ≠ gray_filename n ∧ k ≠ rgb_filename n) →
  files (main X fuel argc argv1 W).2 !! k = files W !! k.
Proof.
  intros Hk. apply (ww_main_with X frame_file); [done|].
  intros (n & [->| ->]); by destruct (Hk n).
Qed.

End OwnFiles.

Lemma run_writes_only_frame_files_witness :
  files (main (Toy.good six_in_three) 9 2 "in.mp4"
           (mkWorld ∅ {[ "notes.txt" := [x01] ]} [])).2 !! "notes.txt"
  = Some [x01].
Proof.
  rewrite (run_writes_only_frame_files (Toy.good six_in_three) 9 2 "in.mp4"
             (mkWorld ∅ {[ "notes.txt" := [x01] ]} []) "notes.txt").
  - reflexivity.
  - intros n. split; intros H; discriminate H.
Defined.

(** ** The exit status *)

Lemma exit_shape_prefix code W W1 W' l :
  heap W1 = heap W → files W1 = files W → trace W1 = trace W ++ l → Forall is_log l →
  exit_shape code W1 W' → exit_shape code W W'.
Proof.
  intros Hh Hf Ht Hl (evs & Ht' & Hshape). exists (l ++ evs). split.
  { by rewrite Ht', Ht, app_assoc. }
  destruct Hshape as [(-> & Hlog & Hh' & Hf')|(-> & body & ->)].
  - left. split_and!; [done|by apply Forall_app|congruence|congruence].
  - right. split; [done|]. exists (l ++ body). by rewrite app_assoc.
Qed.

Section ExitStatus.

Context {D : Type} (X : Extern D).

Lemma eis_early s : exits_in_shape (logging s ;; ret (-1)).
Proof.
  intros W code W' H. injection H as <- <-. exists [EvLog s].
  split; [done|]. left. split_and!; try done. by repeat constructor.
Qed.

Lemma eis_bind_logs {A} (c : M A) (k : A → M Z) :
  (∀ W a W1, c W = (Ret a, W1) →
     heap W1 = heap W ∧ files W1 = files W ∧
     ∃ l, trace W1 = trace W ++ l ∧ Forall is_log l) →
  (∀ a, exits_in_shape (k a)) → exits_in_shape (x <- c ;; k x).
Proof.
  intros Hc Hk W code W' H.
  apply bind_ret_inv in H as (a & W1 & Hrun & Hrest).
  destruct (Hc W a W1 Hrun) as (Hh & Hf & l & Ht & Hl).
  eapply exit_shape_prefix; [done..|]. by eapply Hk.
Qed.

Lemma eis_log s (k : M Z) : exits_in_shape k → exits_in_shape (logging s ;; k).
Proof.
  intros Hk. apply eis_bind_logs; [|done].
  intros W [] W1 [= <-]. split_and!; try done.
  exists [EvLog s]. split; [done|]. by repeat constructor.
Qed.

Lemma eis_run_packets fuel budget sel fc ctx pFrame :
  exits_in_shape (run_packets X fuel budget sel fc ctx pFrame).
Proof.
  intros W code W' H. unfold run_packets in H.
  apply bind_ret_inv in H as (ex & W1 & Hloop & Hrest).
  destruct (ok_packet_loop X fuel (video_stream_index sel) (packets fc) 0 budget ctx pFrame W)
    as (body & Ht & _).
  rewrite Hloop in Ht. simpl in Ht.
  injection Hrest as <- <-. exists (body ++ EvLog releasing :: release_calls).
  split; [|right; split; [done|by exists body]].
  simpl. rewrite Ht, <- !app_assoc. done.
Qed.

Lemma eis_main_with budget fuel argc argv1 :
  exits_in_shape (main_with X budget fuel argc argv1).
Proof.
  unfold main_with.
  destruct (decide _).
  { intros W code W' H. injection H as <- <-. eexists. split; [done|].
    left. split_and!; try done. by repeat constructor. }
  apply eis_log.
  destruct (avformat_alloc_context X); cbn [negb]; [|apply eis_early].
  apply eis_log.
  destruct (avformat_open_input X argv1) as [fc|]; [|apply eis_early].
  do 2 apply eis_log.
  destruct (decide _); [apply eis_early|].
  apply eis_bind_logs.
  { intros W sel W1 Hrun.
    destruct (stream_loop_runs X (streams fc) 0 (mkSel (-1) None None) W)
      as (sel' & W1' & evs & [Hrun' Ht] & Hlog & Hh & Hf & _); [lia|].
    rewrite Hrun in Hrun'. injection Hrun' as <- <-.
    split_and!; try done. by exists evs. }
  intros sel.
  destruct (decide _); [apply eis_early|].
  destruct (avcodec_alloc_context3 X (pCodec sel)) as [ctx|]; [|apply eis_early].
  destruct (avcodec_parameters_to_context X ctx (pCodecParameters sel)) as [r1 ctx1].
  destruct (decide _); [apply eis_early|].
  destruct (avcodec_open2 X ctx1 (pCodec sel)) as [r2 ctx2].
  destruct (decide _); [apply eis_early|].
  apply eis_bind_logs.
  { intros W a W1 [= <- <-]. split_and!; try done. exists []. by rewrite app_nil_r. }
  intros [pFrame|]; [|apply eis_early].
  destruct (av_packet_alloc X); cbn [negb]; [|apply eis_early].
  apply eis_run_packets.
Qed.

(** The exit status tells how far the run got.  In any environment, when
    [main] returns it returns [-1] or [0]: [-1] after a failed setup, having
    only printed lines, changed no file and released nothing; [0] once the
    packet loop was reached, the run ending with the line that announces the
    release and the four release calls. *)
Theorem exit_code_tells_setup fuel argc argv1 W code W' :
  main X fuel argc argv1 W = (Ret code, W') →
  ∃ evs, trace W' = trace W ++ evs ∧
    ((code = -1 ∧ Forall is_log evs ∧ files W' = files W) ∨
     (code = 0 ∧
      ∃ body, evs = body ++ [EvLog "releasing all the resources";
                             EvCloseInput; EvPacketFree; EvFrameFree; EvFreeContext])).
Proof.
  intros H. apply eis_main_with in H as (evs & Ht & Hshape).
  exists evs. split; [done|].
  destruct Hshape as [(? & ? & _ & ?)|?]; [by left|by right].
Qed.

End ExitStatus.

Lemma exit_code_tells_setup_witness :
  ∃ body,
    trace (main (Toy.good six_in_three) 9 2 "in.mp4" Toy.W0).2
    = body ++ [EvLog "releasing all the resources";
               EvCloseInput; EvPacketFree; EvFrameFree; EvFreeContext].
Proof.
  assert (main (Toy.good six_in_three) 9 2 "in.mp4" Toy.W0
          = (Ret 0, (main (Toy.good six_in_three) 9 2 "in.mp4" Toy.W0).2)) as Hrun.
  { vm_compute. reflexivity. }
  destruct (exit_code_tells_setup (Toy.good six_in_three) 9 2 "in.mp4" Toy.W0 0 _ Hrun)
    as (evs & Ht & [(Hcode & _)|(_ & body & ->)]).
  - discriminate Hcode.
  - exists body. exact Ht.
Defined.

(** ** The exporters when something is missing *)

Section ExportEdges.

Context {D : Type} (X : Extern D).

Lemma for_loop_app n m i (body : Z → M unit) W :
  for_loop (n + m) i body W
  = (for_loop n i body ;; for_loop m (i + Z.of_nat n) body) W.
Proof.
  revert i W. induction n as [|n IH]; intros i W.
  - simpl. rewrite bind_ret_l. by rewrite Z.add_0_r.
  - cbn [Nat.add for_loop]. unfold bind at 1 2 3.
    destruct (body i W) as [[[]|u|] W1]; [|done..].
    rewrite IH. unfold bind. by replace (i + 1 + Z.of_nat n) with (i + Z.of_nat (S n)) by lia.
Qed.

Lemma rows_emit_writes name p stride n count i :
  emits (row_write name)
    (for_loop count i (λ i, fwrite X (ptr_add p (i * stride)) n (Some name) ;; ret tt)).
Proof.
  apply emits_for_loop. intros j. apply emits_bind; [|intros _; apply emits_ret].
  apply emits_step. intros W. unfold fwrite, put_bytes.
  destruct (load (heap W) _ n); simpl; [|by left].
  right. eexists. by split; [|reflexivity].
Qed.

(** The rows of a returning row loop are writes, and nothing else. *)
Lemma row_loop_writes name p stride n count i W W' evs :
  for_loop count i (λ i, fwrite X (ptr_add p (i * stride)) n (Some name) ;; ret tt) W
  = (Ret tt, W') →
  trace W' = trace W ++ evs → Forall (row_write name) evs.
Proof.
  intros Hrun Ht.
  destruct (rows_emit_writes name p stride n count i W) as (evs' & Ht' & Hev).
  rewrite Hrun in Ht'. simpl in Ht'. rewrite Ht in Ht'.
  by apply app_inv_head in Ht' as ->.
Qed.

(** A picture without rows.  When [ysize] is zero or negative the row loop
    of [save_gray_frame] is not entered: the buffer is not read (it may be
    null), and the file that is opened receives the header and is closed. *)
Theorem gray_export_without_rows buf wrap xsize ysize n W :
  let name := gray_filename n in
  fopen_ok X name = true →
  ysize ≤ 0 →
  ∃ W' k,
    save_gray_frame X buf wrap xsize ysize n W = (Ret tt, W') ∧
    heap W' = heap W ∧
    files W' !! name = Some (take k (bytes_of (gray_header xsize ysize))) ∧
    (writes_complete X name → k = length (bytes_of (gray_header xsize ysize))) ∧
    trace W' = trace W ++ [EvFopen name (Some name);
                           EvFprintf (Some name) (gray_header xsize ysize);
                           EvFclose (Some name)].
Proof.
  intros name Hopen Hy. unfold save_gray_frame. fold name.
  destruct (fopen_ok_spec X name W Hopen) as (W1 & Hr1 & He1 & Hf1).
  destruct (fprintf_spec X name (gray_header xsize ysize) W1)
    as (k & W2 & Hr2 & He2 & Hf2 & Hk).
  rewrite Hf1 in Hf2. simpl in Hf2.
  destruct (fclose_spec name W2) as (W3 & Hr3 & He3 & Hf3).
  pose proof (file_effect_trans _ _ _ _ _ _ He1
                (file_effect_trans _ _ _ _ _ _ He2 He3)) as (Hh & _ & Ht).
  exists W3, k.
  rewrite (bind_ret_eq _ _ _ _ _ Hr1), (bind_ret_eq _ _ _ _ _ Hr2).
  replace (Z.to_nat ysize) with 0%nat by lia. cbn [for_loop]. rewrite bind_ret_l.
  split_and!; [done|done|by rewrite Hf3|done|done].
Qed.


End ExportEdges.

(** The file name tells the frame number and the kind of export: two
    grayscale (or two colour) exports share a file exactly when they have
    the same frame number, and a grayscale export never shares its file with
    a colour export. *)
Theorem frame_file_names_distinct n m :
  (gray_filename n = gray_filename m ↔ n = m) ∧
  (rgb_filename n = rgb_filename m ↔ n = m) ∧
  gray_filename n ≠ rgb_filename m.
Proof.
  split_and!.
  - split; [apply gray_filename_inj|by intros ->].
  - split; [apply rgb_filename_inj|by intros ->].
  - apply gray_rgb_differ.
Qed.

(** *** Concrete runs *)

Lemma gray_export_without_rows_witness :
  ∃ W', save_gray_frame (Toy.good []) NULL 4 3 0 1 Toy.W0 = (Ret tt, W') ∧
        files W' !! "frame-1.pgm" = Some (bytes_of (gray_header 3 0)).
Proof.
  destruct (gray_export_without_rows (Toy.good []) NULL 4 3 0 1 Toy.W0)
    as (W' & k & Hrun & _ & Hf & Hk & _).
  - reflexivity.
  - lia.
  - exists W'. split; [exact Hrun|].
    rewrite Hk in Hf by (intros cur req; simpl; lia).
    rewrite firstn_all in Hf. exact Hf.
Defined.


(** ** Runs that return, in any environment *)

Lemma closed_app l1 l2 : closed (l1 ++ l2) = closed l1 ++ closed l2.
Proof. apply omap_app. Qed.

Lemma pulls_app l1 l2 : pulls (l1 ++ l2) = pulls l1 ++ pulls l2.
Proof. apply omap_app. Qed.

Lemma reads_app l1 l2 : reads (l1 ++ l2) = reads l1 ++ reads l2.
Proof. apply omap_app. Qed.

Lemma emits_impl {A} (P Q : event → Prop) (c : M A) :
  (∀ e, P e → Q e) → emits P c → emits Q c.
Proof.
  intros HPQ Hc W. destruct (Hc W) as (evs & Ht & Hev).
  exists evs. split; [done|]. by eapply Forall_impl.
Qed.

Section Returned.

Context {D : Type} (X : Extern D).

(** *** The calls of an export that returned *)

Lemma export_stretch_profile name evs :
  export_stretch name evs →
  opened evs = [name] ∧ closed evs = [name] ∧ count (is_yield X) evs = 0%nat ∧
  pulls evs = [] ∧ sent evs = [].
Proof.
  intros (mid & -> & Hmid).
  assert (opened mid = [] ∧ closed mid = [] ∧ count (is_yield X) mid = 0%nat ∧
          pulls mid = [] ∧ sent mid = [])
    as (Ho & Hc & Hy & Hp & Hs).
  { induction Hmid as [|e mid He _ IH]; [done|].
    destruct e as [| | | | | | |? []|[]|[]| | | | | | |]; try done. }
  change (EvFopen name (Some name) :: ?l) with ([EvFopen name (Some name)] ++ l).
  rewrite !opened_app, !closed_app, !count_app, !pulls_app, !sent_app, Ho, Hc, Hy, Hp, Hs.
  done.
Qed.

Lemma logs_profile evs :
  Forall is_log evs →
  opened evs = [] ∧ closed evs = [] ∧ count (is_yield X) evs = 0%nat ∧
  pulls evs = [] ∧ sent evs = [].
Proof.
  induction 1 as [|e evs He _ IH]; [done|]. by destruct e.
Qed.

Lemma fprintf_returned f s W k W' :
  fprintf X f s W = (Ret k, W') →
  ∃ name, f = Some name ∧ trace W' = trace W ++ [EvFprintf (Some name) s].
Proof.
  destruct f as [name|]; [|done]. intros H. exists name. split; [done|].
  destruct (fprintf_spec X name s W) as (k' & W1 & Hr & (_ & _ & Ht) & _).
  rewrite Hr in H. by injection H as _ <-.
Qed.

Lemma fopen_returned name W f W' :
  fopen X name W = (Ret f, W') → trace W' = trace W ++ [EvFopen name f].
Proof. unfold fopen. destruct (fopen_ok X name); by intros [= <- <-]. Qed.

Lemma fclose_returned f W W' :
  fclose f W = (Ret tt, W') →
  ∃ name, f = Some name ∧ trace W' = trace W ++ [EvFclose (Some name)].
Proof.
  destruct f as [name|]; [|done]. intros [= <-]. by exists name.
Qed.

Lemma rows_returned name p stride n count i W W' :
  for_loop count i (λ i, fwrite X (ptr_add p (i * stride)) n (Some name) ;; ret tt) W
  = (Ret tt, W') →
  ∃ evs, trace W' = trace W ++ evs ∧ Forall (export_write name) evs.
Proof.
  intros Hrun.
  destruct (rows_emit_writes X name p stride n count i W) as (evs & Ht & Hev).
  rewrite Hrun in Ht. exists evs. split; [done|].
  eapply Forall_impl; [exact Hev|]. by intros [].
Qed.

Lemma save_gray_frame_returned buf wrap xsize ysize n W W' :
  save_gray_frame X buf wrap xsize ysize n W = (Ret tt, W') →
  ∃ evs, trace W' = trace W ++ evs ∧ export_stretch (gray_filename n) evs.
Proof.
  unfold save_gray_frame. intros H.
  apply bind_ret_inv in H as (f & W1 & Hopen & H).
  apply bind_ret_inv in H as (k & W2 & Hpr & H).
  apply bind_ret_inv in H as ([] & W3 & Hrows & Hcl).
  pose proof (fopen_handle X _ _ _ _ Hopen) as Hf.
  apply fopen_returned in Hopen.
  apply fprintf_returned in Hpr as (name & -> & Hpr).
  destruct Hf as [[= ->]|?]; [|done].
  apply fclose_returned in Hcl as (name' & [= <-] & Hcl).
  apply rows_returned in Hrows as (evs & Hrows & Hev).
  eexists. split.
  - rewrite Hcl, Hrows, Hpr, Hopen, <- !app_assoc. reflexivity.
  - exists (EvFprintf (Some (gray_filename n)) (gray_header xsize ysize) :: evs).
    split; [done|]. by constructor.
Qed.

Lemma allocateFrame_returned w h W fr W' :
  allocateFrame X w h W = (Ret fr, W') →
  trace W' = trace W ∨ data fr = [].
Proof.
  intros H. destruct (av_frame_alloc X (heap W)) eqn:Hfa.
  2: { by rewrite allocateFrame_no_frame in H. }
  destruct (av_image_alloc X (heap W) w h dst_pix_fmt 1) as [[ls blk]|] eqn:Hia.
  - rewrite (allocateFrame_spec X w h ls blk W Hfa Hia) in H.
    injection H as <- <-. by left.
  - rewrite (allocateFrame_no_image X w h W Hfa Hia) in H.
    injection H as <- <-. by right.
Qed.

Lemma scale_returned c src ss y h dst ds W W' :
  scale X c src ss y h dst ds W = (Ret tt, W') →
  dst ≠ [] ∧ ∃ c', trace W' = trace W ++ [EvSwsScale c' src dst].
Proof.
  destruct c as [c|]; [|done]. destruct dst as [|d dst].
  { by rewrite scale_null. }
  unfold scale. destruct (store _ _ _); [|done]. intros [= <-].
  split; [done|]. by exists c.
Qed.

Lemma save_rgb_frame_returned fr n W W' :
  save_rgb_frame X fr n W = (Ret tt, W') →
  ∃ evs, trace W' = trace W ++ evs ∧ export_stretch (rgb_filename n) evs.
Proof.
  unfold save_rgb_frame. intros H.
  apply bind_ret_inv in H as (f & W1 & Hopen & H).
  apply bind_ret_inv in H as (k & W2 & Hpr & H).
  apply bind_ret_inv in H as (frame_rgb & W3 & Halloc & H).
  apply bind_ret_inv in H as (c & W4 & Hget & H).
  apply bind_ret_inv in H as ([] & W5 & Hscale & H).
  apply bind_ret_inv in H as ([] & W6 & Hfree & H).
  apply bind_ret_inv in H as ([] & W7 & Hrows & Hcl).
  pose proof (fopen_handle X _ _ _ _ Hopen) as Hf.
  apply fopen_returned in Hopen.
  apply fprintf_returned in Hpr as (name & -> & Hpr).
  destruct Hf as [[= ->]|?]; [|done].
  apply fclose_returned in Hcl as (name' & [= <-] & Hcl).
  apply rows_returned in Hrows as (evs & Hrows & Hev).
  injection Hget as _ <-. injection Hfree as <-.
  apply scale_returned in Hscale as (Hdst & c' & Hscale).
  apply allocateFrame_returned in Halloc as [Halloc|?]; [|done].
  eexists. split.
  - rewrite Hcl, Hrows. cbn [trace]. rewrite Hscale, Halloc, Hpr, Hopen, <- !app_assoc.
    reflexivity.
  - eexists (EvFprintf _ _ :: EvSwsScale _ _ _ :: EvSwsFree :: evs).
    split; [done|]. by repeat constructor.
Qed.

(** *** Balanced stretches *)

Lemma balanced_app e1 e2 : balanced X e1 → balanced X e2 → balanced X (e1 ++ e2).
Proof.
  intros (n1 & Ho1 & Hc1 & Hy1) (n2 & Ho2 & Hc2 & Hy2). exists (n1 ++ n2).
  rewrite opened_app, closed_app, count_app, flat_map_app, length_app.
  split_and!; congruence.
Qed.

Lemma balanced_none evs :
  opened evs = [] → closed evs = [] → count (is_yield X) evs = 0%nat → balanced X evs.
Proof. intros Ho Hc Hy. exists []. simpl. split_and!; congruence. Qed.

Lemma balanced_no_yield r : ¬ yield_code X r → balanced X [EvReceiveFrame r].
Proof.
  intros Hr. apply balanced_none; [done..|].
  unfold count. simpl. by rewrite bool_decide_eq_false_2.
Qed.

Lemma balanced_yield r logs g c n :
  yield_code X r → Forall is_log logs →
  export_stretch (gray_filename n) g → export_stretch (rgb_filename n) c →
  balanced X ([EvReceiveFrame r] ++ logs ++ g ++ c).
Proof.
  intros Hr Hlogs Hg Hc. exists [n].
  apply logs_profile in Hlogs as (Ho1 & Hc1 & Hy1 & _).
  apply export_stretch_profile in Hg as (Ho2 & Hc2 & Hy2 & _).
  apply export_stretch_profile in Hc as (Ho3 & Hc3 & Hy3 & _).
  rewrite !opened_app, !closed_app, !count_app, Ho1, Ho2, Ho3, Hc1, Hc2, Hc3, Hy1, Hy2, Hy3.
  split_and!; [done|done|].
  unfold count. simpl. by rewrite bool_decide_eq_true_2.
Qed.

Lemma rb_ret {A} (a : A) : returns_balanced X (ret a).
Proof.
  intros W a' W' [= <- <-]. exists []. split; [by rewrite app_nil_r|].
  by apply balanced_none.
Qed.

Lemma rb_emit e : balanced X [e] → returns_balanced X (emit e).
Proof. intros He W [] W' [= <-]. by exists [e]. Qed.

Lemma rb_log s : returns_balanced X (logging s).
Proof. apply rb_emit. by apply balanced_none. Qed.

Lemma rb_bind {A B} (c : M A) (k : A → M B) :
  returns_balanced X c → (∀ a, returns_balanced X (k a)) →
  returns_balanced X (x <- c ;; k x).
Proof.
  intros Hc Hk W b W' H. apply bind_ret_inv in H as (a & W1 & Hrun & Hrest).
  destruct (Hc W a W1 Hrun) as (e1 & Ht1 & Hb1).
  destruct (Hk a W1 b W' Hrest) as (e2 & Ht2 & Hb2).
  exists (e1 ++ e2). split; [by rewrite Ht2, Ht1, app_assoc|by apply balanced_app].
Qed.

Lemma rb_exit s : returns_balanced X (logging s ;; ret (-1)).
Proof. apply rb_bind; [apply rb_log|]. intros _. apply rb_ret. Qed.

Lemma receive_frame_returned ctx W r fr c W1 :
  receive_frame X ctx W = (Ret (r, fr, c), W1) →
  trace W1 = trace W ++ [EvReceiveFrame r].
Proof.
  unfold receive_frame.
  destruct (avcodec_receive_frame X ctx (heap W)) as [[[r' fr'] c'] h'].
  by intros [= <- _ _ <-].
Qed.

Lemma when_log_returned (b : bool) s W W1 :
  when b (logging s) W = (Ret tt, W1) →
  ∃ logs, trace W1 = trace W ++ logs ∧ Forall is_log logs.
Proof.
  destruct b; intros [= <-].
  - exists [EvLog s]. split; [done|]. by repeat constructor.
  - exists []. split; [by rewrite app_nil_r|done].
Qed.

Lemma rb_receive_loop fuel :
  ∀ ctx pFrame, returns_balanced X (receive_loop X fuel ctx pFrame).
Proof.
  induction fuel as [|fuel IH]; intros ctx pFrame W a W' H; simpl in H; [done|].
  apply bind_ret_inv in H as ([[r fr] c] & W1 & Hrecv & H).
  apply receive_frame_returned in Hrecv.
  destruct (decide (r = AVERROR_EAGAIN X ∨ r = AVERROR_EOF X)) as [Hb|Hb].
  { injection H as _ <-. exists [EvReceiveFrame r]. split; [done|].
    apply balanced_no_yield. by intros [? _]. }
  destruct (decide (r < 0)) as [Hneg|Hneg].
  { injection H as _ <-. eexists ([EvReceiveFrame r] ++ [EvLog _]).
    split; [simpl; rewrite Hrecv, <- app_assoc; reflexivity|].
    apply balanced_app; [|by apply balanced_none].
    apply balanced_no_yield. by intros [_ ?]. }
  apply bind_ret_inv in H as ([] & W2 & Hlog & H). injection Hlog as <-.
  apply bind_ret_inv in H as ([] & W3 & Hwarn & H).
  apply when_log_returned in Hwarn as (logs & Hwarn & Hlogs).
  apply bind_ret_inv in H as ([] & W4 & Hgray & H).
  apply save_gray_frame_returned in Hgray as (g & Hgray & Hg).
  apply bind_ret_inv in H as ([] & W5 & Hrgb & H).
  apply save_rgb_frame_returned in Hrgb as (cl & Hrgb & Hc).
  apply IH in H as (rest & Ht & Hbal).
  eexists (([EvReceiveFrame r] ++ (EvLog _ :: logs) ++ g ++ cl) ++ rest). split.
  - rewrite Ht, Hrgb, Hgray, Hwarn. cbn [trace]. rewrite Hrecv, <- !app_assoc. done.
  - apply balanced_app; [|done].
    apply (balanced_yield _ _ _ _ (frame_number X c)); try done.
    by constructor.
Qed.

Lemma send_packet_returned ctx p W r c W1 :
  send_packet X ctx p W = (Ret (r, c), W1) →
  trace W1 = trace W ++ [EvSendPacket p r].
Proof.
  unfold send_packet. destruct (avcodec_send_packet X ctx p) as [r' c'].
  by intros [= <- _ <-].
Qed.

Lemma rb_decode_packet fuel pkt ctx pFrame :
  returns_balanced X (decode_packet X fuel pkt ctx pFrame).
Proof.
  unfold decode_packet. apply rb_bind.
  { intros W [r c] W1 H. apply send_packet_returned in H.
    eexists. split; [done|]. by apply balanced_none. }
  intros [r c]. destruct (decide _); [|apply rb_receive_loop].
  apply rb_bind; [apply rb_log|]. intros _. apply rb_ret.
Qed.

Lemma rb_packet_loop fuel vsi pkts :
  ∀ resp budget ctx pFrame,
    returns_balanced X (packet_loop X fuel vsi pkts resp budget ctx pFrame).
Proof.
  induction pkts as [|pkt rest IH]; intros resp budget ctx pFrame; simpl.
  - apply rb_bind; [by apply rb_emit, balanced_none|]. intros _. apply rb_ret.
  - apply rb_bind; [by apply rb_emit, balanced_none|]. intros _.
    destruct (decide _).
    + apply rb_bind; [apply rb_log|]. intros _.
      apply rb_bind; [apply rb_decode_packet|]. intros [[r c] fr].
      destruct (decide _); [apply rb_ret|].
      destruct (decide _); [apply rb_ret|].
      apply rb_bind; [by apply rb_emit, balanced_none|]. intros _. apply IH.
    + apply rb_bind; [by apply rb_emit, balanced_none|]. intros _. apply IH.
Qed.

Lemma rb_stream_loop ss : ∀ i sel, returns_balanced X (stream_loop X i ss sel).
Proof.
  induction ss as [|s rest IH]; intros i sel; simpl; [apply rb_ret|].
  do 5 (apply rb_bind; [apply rb_log|]; intros _).
  destruct (avcodec_find_decoder X _).
  - apply rb_bind.
    { destruct (decide _).
      - apply rb_bind; [apply rb_log|]. intros _. apply rb_ret.
      - destruct (decide _); [|apply rb_ret].
        apply rb_bind; [apply rb_log|]. intros _. apply rb_ret. }
    intros sel'. apply rb_bind; [apply rb_log|]. intros _. apply IH.
  - apply rb_bind; [apply rb_log|]. intros _. apply IH.
Qed.

Lemma rb_main_with budget fuel argc argv1 :
  returns_balanced X (main_with X budget fuel argc argv1).
Proof.
  unfold main_with.
  destruct (decide _).
  { apply rb_bind; [by apply rb_emit, balanced_none|]. intros _. apply rb_ret. }
  apply rb_bind; [apply rb_log|]. intros _.
  destruct (avformat_alloc_context X); cbn [negb]; [|apply rb_exit].
  apply rb_bind; [apply rb_log|]. intros _.
  destruct (avformat_open_input X argv1) as [fc|]; [|apply rb_exit].
  do 2 (apply rb_bind; [apply rb_log|]; intros _).
  destruct (decide _); [apply rb_exit|].
  apply rb_bind; [apply rb_stream_loop|]. intros sel.
  destruct (decide _); [apply rb_exit|].
  destruct (avcodec_alloc_context3 X (pCodec sel)) as [ctx|]; [|apply rb_exit].
  destruct (avcodec_parameters_to_context X ctx (pCodecParameters sel)) as [r1 ctx1].
  destruct (decide _); [apply rb_exit|].
  destruct (avcodec_open2 X ctx1 (pCodec sel)) as [r2 ctx2].
  destruct (decide _); [apply rb_exit|].
  apply rb_bind.
  { intros W a W1 [= _ <-]. exists []. split; [by rewrite app_nil_r|by apply balanced_none]. }
  intros [pFrame|]; [|apply rb_exit].
  destruct (av_packet_alloc X); cbn [negb]; [|apply rb_exit].
  unfold run_packets. apply rb_bind; [apply rb_packet_loop|]. intros _.
  apply rb_bind; [apply rb_log|]. intros _.
  do 4 (apply rb_bind; [by apply rb_emit, balanced_none|]; intros _). apply rb_ret.
Qed.

(** In any environment, a run of [main] that returns has exported every
    frame the decoder yielded: it opened one [.pgm] and one [.ppm] file per
    yielded frame, and closed every file it opened, in the order in which
    they were opened.  (An export that cannot complete does not return.) *)
Theorem returned_run_exported_every_frame fuel argc argv1 W code W' :
  main X fuel argc argv1 W = (Ret code, W') →
  ∃ evs, trace W' = trace W ++ evs ∧
    names_with ".pgm" (opened evs) = count (is_yield X) evs ∧
    names_with ".ppm" (opened evs) = count (is_yield X) evs ∧
    closed evs = opened evs.
Proof.
  intros H. apply rb_main_with in H as (evs & Ht & nums & Ho & Hc & Hy).
  exists evs. destruct (names_with_two_names nums) as [Hg Hp].
  rewrite Ho, Hy. by rewrite Ho in Hc.
Qed.

End Returned.

Lemma returned_run_exported_every_frame_witness :
  ∃ evs, trace (main (Toy.good six_in_three) 9 2 "in.mp4" Toy.W0).2 = evs ∧
    names_with ".pgm" (opened evs) = count (is_yield (Toy.good six_in_three)) evs ∧
    closed evs = opened evs.
Proof.
  assert (main (Toy.good six_in_three) 9 2 "in.mp4" Toy.W0
          = (Ret 0, (main (Toy.good six_in_three) 9 2 "in.mp4" Toy.W0).2)) as Hrun.
  { vm_compute. reflexivity. }
  destruct (returned_run_exported_every_frame (Toy.good six_in_three) 9 2 "in.mp4"
              Toy.W0 0 _ Hrun) as (evs & Ht & Hg & _ & Hc).
  exists evs. split; [exact Ht|]. split; [exact Hg|exact Hc].
Defined.

(** ** What one call of [decode_packet] does *)

Section Drain.

Context {D : Type} (X : Extern D).

Lemma receive_loop_pulls fuel :
  ∀ ctx pFrame W resp ctx' fr' W',
    receive_loop X fuel ctx pFrame W = (Ret (resp, ctx', fr'), W') →
    ∃ evs ys last,
      trace W' = trace W ++ evs ∧
      pulls evs = ys ++ [last] ∧ Forall (yield_code X) ys ∧ ¬ yield_code X last ∧
      resp = (if decide (last = AVERROR_EAGAIN X ∨ last = AVERROR_EOF X) then 0 else last) ∧
      sent evs = [] ∧ length (opened evs) = (2 * length ys)%nat.
Proof.
  induction fuel as [|fuel IH]; intros ctx pFrame W resp ctx' fr' W' H; simpl in H; [done|].
  apply bind_ret_inv in H as ([[r fr] c] & W1 & Hrecv & H).
  apply receive_frame_returned in Hrecv.
  destruct (decide (r = AVERROR_EAGAIN X ∨ r = AVERROR_EOF X)) as [Hb|Hb].
  { injection H as <- _ _ <-. exists [EvReceiveFrame r], [], r.
    rewrite decide_True by done. split_and!; try done. by intros [? _]. }
  destruct (decide (r < 0)) as [Hneg|Hneg].
  { injection H as <- _ _ <-. eexists [EvReceiveFrame r; EvLog _], [], r.
    rewrite decide_False by done. split_and!; try done.
    - simpl. rewrite Hrecv, <- app_assoc. reflexivity.
    - by intros [_ ?]. }
  apply bind_ret_inv in H as ([] & W2 & Hlog & H). injection Hlog as <-.
  apply bind_ret_inv in H as ([] & W3 & Hwarn & H).
  apply when_log_returned in Hwarn as (logs & Hwarn & Hlogs).
  apply bind_ret_inv in H as ([] & W4 & Hgray & H).
  apply save_gray_frame_returned in Hgray as (g & Hgray & Hg).
  apply bind_ret_inv in H as ([] & W5 & Hrgb & H).
  apply save_rgb_frame_returned in Hrgb as (cl & Hrgb & Hc).
  apply IH in H as (rest & ys & last & Ht & Hp & Hys & Hlast & Hresp & Hs & Ho).
  assert (Forall is_log (EvLog "Frame %d (type=%c, size=%d bytes, format=%d) pts %d key_frame %d [DTS %d]" :: logs))
    as Hlogs' by by constructor.
  apply (logs_profile X) in Hlogs' as (Ho1 & _ & _ & Hp1 & Hs1).
  apply (export_stretch_profile X) in Hg as (Ho2 & _ & _ & Hp2 & Hs2).
  apply (export_stretch_profile X) in Hc as (Ho3 & _ & _ & Hp3 & Hs3).
  eexists (([EvReceiveFrame r] ++ (EvLog _ :: logs) ++ g ++ cl) ++ rest), (r :: ys), last.
  split_and!; try done.
  - rewrite Ht, Hrgb, Hgray, Hwarn. cbn [trace]. rewrite Hrecv, <- !app_assoc. done.
  - rewrite !pulls_app, Hp1, Hp2, Hp3, Hp. done.
  - by constructor.
  - rewrite !sent_app, Hs1, Hs2, Hs3, Hs. done.
  - rewrite !opened_app, Ho1, Ho2, Ho3, !length_app, Ho. simpl. lia.
Qed.

(** One call of [decode_packet] that returns has submitted its packet, once
    and first.  If the decoder rejected the packet, the call returns that
    negative response without pulling or exporting anything.  Otherwise it
    has pulled until the first response that is not a frame, has exported
    two files for every frame pulled before it, and returns [0] when that
    last response is [EAGAIN] or end of stream, and the response itself (an
    error) when not. *)
Theorem decode_packet_drains fuel pkt ctx pFrame W resp ctx' fr' W' :
  decode_packet X fuel pkt ctx pFrame W = (Ret (resp, ctx', fr'), W') →
  ∃ r evs,
    trace W' = trace W ++ EvSendPacket (Some pkt) r :: evs ∧ sent evs = [] ∧
    if decide (r < 0)
    then resp = r ∧ pulls evs = [] ∧ opened evs = []
    else ∃ ys last,
      pulls evs = ys ++ [last] ∧ Forall (yield_code X) ys ∧ ¬ yield_code X last ∧
      resp = (if decide (last = AVERROR_EAGAIN X ∨ last = AVERROR_EOF X)
              then 0 else last) ∧
      length (opened evs) = (2 * length ys)%nat.
Proof.
  unfold decode_packet. intros H.
  apply bind_ret_inv in H as ([r c] & W1 & Hsend & H).
  apply send_packet_returned in Hsend. exists r.
  destruct (decide (r < 0)) as [Hneg|Hneg].
  - injection H as <- _ _ <-. eexists [EvLog _]. split_and!; try done.
    simpl. rewrite Hsend, <- app_assoc. reflexivity.
  - apply receive_loop_pulls in H
      as (evs & ys & last & Ht & Hp & Hys & Hlast & Hresp & Hs & Ho).
    exists evs. split_and!; [|done|by exists ys, last].
    rewrite Ht, Hsend, <- app_assoc. done.
Qed.

End Drain.

Lemma decode_packet_drains_witness :
  ∃ evs ys last,
    trace (decode_packet (Toy.good []) 9 (Toy.video x02) (Toy.mkCtx 0 0 false)
             blank_frame Toy.W0).2
    = EvSendPacket (Some (Toy.video x02)) 0 :: evs ∧
    pulls evs = ys ++ [last] ∧ length (opened evs) = (2 * length ys)%nat.
Proof.
  assert (decode_packet (Toy.good []) 9 (Toy.video x02) (Toy.mkCtx 0 0 false)
            blank_frame Toy.W0
          = (Ret (0, Toy.mkCtx 2 0 false, blank_frame),
             (decode_packet (Toy.good []) 9 (Toy.video x02) (Toy.mkCtx 0 0 false)
                blank_frame Toy.W0).2)) as Hrun.
  { vm_compute. reflexivity. }
  destruct (decode_packet_drains (Toy.good []) 9 (Toy.video x02) (Toy.mkCtx 0 0 false)
              blank_frame Toy.W0 0 _ _ _ Hrun) as (r & evs & Ht & _ & Hcase).
  assert (r = 0) as ->.
  { vm_compute in Ht. by injection Ht as <- _. }
  rewrite decide_False in Hcase by lia.
  destruct Hcase as (ys & last & Hp & _ & _ & _ & Ho).
  exists evs, ys, last. split; [exact Ht|]. split; [exact Hp|exact Ho].
Defined.

(** ** The calls of each part of the program, however it ends *)

Section Calls.

Context {D : Type} (X : Extern D).

Ltac one_call := apply emits_step; intros W.
Ltac called := right; eexists; (split; [|reflexivity]); done.

Lemma ee_fopen name : emits export_event (fopen X name).
Proof. one_call. unfold fopen. destruct (fopen_ok X name); called. Qed.

Lemma ee_fprintf f s : emits export_event (fprintf X f s).
Proof.
  unfold fprintf. apply emits_bind; [by apply emits_emit|]. intros _.
  destruct f as [name|]; [|apply emits_undefined]. one_call. by left.
Qed.

Lemma ee_fwrite p n f : emits export_event (fwrite X p n f).
Proof.
  one_call. unfold fwrite, put_bytes. destruct f as [name|]; simpl.
  - destruct (load (heap W) p n); simpl; [called|by left].
  - called.
Qed.

Lemma ee_fclose f : emits export_event (fclose f).
Proof.
  unfold fclose. apply emits_bind; [by apply emits_emit|]. intros _.
  destruct f; [apply emits_ret|apply emits_undefined].
Qed.

Lemma ee_save_gray_frame buf wrap xsize ysize n :
  emits export_event (save_gray_frame X buf wrap xsize ysize n).
Proof.
  unfold save_gray_frame. apply emits_bind; [apply ee_fopen|]. intros f.
  apply emits_bind; [apply ee_fprintf|]. intros _.
  apply emits_bind; [|intros _; apply ee_fclose].
  apply emits_for_loop. intros i. apply emits_bind; [apply ee_fwrite|].
  intros _. apply emits_ret.
Qed.

Lemma ee_allocateFrame w h : emits export_event (allocateFrame X w h).
Proof.
  unfold allocateFrame. apply emits_bind; [one_call; by left|]. intros fr.
  apply emits_bind; [apply emits_when; by apply emits_emit|]. intros _.
  destruct fr as [fr|]; [|apply emits_undefined].
  apply emits_bind.
  { one_call. left. unfold image_alloc. by destruct (av_image_alloc _ _ _ _ _ _) as [[]|]. }
  intros [r fr']. apply emits_bind; [apply emits_when; by apply emits_emit|].
  intros _. apply emits_ret.
Qed.

Lemma ee_save_rgb_frame fr n : emits export_event (save_rgb_frame X fr n).
Proof.
  unfold save_rgb_frame. apply emits_bind; [apply ee_fopen|]. intros f.
  apply emits_bind; [apply ee_fprintf|]. intros _.
  apply emits_bind; [apply ee_allocateFrame|]. intros frame_rgb.
  apply emits_bind; [apply emits_ret|]. intros c.
  apply emits_bind.
  { destruct c as [c|]; [|apply emits_undefined]. one_call. unfold scale.
    destruct (store _ _ _); called. }
  intros _. apply emits_bind; [by apply emits_emit|]. intros _.
  apply emits_bind; [|intros _; apply ee_fclose].
  apply emits_for_loop. intros i. apply emits_bind; [apply ee_fwrite|].
  intros _. apply emits_ret.
Qed.

Lemma export_decode_event e : export_event e → decode_event e.
Proof. by destruct e. Qed.

Lemma de_receive_loop fuel :
  ∀ ctx pFrame, emits decode_event (receive_loop X fuel ctx pFrame).
Proof.
  induction fuel as [|fuel IH]; intros ctx pFrame; simpl; [apply emits_out_of_fuel|].
  apply emits_bind.
  { one_call. unfold receive_frame.
    destruct (avcodec_receive_frame X ctx (heap W)) as [[[r fr] c] h]. called. }
  intros [[r fr] c]. destruct (decide _); [apply emits_ret|].
  destruct (decide _).
  { apply emits_bind; [by apply emits_emit|]. intros _. apply emits_ret. }
  apply emits_bind; [by apply emits_emit|]. intros _.
  apply emits_bind; [apply emits_when; by apply emits_emit|]. intros _.
  apply emits_bind.
  { eapply emits_impl; [apply export_decode_event|apply ee_save_gray_frame]. }
  intros _. apply emits_bind; [|intros _; apply IH].
  eapply emits_impl; [apply export_decode_event|apply ee_save_rgb_frame].
Qed.

(** [decode_packet] submits its packet first, whatever follows. *)
Lemma decode_packet_trace fuel pkt ctx pFrame W :
  ∃ r tail,
    trace (decode_packet X fuel pkt ctx pFrame W).2
    = trace W ++ EvSendPacket (Some pkt) r :: tail ∧
    Forall decode_event tail.
Proof.
  unfold decode_packet, bind at 1, send_packet.
  destruct (avcodec_send_packet X ctx (Some pkt)) as [r c]. exists r.
  destruct (decide (r < 0)).
  - eexists [_]. split; [simpl; rewrite <- app_assoc; reflexivity|].
    by repeat constructor.
  - destruct (de_receive_loop fuel c pFrame
                (mkWorld (heap W) (files W) (trace W ++ [EvSendPacket (Some pkt) r])))
      as (tail & Ht & Hev).
    exists tail. split; [|done]. rewrite Ht. simpl. by rewrite <- app_assoc.
Qed.

Lemma decode_events_profile tail :
  Forall decode_event tail →
  sent tail = [] ∧ reads tail = [] ∧ count is_unref tail = 0%nat ∧
  Forall not_stdout tail.
Proof.
  induction 1 as [|e tail He _ (Hs & Hr & Hu & Hn)]; [done|].
  destruct e; try done; by split_and!; try constructor.
Qed.

Lemma packet_loop_reads fuel vsi pkts resp budget ctx pFrame W :
  ∃ evs got,
    trace (packet_loop X fuel vsi pkts resp budget ctx pFrame W).2 = trace W ++ evs ∧
    got `prefix_of` pkts ∧
    sent evs = map Some (videos vsi got) ∧
    (length (videos vsi got) ≤ Z.to_nat (Z.max budget 1))%nat ∧
    ((got = pkts ∧ reads evs = map Some got ++ [None] ∧
      count is_unref evs = length got) ∨
     (∃ pre p, got = pre ++ [p] ∧ stream_index p = vsi ∧
        reads evs = map Some got ∧ count is_unref evs = length pre)).
Proof.
  revert resp budget ctx pFrame W.
  induction pkts as [|pkt rest IH]; intros resp budget ctx pFrame W.
  { exists [EvReadFrame None], []. split_and!; try done; [simpl; lia|by left]. }
  assert (∀ (W1 : World) evs got, 
            trace W1 = trace W ++ [EvReadFrame (Some pkt); EvPacketUnref] ++ evs →
            got `prefix_of` rest →
            sent evs = map Some (videos vsi got) →
            (length (videos vsi got) ≤ Z.to_nat (Z.max budget 1))%nat →
            ((got = rest ∧ reads evs = map Some got ++ [None] ∧
              count is_unref evs = length got) ∨
             (∃ pre p, got = pre ++ [p] ∧ stream_index p = vsi ∧
                reads evs = map Some got ∧ count is_unref evs = length pre)) →
            stream_index pkt ≠ vsi →
            ∃ evs got,
              trace W1 = trace W ++ evs ∧ got `prefix_of` pkt :: rest ∧
              sent evs = map Some (videos vsi got) ∧
              (length (videos vsi got) ≤ Z.to_nat (Z.max budget 1))%nat ∧
              ((got = pkt :: rest ∧ reads evs = map Some got ++ [None] ∧
                count is_unref evs = length got) ∨
               (∃ pre p, got = pre ++ [p] ∧ stream_index p = vsi ∧
                  reads evs = map Some got ∧ count is_unref evs = length pre))) as Hskip.
  { intros W1 evs got Ht Hpre Hsent Hlen Hcase Hne.
    exists ([EvReadFrame (Some pkt); EvPacketUnref] ++ evs), (pkt :: got).
    split_and!; [done|by apply prefix_cons| | |].
    - unfold videos. rewrite filter_cons_False by done. done.
    - unfold videos. rewrite filter_cons_False by done. done.
    - destruct Hcase as [(-> & Hr & Hu)|(pre & p & -> & Hp & Hr & Hu)].
      + left. split_and!; [done|by simpl; rewrite <- Hr|].
        unfold count in *. simpl. by rewrite Hu.
      + right. exists (pkt :: pre), p. split_and!; [done|done|by simpl; rewrite <- Hr|].
        unfold count in *. simpl. by rewrite Hu. }
  cbn [packet_loop]. unfold bind at 1, emit at 1. cbn [heap files trace].
  destruct (decide (stream_index pkt = vsi)) as [Hv|Hv].
  2: { unfold bind at 1, emit at 1. cbn [heap files trace].
       destruct (IH resp budget ctx pFrame
                   (mkWorld (heap W) (files W)
                      ((trace W ++ [EvReadFrame (Some pkt)]) ++ [EvPacketUnref])))
         as (evs & got & Ht & Hpre & Hsent & Hlen & Hcase).
       eapply Hskip; try done. rewrite Ht. simpl. by rewrite <- !app_assoc. }
  clear Hskip.
  unfold bind at 1, logging, emit at 1. cbn [heap files trace].
  set (W2 := mkWorld (heap W) (files W)
               ((trace W ++ [EvReadFrame (Some pkt)]) ++ [EvLog "AVPacket->pts %ld"])).
  destruct (decode_packet_trace fuel pkt ctx pFrame W2) as (r & tail & Ht & Htail).
  apply decode_events_profile in Htail as (Hs & Hr & Hu & _).
  assert (∀ W3 : World,
            trace W3 = trace W2 ++ EvSendPacket (Some pkt) r :: tail →
            ∃ evs got,
              trace W3 = trace W ++ evs ∧ got `prefix_of` pkt :: rest ∧
              sent evs = map Some (videos vsi got) ∧
              (length (videos vsi got) ≤ Z.to_nat (Z.max budget 1))%nat ∧
              ((got = pkt :: rest ∧ reads evs = map Some got ++ [None] ∧
                count is_unref evs = length got) ∨
               (∃ pre p, got = pre ++ [p] ∧ stream_index p = vsi ∧
                  reads evs = map Some got ∧ count is_unref evs = length pre))) as Hstop.
  { intros W3 Ht3.
    exists ([EvReadFrame (Some pkt); EvLog "AVPacket->pts %ld";
             EvSendPacket (Some pkt) r] ++ tail), [pkt].
    split_and!.
    - rewrite Ht3. simpl. by rewrite <- !app_assoc.
    - apply prefix_cons, prefix_nil.
    - rewrite sent_app, Hs. unfold videos. by rewrite filter_cons_True.
    - unfold videos. rewrite filter_cons_True by done. simpl. lia.
    - right. exists [], pkt. split_and!; [done|done|by rewrite reads_app, Hr|].
      by rewrite count_app, Hu. }
  unfold bind at 1.
  destruct (decode_packet X fuel pkt ctx pFrame W2) as [[[[r' c] fr]|u|] W3];
    cbn [snd] in Ht; [|by apply Hstop..].
  destruct (decide (r' < 0)); [by apply Hstop|].
  destruct (decide (budget - 1 ≤ 0)); [by apply Hstop|].
  unfold bind at 1, emit at 1. cbn [heap files trace].
  destruct (IH r' (budget - 1) c fr
              (mkWorld (heap W3) (files W3) (trace W3 ++ [EvPacketUnref])))
    as (evs & got & Ht' & Hpre & Hsent & Hlen & Hcase).
  exists (([EvReadFrame (Some pkt); EvLog "AVPacket->pts %ld";
            EvSendPacket (Some pkt) r] ++ tail ++ [EvPacketUnref]) ++ evs), (pkt :: got).
  split_and!.
  - rewrite Ht'. cbn [trace]. rewrite Ht. simpl. by rewrite <- !app_assoc.
  - by apply prefix_cons.
  - rewrite !sent_app, Hs, Hsent. unfold videos. by rewrite filter_cons_True.
  - unfold videos in *. rewrite filter_cons_True by done. simpl. lia.
  - destruct Hcase as [(-> & Hr' & Hu')|(pre & p & -> & Hp & Hr' & Hu')].
    + left. split_and!; [done|by rewrite !reads_app, Hr, Hr'|].
      rewrite !count_app, Hu, Hu'. done.
    + right. exists (pkt :: pre), p.
      split_and!; [done|done|by rewrite !reads_app, Hr, Hr'|].
      rewrite !count_app, Hu, Hu'. done.
Qed.

(** The packet loop reads the container in order and submits what it reads
    of the selected stream.  However the loop ends, the packets it has read
    are a prefix of those the container delivers, and the packets it has
    submitted are exactly those of the selected stream among them, no more
    of them than the budget allows (one at least).  Either it has read the
    whole container and then its end, every packet being unreferenced; or it
    has stopped at a packet of the selected stream, after which nothing is
    read, and which is the one packet it has not unreferenced. *)
Theorem reading_stops_with_the_loop fuel vsi pkts resp budget ctx pFrame W :
  ∃ evs got,
    trace (packet_loop X fuel vsi pkts resp budget ctx pFrame W).2 = trace W ++ evs ∧
    got `prefix_of` pkts ∧
    sent evs = map Some (filter (λ p, stream_index p = vsi) got) ∧
    (length (sent evs) ≤ Z.to_nat (Z.max budget 1))%nat ∧
    ((got = pkts ∧ reads evs = map Some got ++ [None] ∧
      count is_unref evs = length got) ∨
     (∃ pre p, got = pre ++ [p] ∧ stream_index p = vsi ∧
        reads evs = map Some got ∧ count is_unref evs = length pre)).
Proof.
  destruct (packet_loop_reads fuel vsi pkts resp budget ctx pFrame W)
    as (evs & got & Ht & Hpre & Hsent & Hlen & Hcase).
  exists evs, got. split_and!; try done. by rewrite Hsent, length_map.
Qed.

Lemma ns_decode_packet fuel pkt ctx pFrame :
  emits not_stdout (decode_packet X fuel pkt ctx pFrame).
Proof.
  intros W. destruct (decode_packet_trace fuel pkt ctx pFrame W) as (r & tail & Ht & Hev).
  eexists. split; [exact Ht|]. constructor; [done|].
  by apply decode_events_profile in Hev as (_ & _ & _ & ?).
Qed.

Lemma ns_packet_loop fuel vsi pkts :
  ∀ resp budget ctx pFrame,
    emits not_stdout (packet_loop X fuel vsi pkts resp budget ctx pFrame).
Proof.
  induction pkts as [|pkt rest IH]; intros resp budget ctx pFrame; simpl.
  - apply emits_bind; [by apply emits_emit|]. intros _. apply emits_ret.
  - apply emits_bind; [by apply emits_emit|]. intros _.
    destruct (decide _).
    + apply emits_bind; [by apply emits_emit|]. intros _.
      apply emits_bind; [apply ns_decode_packet|]. intros [[r c] fr].
      destruct (decide _); [apply emits_ret|].
      destruct (decide _); [apply emits_ret|].
      apply emits_bind; [by apply emits_emit|]. intros _. apply IH.
    + apply emits_bind; [by apply emits_emit|]. intros _. apply IH.
Qed.

Lemma ns_stream_loop ss : ∀ i sel, emits not_stdout (stream_loop X i ss sel).
Proof.
  induction ss as [|s rest IH]; intros i sel; simpl; [apply emits_ret|].
  do 5 (apply emits_bind; [by apply emits_emit|]; intros _).
  destruct (avcodec_find_decoder X _).
  - apply emits_bind.
    { destruct (decide _).
      - apply emits_bind; [by apply emits_emit|]. intros _. apply emits_ret.
      - destruct (decide _); [|apply emits_ret].
        apply emits_bind; [by apply emits_emit|]. intros _. apply emits_ret. }
    intros sel'. apply emits_bind; [by apply emits_emit|]. intros _. apply IH.
  - apply emits_bind; [by apply emits_emit|]. intros _. apply IH.
Qed.

Lemma ns_main_with budget fuel argc argv1 :
  ¬ argc < 2 → emits not_stdout (main_with X budget fuel argc argv1).
Proof.
  intros Hargc.
  assert (∀ s, emits not_stdout (logging s ;; ret (-1))) as Hexit.
  { intros s. apply emits_bind; [by apply emits_emit|]. intros _. apply emits_ret. }
  unfold main_with. rewrite decide_False by done.
  apply emits_bind; [by apply emits_emit|]. intros _.
  destruct (avformat_alloc_context X); cbn [negb]; [|apply Hexit].
  apply emits_bind; [by apply emits_emit|]. intros _.
  destruct (avformat_open_input X argv1) as [fc|]; [|apply Hexit].
  do 2 (apply emits_bind; [by apply emits_emit|]; intros _).
  destruct (decide _); [apply Hexit|].
  apply emits_bind; [apply ns_stream_loop|]. intros sel.
  destruct (decide _); [apply Hexit|].
  destruct (avcodec_alloc_context3 X (pCodec sel)) as [ctx|]; [|apply Hexit].
  destruct (avcodec_parameters_to_context X ctx (pCodecParameters sel)) as [r1 ctx1].
  destruct (decide _); [apply Hexit|].
  destruct (avcodec_open2 X ctx1 (pCodec sel)) as [r2 ctx2].
  destruct (decide _); [apply Hexit|].
  apply emits_bind.
  { apply emits_step. intros W. by left. }
  intros [pFrame|]; [|apply Hexit].
  destruct (av_packet_alloc X); cbn [negb]; [|apply Hexit].
  unfold run_packets. apply emits_bind; [apply ns_packet_loop|]. intros _.
  do 5 (apply emits_bind; [by apply emits_emit|]; intros _). apply emits_ret.
Qed.

(** Standard output carries the usage line and nothing else.  Called
    without a file name, [main] prints that line and returns [-1] without
    calling any library; called with one, it never writes to standard
    output, however the run ends: every other line goes to standard error. *)
Theorem usage_line_only_without_argument fuel argc argv1 W :
  if decide (argc < 2)
  then main X fuel argc argv1 W
       = (Ret (-1),
          mkWorld (heap W) (files W)
            (trace W ++ [EvStdout ("You need to specify a media file." +:+ nl)]))
  else ∃ evs, trace (main X fuel argc argv1 W).2 = trace W ++ evs ∧
              ∀ s, EvStdout s ∉ evs.
Proof.
  destruct (decide (argc < 2)) as [Hargc|Hargc].
  - unfold main, main_with. by rewrite decide_True by done.
  - destruct (ns_main_with 5 fuel argc argv1 Hargc W) as (evs & Ht & Hev).
    exists evs. split; [done|]. intros s Hin.
    rewrite Forall_forall in Hev. by apply Hev in Hin.
Qed.

End Calls.

(** ** Packets of the other streams *)

Section HistoryFree.

Context {D : Type} (X : Extern D).

Lemma hf_ret {A} (a : A) : history_free (ret a).
Proof. by intros W1 W2 Hs. Qed.

Lemma hf_undefined {A} u : history_free (@undefined A u).
Proof. by intros W1 W2 Hs. Qed.

Lemma hf_out_of_fuel {A} : history_free (@out_of_fuel A).
Proof. by intros W1 W2 Hs. Qed.

Lemma hf_emit e : history_free (emit e).
Proof. by intros W1 W2 [Hh Hf]. Qed.

(** The same first step, followed by continuations that agree. *)
Lemma agree_bind {A B} (c : M A) (k1 k2 : A → M B) W1 W2 :
  history_free c → same_store W1 W2 →
  (∀ a W1' W2', same_store W1' W2' → agree (k1 a W1') (k2 a W2')) →
  agree ((x <- c ;; k1 x) W1) ((x <- c ;; k2 x) W2).
Proof.
  intros Hc Hs Hk. unfold bind. destruct (Hc W1 W2 Hs) as [Ho Hs'].
  destruct (c W1) as [[a|u|] W1'], (c W2) as [[a'|u'|] W2']; simpl in Ho; try done.
  - injection Ho as <-. by apply Hk.
  - by injection Ho as <-.
Qed.

Lemma hf_bind {A B} (c : M A) (k : A → M B) :
  history_free c → (∀ a, history_free (k a)) → history_free (x <- c ;; k x).
Proof. intros Hc Hk W1 W2 Hs. apply agree_bind; [done|done|]. intros a. apply Hk. Qed.

Lemma hf_when b c : history_free c → history_free (when b c).
Proof. intros Hc. destruct b; [done|apply hf_ret]. Qed.

Lemma hf_for_loop n i (body : Z → M unit) :
  (∀ i, history_free (body i)) → history_free (for_loop n i body).
Proof.
  intros Hb. revert i. induction n as [|n IH]; intros i; simpl.
  - apply hf_ret.
  - apply hf_bind; [apply Hb|]. intros _. apply IH.
Qed.

Lemma hf_fopen name : history_free (fopen X name).
Proof.
  intros W1 W2 [Hh Hf]. unfold fopen, agree, same_store.
  destruct (fopen_ok X name); simpl; by rewrite Hh, Hf.
Qed.

Lemma hf_fprintf f s : history_free (fprintf X f s).
Proof.
  unfold fprintf. apply hf_bind; [apply hf_emit|]. intros _.
  destruct f as [name|]; [|apply hf_undefined].
  intros W1 W2 [Hh Hf]. unfold put_bytes, agree, same_store. simpl. by rewrite Hh, Hf.
Qed.

Lemma hf_fwrite p n f : history_free (fwrite X p n f).
Proof.
  intros W1 W2 [Hh Hf]. unfold fwrite, put_bytes, agree, same_store.
  destruct f as [name|]; simpl; [|done]. rewrite Hh.
  destruct (load (heap W2) p n); simpl; by rewrite ?Hh, ?Hf.
Qed.

Lemma hf_fclose f : history_free (fclose f).
Proof.
  unfold fclose. apply hf_bind; [apply hf_emit|]. intros _.
  destruct f; [apply hf_ret|apply hf_undefined].
Qed.

Lemma hf_rows f p stride n count i :
  history_free (for_loop count i (λ i, fwrite X (ptr_add p (i * stride)) n f ;; ret tt)).
Proof.
  apply hf_for_loop. intros j. apply hf_bind; [apply hf_fwrite|]. intros _. apply hf_ret.
Qed.

Lemma hf_save_gray_frame buf wrap xsize ysize n :
  history_free (save_gray_frame X buf wrap xsize ysize n).
Proof.
  unfold save_gray_frame. apply hf_bind; [apply hf_fopen|]. intros f.
  apply hf_bind; [apply hf_fprintf|]. intros _.
  apply hf_bind; [apply hf_rows|]. intros _. apply hf_fclose.
Qed.

Lemma hf_allocateFrame w h : history_free (allocateFrame X w h).
Proof.
  unfold allocateFrame. apply hf_bind.
  { intros W1 W2 [Hh Hf]. unfold frame_alloc, agree, same_store. simpl. by rewrite Hh. }
  intros fr. apply hf_bind; [apply hf_when, hf_emit|]. intros _.
  destruct fr as [fr|]; [|apply hf_undefined].
  apply hf_bind.
  { intros W1 W2 [Hh Hf]. unfold image_alloc, agree, same_store. rewrite Hh.
    destruct (av_image_alloc _ _ _ _ _ _) as [[]|]; simpl; by rewrite ?Hh, ?Hf. }
  intros [r fr']. apply hf_bind; [apply hf_when, hf_emit|]. intros _. apply hf_ret.
Qed.

Lemma hf_scale c src ss y h dst ds : history_free (scale X c src ss y h dst ds).
Proof.
  destruct c as [c|]; [|apply hf_undefined].
  intros W1 W2 [Hh Hf]. unfold scale, agree, same_store. rewrite Hh.
  destruct (store _ _ _); simpl; by rewrite ?Hh, ?Hf.
Qed.

Lemma hf_save_rgb_frame fr n : history_free (save_rgb_frame X fr n).
Proof.
  unfold save_rgb_frame. apply hf_bind; [apply hf_fopen|]. intros f.
  apply hf_bind; [apply hf_fprintf|]. intros _.
  apply hf_bind; [apply hf_allocateFrame|]. intros frame_rgb.
  apply hf_bind; [apply hf_ret|]. intros c.
  apply hf_bind; [apply hf_scale|]. intros _.
  apply hf_bind; [apply hf_emit|]. intros _.
  apply hf_bind; [apply hf_rows|]. intros _. apply hf_fclose.
Qed.

Lemma hf_receive_loop fuel :
  ∀ ctx pFrame, history_free (receive_loop X fuel ctx pFrame).
Proof.
  induction fuel as [|fuel IH]; intros ctx pFrame; simpl; [apply hf_out_of_fuel|].
  apply hf_bind.
  { intros W1 W2 [Hh Hf]. unfold receive_frame, agree, same_store. rewrite Hh.
    destruct (avcodec_receive_frame X ctx (heap W2)) as [[[r fr] c] h]. simpl.
    by rewrite Hf. }
  intros [[r fr] c]. destruct (decide _); [apply hf_ret|].
  destruct (decide _).
  { apply hf_bind; [apply hf_emit|]. intros _. apply hf_ret. }
  apply hf_bind; [apply hf_emit|]. intros _.
  apply hf_bind; [apply hf_when, hf_emit|]. intros _.
  apply hf_bind; [apply hf_save_gray_frame|]. intros _.
  apply hf_bind; [apply hf_save_rgb_frame|]. intros _. apply IH.
Qed.

Lemma hf_decode_packet fuel pkt ctx pFrame :
  history_free (decode_packet X fuel pkt ctx pFrame).
Proof.
  unfold decode_packet. apply hf_bind.
  { intros W1 W2 [Hh Hf]. unfold send_packet, agree, same_store.
    destruct (avcodec_send_packet X ctx (Some pkt)) as [r c]. simpl. by rewrite Hh, Hf. }
  intros [r c]. destruct (decide _); [|apply hf_receive_loop].
  apply hf_bind; [apply hf_emit|]. intros _. apply hf_ret.
Qed.

Lemma packet_loop_videos fuel vsi pkts :
  ∀ resp budget ctx pFrame W1 W2, same_store W1 W2 →
    agree (packet_loop X fuel vsi pkts resp budget ctx pFrame W1)
          (packet_loop X fuel vsi (videos vsi pkts) resp budget ctx pFrame W2).
Proof.
  induction pkts as [|pkt rest IH]; intros resp budget ctx pFrame W1 W2 Hs.
  { by destruct Hs. }
  unfold videos. destruct (decide (stream_index pkt = vsi)) as [Hv|Hv].
  - rewrite filter_cons_True by done. cbn [packet_loop].
    rewrite !decide_True by done.
    apply agree_bind; [apply hf_emit|done|]. intros _ W1' W2' Hs'.
    apply agree_bind; [apply hf_emit|done|]. clear W1' W2' Hs'. intros _ W1' W2' Hs'.
    apply agree_bind; [apply hf_decode_packet|done|].
    clear W1' W2' Hs'. intros [[r c] fr] W1' W2' Hs'.
    destruct (decide _); [by destruct Hs'|].
    destruct (decide _); [by destruct Hs'|].
    apply agree_bind; [apply hf_emit|done|]. clear W1' W2' Hs'. intros _ W1' W2' Hs'.
    by apply IH.
  - rewrite filter_cons_False by done. cbn [packet_loop].
    rewrite decide_False by done.
    unfold bind at 1, emit at 1. unfold bind at 1, emit at 1.
    apply IH. by destruct Hs.
Qed.

(** Packets of the other streams have no effect.  However the packet loop
    ends, its result (the outcome and the values of the locals at exit),
    memory and every file are the same as when the container delivers the
    packets of the selected stream only. *)
Theorem other_packets_do_not_matter fuel vsi pkts resp budget ctx pFrame W :
  let whole := packet_loop X fuel vsi pkts resp budget ctx pFrame W in
  let own :=
    packet_loop X fuel vsi (filter (λ p, stream_index p = vsi) pkts)
      resp budget ctx pFrame W in
  whole.1 = own.1 ∧ heap whole.2 = heap own.2 ∧ files whole.2 = files own.2.
Proof.
  destruct (packet_loop_videos fuel vsi pkts resp budget ctx pFrame W W) as (Ho & Hh & Hf);
    by split_and!.
Qed.

End HistoryFree.

(** ** The bound on the packets submitted *)

Section Bound.

Context {D : Type} (X : Extern D).

Lemma sam_silent {A} (n : nat) (c : M A) :
  emits (λ e, sent [e] = []) c → submits_at_most n c.
Proof.
  intros Hc W. destruct (Hc W) as (evs & Ht & Hev). exists evs. split; [done|].
  assert (sent evs = []) as ->; [|simpl; lia].
  clear Ht. induction Hev as [|e evs He _ IH]; [done|].
  change (e :: evs) with ([e] ++ evs). by rewrite sent_app, He, IH.
Qed.

Lemma sam_bind {A B} (n : nat) (c : M A) (k : A → M B) :
  emits (λ e, sent [e] = []) c → (∀ a, submits_at_most n (k a)) →
  submits_at_most n (x <- c ;; k x).
Proof.
  intros Hc Hk W. unfold bind.
  destruct (sam_silent 0 c Hc W) as (e1 & Ht1 & Hl1).
  destruct (c W) as [[a|u|] W1]; simpl in *; [|exists e1; split; [done|lia]..].
  destruct (Hk a W1) as (e2 & Ht2 & Hl2).
  exists (e1 ++ e2). split; [by rewrite Ht2, Ht1, app_assoc|].
  rewrite sent_app, length_app. lia.
Qed.

Lemma sam_log {A} (n : nat) s (k : M A) :
  submits_at_most n k → submits_at_most n (logging s ;; k).
Proof. intros Hk. apply sam_bind; [by apply emits_emit|done]. Qed.

Lemma sam_exit (n : nat) s : submits_at_most n (logging s ;; ret (-1)).
Proof.
  apply sam_silent. apply emits_bind; [by apply emits_emit|]. intros _. apply emits_ret.
Qed.

Lemma stream_loop_silent ss i sel :
  0 ≤ i → emits (λ e, sent [e] = []) (stream_loop X i ss sel).
Proof.
  intros Hi W.
  destruct (stream_loop_runs X ss i sel W Hi) as (sel' & W' & evs & [Hrun Ht] & Hlog & _).
  exists evs. rewrite Hrun. split; [done|].
  eapply Forall_impl; [exact Hlog|]. by intros [].
Qed.

Lemma sam_run_packets fuel budget sel fc ctx pFrame :
  submits_at_most (Z.to_nat (Z.max budget 1))
    (run_packets X fuel budget sel fc ctx pFrame).
Proof.
  intros W. unfold run_packets, bind at 1.
  destruct (packet_loop_reads X fuel (video_stream_index sel) (packets fc) 0 budget
              ctx pFrame W) as (evs & got & Ht & _ & Hsent & Hlen & _).
  assert (length (sent evs) ≤ Z.to_nat (Z.max budget 1))%nat as Hl.
  { by rewrite Hsent, length_map. }
  destruct (packet_loop _ _ _ _ _ _ _ _ W) as [[ex|u|] W1]; simpl in Ht;
    [|by exists evs..].
  exists (evs ++ EvLog releasing :: release_calls). split.
  - simpl. rewrite Ht, <- !app_assoc. done.
  - rewrite sent_app, length_app. simpl. lia.
Qed.

Lemma sam_main_with budget fuel argc argv1 :
  submits_at_most (Z.to_nat (Z.max budget 1)) (main_with X budget fuel argc argv1).
Proof.
  unfold main_with.
  destruct (decide _).
  { apply sam_silent. apply emits_bind; [by apply emits_emit|]. intros _. apply emits_ret. }
  apply sam_log.
  destruct (avformat_alloc_context X); cbn [negb]; [|apply sam_exit].
  apply sam_log.
  destruct (avformat_open_input X argv1) as [fc|]; [|apply sam_exit].
  do 2 apply sam_log.
  destruct (decide _); [apply sam_exit|].
  apply sam_bind; [by apply stream_loop_silent|]. intros sel.
  destruct (decide _); [apply sam_exit|].
  destruct (avcodec_alloc_context3 X (pCodec sel)) as [ctx|]; [|apply sam_exit].
  destruct (avcodec_parameters_to_context X ctx (pCodecParameters sel)) as [r1 ctx1].
  destruct (decide _); [apply sam_exit|].
  destruct (avcodec_open2 X ctx1 (pCodec sel)) as [r2 ctx2].
  destruct (decide _); [apply sam_exit|].
  apply sam_bind.
  { apply emits_step. intros W. by left. }
  intros [pFrame|]; [|apply sam_exit].
  destruct (av_packet_alloc X); cbn [negb]; [|apply sam_exit].
  apply sam_run_packets.
Qed.

(** Whatever the library calls answer and however the run ends, [main]
    hands at most five packets to the decoder. *)
Theorem at_most_five_packets_submitted fuel argc argv1 W :
  ∃ evs, trace (main X fuel argc argv1 W).2 = trace W ++ evs ∧
         (length (sent evs) ≤ 5)%nat.
Proof. apply (sam_main_with 5). Qed.

(** When its file cannot be opened, an exporter does not return: it writes
    the header through the null handle, which is undefined behaviour.  No
    file is created or changed, memory is unchanged, and nothing is printed
    or logged about the failure. *)
Theorem export_through_null_handle buf wrap xsize ysize fr n W :
  (fopen_ok X (gray_filename n) = false →
   save_gray_frame X buf wrap xsize ysize n W
   = (Undefined NullFile,
      mkWorld (heap W) (files W)
        (trace W ++ [EvFopen (gray_filename n) None;
                     EvFprintf None (gray_header xsize ysize)]))) ∧
  (fopen_ok X (rgb_filename n) = false →
   save_rgb_frame X fr n W
   = (Undefined NullFile,
      mkWorld (heap W) (files W)
        (trace W ++ [EvFopen (rgb_filename n) None;
                     EvFprintf None (rgb_header (width fr) (height fr))]))).
Proof.
  split; intros Hopen.
  - unfold save_gray_frame, bind at 1, fopen. rewrite Hopen.
    unfold bind, fprintf, bind, emit, undefined. simpl. by rewrite <- app_assoc.
  - unfold save_rgb_frame, bind at 1, fopen. rewrite Hopen.
    unfold bind, fprintf, bind, emit, undefined. simpl. by rewrite <- app_assoc.
Qed.

End Bound.

Lemma export_through_null_handle_witness :
  (save_gray_frame (Toy.lib [] [] (λ _, false) (λ _ _ n, n)) (Some (0%nat, 0)) 4 3 2 1 Toy.W1).1
  = Undefined NullFile ∧
  (save_rgb_frame (Toy.lib [] [] (λ _, false) (λ _ _ n, n)) Toy.frame 1 Toy.W1).1
  = Undefined NullFile.
Proof.
  destruct (export_through_null_handle (Toy.lib [] [] (λ _, false) (λ _ _ n, n))
              (Some (0%nat, 0)) 4 3 2 Toy.frame 1 Toy.W1) as [Hg Hc].
  split.
  - rewrite Hg; reflexivity.
  - rewrite Hc; reflexivity.
Defined.

(** * The claims on the packet budget and on the exporters *)

(** ** Draining *)

Lemma calls_app l1 l2 : calls (l1 ++ l2) = calls l1 ++ calls l2.
Proof. apply omap_app. Qed.

Lemma calls_pulls evs : sent evs = [] → calls evs = map Pull (pulls evs).
Proof.
  induction evs as [|e evs IH]; [done|]. destruct e; simpl; try done.
  intros Hs. f_equal. by apply IH.
Qed.

Lemma calls_logs evs : Forall is_log evs → calls evs = [].
Proof. induction 1 as [|e evs He _ IH]; [done|]. by destruct e. Qed.

Section Drained.

Context {D : Type} (X : Extern D).

(** The decoder calls of one [decode_packet] that returned. *)
Lemma decode_packet_calls fuel pkt ctx pFrame W resp ctx' fr' W' :
  decode_packet X fuel pkt ctx pFrame W = (Ret (resp, ctx', fr'), W') →
  ∃ evs r,
    trace W' = trace W ++ evs ∧
    ((r < 0 ∧ resp = r ∧ calls evs = [Submit (Some pkt) r]) ∨
     (¬ r < 0 ∧ ∃ ys last,
        calls evs = Submit (Some pkt) r :: map Pull ys ++ [Pull last] ∧
        Forall (yield_code X) ys ∧ ¬ yield_code X last ∧
        resp = (if decide (last = AVERROR_EAGAIN X ∨ last = AVERROR_EOF X)
                then 0 else last))).
Proof.
  unfold decode_packet. intros H.
  apply bind_ret_inv in H as ([r c] & W1 & Hsend & H).
  apply send_packet_returned in Hsend.
  destruct (decide (r < 0)) as [Hneg|Hneg].
  - injection H as <- _ _ <-. eexists [EvSendPacket (Some pkt) r; EvLog _], r.
    split; [simpl; rewrite Hsend, <- app_assoc; reflexivity|]. by left.
  - apply receive_loop_pulls in H
      as (evs & ys & last & Ht & Hp & Hys & Hlast & Hresp & Hs & _).
    exists (EvSendPacket (Some pkt) r :: evs), r. split.
    { rewrite Ht, Hsend, <- app_assoc. done. }
    right. split; [done|]. exists ys, last. split_and!; try done.
    simpl. by rewrite (calls_pulls evs Hs), Hp, map_app.
Qed.

Lemma packet_loop_drained fuel vsi pkts :
  ∀ resp budget ctx pFrame,
    returns_drained X (packet_loop X fuel vsi pkts resp budget ctx pFrame).
Proof.
  induction pkts as [|pkt rest IH]; intros resp budget ctx pFrame W ex W' H;
    cbn [packet_loop] in H.
  { injection H as _ <-. exists [EvReadFrame None]. split; [done|]. constructor. }
  apply bind_ret_inv in H as ([] & W1 & Hread & H). injection Hread as <-.
  destruct (decide (stream_index pkt = vsi)) as [Hv|Hv].
  2: { apply bind_ret_inv in H as ([] & W2 & Hun & H). injection Hun as <-.
       apply IH in H as (evs & Ht & Hd).
       exists ([EvReadFrame (Some pkt); EvPacketUnref] ++ evs). split; [|done].
       rewrite Ht. simpl. by rewrite <- !app_assoc. }
  apply bind_ret_inv in H as ([] & W2 & Hlog & H). injection Hlog as <-.
  apply bind_ret_inv in H as ([[resp' c] fr] & W3 & Hdec & H).
  apply decode_packet_calls in Hdec as (devs & r & Ht3 & Hcase).
  assert (∀ tail : list event, calls tail = [] →
            calls ([EvReadFrame (Some pkt); EvLog "AVPacket->pts %ld"] ++ devs ++ tail)
            = calls devs) as Hcalls.
  { intros tail Htail. rewrite !calls_app, Htail, app_nil_r. done. }
  destruct (decide (resp' < 0)) as [Hneg|Hneg].
  { injection H as _ <-.
    exists ([EvReadFrame (Some pkt); EvLog "AVPacket->pts %ld"] ++ devs ++ []). split.
    { rewrite Ht3. simpl. by rewrite app_nil_r, <- !app_assoc. }
    rewrite Hcalls by done.
    destruct Hcase as [(Hr & _ & ->)|(Hr & ys & last & -> & Hys & Hlast & Hresp)].
    - by constructor.
    - apply drained_failed; [done|done|].
      destruct (decide (last = AVERROR_EAGAIN X ∨ last = AVERROR_EOF X)); [lia|].
      split; [done|lia]. }
  destruct Hcase as [(Hr & -> & _)|(Hr & ys & last & Hc & Hys & Hlast & Hresp)]; [done|].
  assert (last = AVERROR_EAGAIN X ∨ last = AVERROR_EOF X) as Hblocked.
  { destruct (decide (last = AVERROR_EAGAIN X ∨ last = AVERROR_EOF X)) as [|Hnb]; [done|].
    exfalso. apply Hlast. split; [done|lia]. }
  destruct (decide (budget - 1 ≤ 0)).
  { injection H as _ <-.
    exists ([EvReadFrame (Some pkt); EvLog "AVPacket->pts %ld"] ++ devs ++ []). split.
    { rewrite Ht3. simpl. by rewrite app_nil_r, <- !app_assoc. }
    rewrite Hcalls, Hc by done.
    change [Pull last] with (Pull last :: []).
    apply drained_packet; [done|done|done|constructor]. }
  apply bind_ret_inv in H as ([] & W4 & Hun & H). injection Hun as <-.
  apply IH in H as (evs & Ht & Hd).
  exists (([EvReadFrame (Some pkt); EvLog "AVPacket->pts %ld"] ++ devs ++ [EvPacketUnref])
          ++ evs).
  split.
  { rewrite Ht. cbn [trace]. rewrite Ht3. simpl. by rewrite <- !app_assoc. }
  rewrite calls_app, Hcalls, Hc by done.
  simpl. rewrite <- app_assoc. simpl. by apply drained_packet.
Qed.

Lemma rd_bind {A B} (c : M A) (k : A → M B) :
  (∀ W a W1, c W = (Ret a, W1) → ∃ l, trace W1 = trace W ++ l ∧ calls l = []) →
  (∀ a, returns_drained X (k a)) → returns_drained X (x <- c ;; k x).
Proof.
  intros Hc Hk W b W' H. apply bind_ret_inv in H as (a & W1 & Hrun & Hrest).
  destruct (Hc W a W1 Hrun) as (l & Ht1 & Hl).
  destruct (Hk a W1 b W' Hrest) as (evs & Ht2 & Hd).
  exists (l ++ evs). split; [by rewrite Ht2, Ht1, app_assoc|].
  by rewrite calls_app, Hl.
Qed.

Lemma rd_log {A} s (k : M A) : returns_drained X k → returns_drained X (logging s ;; k).
Proof.
  intros Hk. apply rd_bind; [|done]. intros W [] W1 [= <-]. by exists [EvLog s].
Qed.

Lemma rd_exit s : returns_drained X (logging s ;; ret (-1)).
Proof.
  intros W a W' [= _ <-]. exists [EvLog s]. split; [done|]. constructor.
Qed.

Lemma rd_run_packets fuel budget sel fc ctx pFrame :
  returns_drained X (run_packets X fuel budget sel fc ctx pFrame).
Proof.
  intros W code W' H. unfold run_packets in H.
  apply bind_ret_inv in H as (ex & W1 & Hloop & H).
  apply packet_loop_drained in Hloop as (evs & Ht & Hd).
  injection H as _ <-. exists (evs ++ EvLog releasing :: release_calls). split.
  - simpl. rewrite Ht, <- !app_assoc. done.
  - rewrite calls_app. simpl. by rewrite app_nil_r.
Qed.

Lemma rd_main_with budget fuel argc argv1 :
  returns_drained X (main_with X budget fuel argc argv1).
Proof.
  unfold main_with.
  destruct (decide _).
  { intros W a W' [= _ <-]. eexists [_]. split; [done|]. constructor. }
  apply rd_log.
  destruct (avformat_alloc_context X); cbn [negb]; [|apply rd_exit].
  apply rd_log.
  destruct (avformat_open_input X argv1) as [fc|]; [|apply rd_exit].
  do 2 apply rd_log.
  destruct (decide _); [apply rd_exit|].
  apply rd_bind.
  { intros W sel W1 Hrun.
    destruct (stream_loop_runs X (streams fc) 0 (mkSel (-1) None None) W)
      as (sel' & W1' & evs & [Hrun' Ht] & Hlog & _); [lia|].
    rewrite Hrun in Hrun'. injection Hrun' as _ <-.
    exists evs. split; [done|]. by apply calls_logs. }
  intros sel.
  destruct (decide _); [apply rd_exit|].
  destruct (avcodec_alloc_context3 X (pCodec sel)) as [ctx|]; [|apply rd_exit].
  destruct (avcodec_parameters_to_context X ctx (pCodecParameters sel)) as [r1 ctx1].
  destruct (decide _); [apply rd_exit|].
  destruct (avcodec_open2 X ctx1 (pCodec sel)) as [r2 ctx2].
  destruct (decide _); [apply rd_exit|].
  apply rd_bind.
  { intros W a W1 [= _ <-]. exists []. by rewrite app_nil_r. }
  intros [pFrame|]; [|apply rd_exit].
  destruct (av_packet_alloc X); cbn [negb]; [|apply rd_exit].
  apply rd_run_packets.
Qed.

End Drained.

(** ** The pipeline *)

Section Pipeline.

Context {D : Type} (X : Extern D).

(** C1, as the code has it.  The budget of five counts the packets of the
    video stream that are submitted, not the frames.  In a benign
    environment the run returns.  Every packet the decoder accepts is
    followed by pulls, repeated until the first response that is not a frame
    (would-block, end of stream or an error), and no decoder call follows a
    rejected packet or a failed pull.  One grayscale and one colour file are
    opened for every frame pulled, so that none is dropped.  The packets
    submitted are the first [k] packets of the selected stream, with [k] at
    most five and, when no decode error occurred, [k] equal to the minimum
    of five and the number of packets of that stream. *)
Theorem exports_follow_packet_budget fuel argc argv1 W :
  benign X fuel →
  ∃ code W' evs,
    runs (main X fuel argc argv1) W code W' evs ∧
    drained X (calls evs) ∧
    names_with ".pgm" (opened evs) = count (is_yield X) evs ∧
    names_with ".ppm" (opened evs) = count (is_yield X) evs ∧
    (length (sent evs) ≤ 5)%nat ∧
    ∀ fc, avformat_open_input X argv1 = Some fc →
      let vp := videos (selected_index X (streams fc)) (packets fc) in
      ∃ k : nat, sent evs = map Some (take k vp) ∧ (k ≤ length vp)%nat ∧
        (count (is_decode_error X) evs = 0%nat → code = 0 →
         k = Nat.min 5 (length vp)).
Proof.
  intros HX.
  destruct (main_with_runs X fuel HX 5 argc argv1 W)
    as (code & W' & evs & Hrun & (nums & pkts & errs & Hsum & Hlen & _ & Hpk) & _).
  destruct Hsum as [Ho Hy Hs He].
  destruct (names_with_two_names nums) as [Hg Hc].
  exists code, W', evs. split_and!.
  - done.
  - destruct Hrun as [Hrun Ht].
    destruct (rd_main_with X 5 fuel argc argv1 W code W' Hrun) as (evs' & Ht' & Hd).
    rewrite Ht in Ht'. by apply app_inv_head in Ht' as <-.
  - by rewrite Ho, Hy.
  - by rewrite Ho, Hy.
  - rewrite Hs, length_map. simpl in Hlen. lia.
  - intros fc Hfc vp. destruct (Hpk fc Hfc) as (k & Hk & Hkl & Hmin).
    exists k. rewrite Hs, Hk. split; [done|]. split; [done|].
    rewrite He. intros H0 Hcode. by apply Hmin.
Qed.

(** C9.  In the packet loop the counter is decremented exactly once for each
    packet of the selected stream that was decoded without error, after it
    was decoded and whatever number of frames it yielded, and never
    otherwise.  The packets submitted are the first [k] packets of the
    selected stream, so that no packet of another stream reaches the
    decoder; when the loop is left the counter has lost [k], one less when
    the last submission ended in a decode error; and [k] is the number of
    packets of the selected stream, or the budget when that is smaller
    (one at least), unless a decode error ended the loop before. *)
Theorem budget_counts_video_packets fuel vsi pkts budget ctx pFrame W :
  benign X fuel →
  let vp := filter (λ p, stream_index p = vsi) pkts in
  ∃ ex W' evs (k : nat),
    runs (packet_loop X fuel vsi pkts 0 budget ctx pFrame) W ex W' evs ∧
    sent evs = map Some (take k vp) ∧
    (k ≤ length vp)%nat ∧
    (∀ p, Some p ∈ sent evs → stream_index p = vsi) ∧
    exit_budget ex
    = budget - (Z.of_nat k - (if decide (exit_response ex < 0) then 1 else 0)) ∧
    count (is_decode_error X) evs
    = (if decide (exit_response ex < 0)%Z then 1%nat else 0%nat) ∧
    (¬ exit_response ex < 0 →
     k = Nat.min (Z.to_nat (Z.max budget 1)) (length vp)) ∧
    drained X (calls evs).
Proof.
  intros HX vp.
  destruct (packet_loop_runs X fuel HX vsi pkts 0 budget ctx pFrame W)
    as (ex & W' & evs & nums & k & Hrun & [Ho Hy Hs He] & Hk & Hkl & _ & Hmin & _); [lia|].
  exists ex, W', evs, k. split_and!; try done.
  - intros p Hp. rewrite Hs in Hp. apply list_elem_of_fmap in Hp as (q & [= <-] & Hq).
    apply elem_of_take in Hq as (i & Hq & _). apply list_elem_of_lookup_2 in Hq.
    unfold videos in Hq. by apply list_elem_of_filter in Hq as [? _].
  - lia.
  - destruct Hrun as [Hrun Ht].
    destruct (packet_loop_drained X fuel vsi pkts 0 budget ctx pFrame W ex W' Hrun)
      as (evs' & Ht' & Hd).
    rewrite Ht in Ht'. by apply app_inv_head in Ht' as <-.
Qed.

End Pipeline.

(** *** Concrete runs *)

(** Three packets of two pictures each: the three are submitted and drained,
    and six files of each kind are opened. *)
Lemma exports_follow_packet_budget_witness :
  ∃ code W' evs,
    runs (main (Toy.good six_in_three) 9 2 "in.mp4") Toy.W0 code W' evs ∧
    drained (Toy.good six_in_three) (calls evs) ∧
    names_with ".pgm" (opened evs) = 6%nat ∧
    names_with ".ppm" (opened evs) = 6%nat ∧
    sent evs = map Some six_in_three.
Proof.
  destruct (exports_follow_packet_budget (Toy.good six_in_three) 9 2 "in.mp4" Toy.W0)
    as (code & W' & evs & Hrun & Hd & Hg & Hc & _ & Hk).
  - apply toy_benign.
  - exists code, W', evs. split; [exact Hrun|]. split; [exact Hd|].
    destruct Hrun as [Hrun Ht].
    assert (evs = trace (main (Toy.good six_in_three) 9 2 "in.mp4" Toy.W0).2) as Hevs.
    { rewrite Hrun. symmetry. exact Ht. }
    assert (count (is_yield (Toy.good six_in_three)) evs = 6%nat) as Hy.
    { rewrite Hevs. vm_compute. reflexivity. }
    rewrite Hg, Hc, Hy. split; [reflexivity|]. split; [reflexivity|].
    rewrite Hevs. vm_compute. reflexivity.
Defined.

(** An audio packet, then three video packets, with a budget of five: the
    three video packets are submitted, and the counter is left at two. *)
Lemma budget_counts_video_packets_witness :
  ∃ ex W' evs,
    runs (packet_loop (Toy.good []) 9 1 (Toy.audio :: six_in_three) 0 5
            (Toy.mkCtx 0 0 false) blank_frame) Toy.W0 ex W' evs ∧
    sent evs = map Some six_in_three ∧
    exit_budget ex = 2.
Proof.
  destruct (budget_counts_video_packets (Toy.good []) 9 1 (Toy.audio :: six_in_three) 5
              (Toy.mkCtx 0 0 false) blank_frame Toy.W0)
    as (ex & W' & evs & k & Hrun & Hs & Hkl & _ & Hb & _ & Hmin & _).
  - apply toy_benign.
  - exists ex, W', evs. split; [exact Hrun|].
    destruct Hrun as [Hrun _].
    assert (exit_response ex = 0) as Hresp.
    { vm_compute in Hrun. by injection Hrun as <- _. }
    rewrite Hresp in Hb, Hmin. rewrite decide_False in Hb by lia.
    assert (k = 3%nat) as -> by (apply Hmin; lia).
    split; [exact Hs|exact Hb].
Defined.

(** ** What the exporters report *)

Section Reports.

Context {D : Type} (X : Extern D).

(** The row loop makes one write per row, in row order, each of the bytes of
    that row, whatever part of them the file takes. *)
Lemma row_loop_exact name p stride n count i W :
  (∀ j, i ≤ j < i + Z.of_nat count → is_Some (load (heap W) (ptr_add p (j * stride)) n)) →
  ∃ W' ks,
    for_loop count i (λ i, fwrite X (ptr_add p (i * stride)) n (Some name) ;; ret tt) W
    = (Ret tt, W') ∧
    heap W' = heap W ∧
    length ks = count ∧
    trace W'
    = trace W ++ zip_with (λ row k, EvFwrite (Some name) row k)
                   (plane_rows (heap W) p stride n i count) ks.
Proof.
  revert i W. induction count as [|count IH]; intros i W Hrd.
  - exists W, []. split_and!; try done. simpl. by rewrite app_nil_r.
  - destruct (Hrd i) as [bs Hbs]; [lia|].
    destruct (fwrite_spec X name _ _ _ _ Hbs) as (k & W1 & Hrun & (Hh1 & _ & Ht1) & _).
    destruct (IH (i + 1) W1) as (W' & ks & Hloop & Hh & Hlen & Ht).
    { intros j Hj. rewrite Hh1. apply Hrd. lia. }
    exists W', (k :: ks). split_and!.
    + simpl. unfold bind at 1. unfold bind at 1. rewrite Hrun. simpl. done.
    + congruence.
    + simpl. by rewrite Hlen.
    + rewrite Ht, Ht1, Hh1. simpl. rewrite Hbs. simpl. by rewrite <- app_assoc.
Qed.

(** C8, as the code has it.  Neither exporter reports anything.  When its
    file opens (and, for the colour exporter, the destination picture and
    the scaler are obtained), an exporter makes exactly these calls: it
    opens the file, writes the header through the valid handle, (converts,
    for the colour exporter,) writes every row of the picture through that
    handle, one write per row and in row order, and closes the file; then it
    returns.  This holds whatever part of each write the file takes: a write
    that falls short is not detected, nothing is printed or logged, and the
    caller goes on with the next export. *)
Theorem exporters_report_nothing fr fnumber ls blk W :
  let gname := gray_filename fnumber in
  let cname := rgb_filename fnumber in
  let b := fresh (dom (heap W)) in
  fopen_ok X gname = true →
  fopen_ok X cname = true →
  plane_readable (heap W) (data_at fr 0) (linesize_at fr 0) (width fr) (height fr) →
  av_frame_alloc X (heap W) = true →
  av_image_alloc X (heap W) (width fr) (height fr) dst_pix_fmt 1 = Some (ls, blk) →
  image_fits ls blk (width fr) (height fr) →
  sws_getContext X (rgb_scaler fr) = true →
  ∃ W1 W2 ks1 ks2,
    save_gray_frame X (data_at fr 0) (linesize_at fr 0) (width fr) (height fr) fnumber W
    = (Ret tt, W1) ∧
    trace W1
    = trace W
      ++ [EvFopen gname (Some gname);
          EvFprintf (Some gname) (gray_header (width fr) (height fr))]
      ++ zip_with (λ row k, EvFwrite (Some gname) row k)
           (plane_rows (heap W) (data_at fr 0) (linesize_at fr 0) (width fr) 0
              (Z.to_nat (height fr))) ks1
      ++ [EvFclose (Some gname)] ∧
    length ks1 = Z.to_nat (height fr) ∧
    save_rgb_frame X fr fnumber W1 = (Ret tt, W2) ∧
    trace W2
    = trace W1
      ++ [EvFopen cname (Some cname);
          EvFprintf (Some cname) (rgb_header (width fr) (height fr));
          EvSwsScale (rgb_scaler fr) (data fr) [Some (b, 0)]; EvSwsFree]
      ++ zip_with (λ row k, EvFwrite (Some cname) row k)
           (plane_rows (heap W2) (Some (b, 0)) (default 0 (ls !! 0%nat)) (width fr * 3) 0
              (Z.to_nat (height fr))) ks2
      ++ [EvFclose (Some cname)] ∧
    length ks2 = Z.to_nat (height fr).
Proof.
  intros gname cname b Hog Hoc Hrd Hfa Hia [Hw Hfit] Hsws.
  (* the grayscale export *)
  destruct (fopen_ok_spec X gname W Hog) as (Wa & Hra & Hea & _).
  destruct (fprintf_spec X gname (gray_header (width fr) (height fr)) Wa)
    as (ka & Wb & Hrb & Heb & _).
  pose proof (file_effect_trans _ _ _ _ _ _ Hea Heb) as (Hhb & _ & Htb).
  destruct (row_loop_exact gname (data_at fr 0) (linesize_at fr 0) (width fr)
              (Z.to_nat (height fr)) 0 Wb) as (Wc & ks1 & Hrc & Hhc & Hl1 & Htc).
  { intros j Hj. rewrite Hhb. apply Hrd. lia. }
  destruct (fclose_spec gname Wc) as (W1 & Hrd1 & (Hh1 & _ & Ht1) & _).
  assert (heap W1 = heap W) as HhW1 by congruence.
  (* the colour export *)
  destruct (fopen_ok_spec X cname W1 Hoc) as (Wd & Hre & Hee & _).
  destruct (fprintf_spec X cname (rgb_header (width fr) (height fr)) Wd)
    as (kc & We & Hrf & Hef & _).
  pose proof (file_effect_trans _ _ _ _ _ _ Hee Hef) as (Hhe & _ & Hte).
  assert (heap We = heap W) as HhWe by congruence.
  set (out := sws_scale X (rgb_scaler fr) (<[b:=blk]> (heap W)) (data fr) (linesize fr)
                0 (height fr) ls).
  set (new := overwrite blk 0 out).
  set (Wf := mkWorld (<[b:=new]> (heap W)) (files We)
               (trace We ++ [EvSwsScale (rgb_scaler fr) (data fr) [Some (b, 0)]; EvSwsFree])).
  destruct (row_loop_exact cname (Some (b, 0)) (default 0 (ls !! 0%nat)) (width fr * 3)
              (Z.to_nat (height fr)) 0 Wf) as (Wg & ks2 & Hrg & Hhg & Hl2 & Htg).
  { intros j Hj. simpl. rewrite lookup_insert_eq. unfold new.
    rewrite overwrite_length. destruct (Hfit j) as [? ?]; [lia|].
    rewrite decide_True by lia. done. }
  destruct (fclose_spec cname Wg) as (W2 & Hrh & (Hh2 & _ & Ht2) & _).
  exists W1, W2, ks1, ks2. split_and!.
  - unfold save_gray_frame. fold gname.
    rewrite (bind_ret_eq _ _ _ _ _ Hra), (bind_ret_eq _ _ _ _ _ Hrb),
      (bind_ret_eq _ _ _ _ _ Hrc). exact Hrd1.
  - rewrite Ht1, Htc, Htb, Hhb, <- !app_assoc. done.
  - done.
  - unfold save_rgb_frame. fold cname.
    rewrite (bind_ret_eq _ _ _ _ _ Hre), (bind_ret_eq _ _ _ _ _ Hrf).
    erewrite bind_ret_eq; [|apply allocateFrame_spec; rewrite HhWe; eassumption].
    rewrite HhWe. fold b. cbn [width height data linesize].
    unfold get_scaler. unfold bind at 1. unfold ret at 1.
    change (mkSws _ _ _ _ _ _ _) with (rgb_scaler fr). rewrite Hsws.
    unfold bind at 1. unfold scale. simpl.
    rewrite lookup_insert_eq. rewrite decide_True by lia. simpl.
    rewrite insert_insert_eq. fold out. fold new.
    unfold bind at 1, emit. simpl.
    rewrite <- app_assoc. simpl. fold Wf.
    unfold data_at, linesize_at. simpl.
    rewrite (bind_ret_eq _ _ _ _ _ Hrg). exact Hrh.
  - rewrite Ht2, Htg, Hh2, Hhg. simpl. rewrite Hte, <- !app_assoc. done.
  - done.
Qed.

End Reports.

(** *** Concrete runs *)

(** C8 fails on the code.  When the file cannot be opened, the exporter
    logs nothing and writes the header through the null handle, which is
    undefined behaviour.  When the file opens but takes no byte, the
    exporter closes it and returns as if all was well: the file is empty and
    nothing was printed or logged. *)
Lemma exporter_reports_no_io_error :
  let refused := Toy.lib [] [] (λ _, false) (λ _ _ n, n) in
  let full := Toy.lib [] [] (λ _, true) (λ _ _ _, 0%nat) in
  let r := save_gray_frame full (Some (0%nat, 0)) 4 3 2 1 Toy.W1 in
  save_gray_frame refused (Some (0%nat, 0)) 4 3 2 1 Toy.W1
  = (Undefined NullFile,
     mkWorld (heap Toy.W1) ∅
       [EvFopen "frame-1.pgm" None; EvFprintf None (gray_header 3 2)]) ∧
  r.1 = Ret tt ∧
  files r.2 !! "frame-1.pgm" = Some [] ∧
  Forall (λ e, match e with EvLog _ | EvStderr _ | EvStdout _ => False | _ => True end)
    (trace r.2).
Proof. vm_compute. split_and!; try reflexivity. repeat constructor. Qed.

(** Both exporters on the toy picture, in a file system that takes one byte
    of every write: both files are written, closed, and nothing is printed. *)
Lemma exporters_report_nothing_witness :
  ∃ W1 W2,
    save_gray_frame (Toy.lib [] [] (λ _, true) (λ _ _ _, 1%nat))
      (Some (0%nat, 0)) 4 3 2 1 Toy.W1 = (Ret tt, W1) ∧
    save_rgb_frame (Toy.lib [] [] (λ _, true) (λ _ _ _, 1%nat)) Toy.frame 1 W1
    = (Ret tt, W2) ∧
    closed (trace W2) = ["frame-1.pgm"; "frame-1.ppm"] ∧
    length (List.filter (λ e, match e with EvFwrite _ _ _ => true | _ => false end)
              (trace W2)) = 4%nat ∧
    Forall (λ e, match e with EvLog _ | EvStderr _ | EvStdout _ => False | _ => True end)
      (trace W2).
Proof.
  destruct (exporters_report_nothing (Toy.lib [] [] (λ _, true) (λ _ _ _, 1%nat))
              Toy.frame 1 [9] (replicate 18 x00) Toy.W1)
    as (W1 & W2 & ks1 & ks2 & Hr1 & Ht1 & Hl1 & Hr2 & Ht2 & Hl2).
  - reflexivity.
  - reflexivity.
  - exact toy_plane_readable.
  - reflexivity.
  - reflexivity.
  - split; [simpl; lia|]. intros i Hi.
    change (0 ≤ i < 2) in Hi. change (0 ≤ i * 9 ∧ i * 9 + 3 * 3 ≤ 18). lia.
  - reflexivity.
  - exists W1, W2. split; [exact Hr1|]. split; [exact Hr2|].
    destruct ks1 as [|a1 [|a2 [|a3 ks1]]]; try discriminate Hl1.
    destruct ks2 as [|c1 [|c2 [|c3 ks2]]]; try discriminate Hl2.
    rewrite Ht2, Ht1. split_and!.
    + reflexivity.
    + reflexivity.
    + repeat constructor.
Defined.

(** ** The frame counter in the file names *)

Lemma counted_counts_frames {D} (L : Extern D) : counts_frames (counted L).
Proof.
  split.
  - intros [n d] p. simpl. by destruct (avcodec_send_packet L d p).
  - intros [n d] h r fr [n' d'] h' Hrecv Hy. simpl in *.
    destruct (avcodec_receive_frame L d h) as [[[r0 fr0] d0] h0].
    injection Hrecv as -> -> <- -> ->. by rewrite decide_True.
  - intros [n d] h r fr [n' d'] h' Hrecv Hy. simpl in *.
    destruct (avcodec_receive_frame L d h) as [[[r0 fr0] d0] h0].
    injection Hrecv as -> -> <- -> ->. by rewrite decide_False.
  - intros [n d] c. simpl. by destruct (avcodec_open2 L d c).
Qed.

Lemma frame_names_app c0 m1 m2 :
  frame_names c0 (m1 + m2)
  = frame_names c0 m1 ++ frame_names (c0 + Z.of_nat m1) m2.
Proof.
  unfold frame_names. rewrite Nat2Z.inj_add, seqZ_app by lia.
  rewrite flat_map_app. do 3 f_equal. lia.
Qed.

Lemma frame_names_NoDup c0 m : NoDup (frame_names c0 m).
Proof. apply two_names_NoDup, NoDup_seqZ. Qed.

Section Numbering.

Context {D : Type} (X : Extern D) (HC : counts_frames X).

Lemma plain_profile evs :
  Forall (plain_call X) evs → opened evs = [] ∧ count (is_yield X) evs = 0%nat.
Proof.
  induction 1 as [|e evs [Ho Hy] _ [IHo IHy]]; [done|].
  change (e :: evs) with ([e] ++ evs). by rewrite opened_app, count_app, Ho, Hy, IHo, IHy.
Qed.

Lemma numbers_plain {A} pin c0 (c : M A) :
  emits (plain_call X) c → numbers X pin c0 (λ _, (pin, c0)) c.
Proof.
  intros Hc W. destruct (Hc W) as (evs & Ht & Hev). exists evs. split; [done|].
  apply plain_profile in Hev as [Ho Hy]. unfold numbered. rewrite Ho, Hy.
  destruct ((c W).1); simpl; rewrite ?app_nil_r; [split; [done|lia]|apply prefix_nil..].
Qed.

Lemma numbers_ret {A} pin c0 (a : A) post :
  post a = (pin, c0) → numbers X pin c0 post (ret a).
Proof.
  intros Hpost W. exists []. split; [by rewrite app_nil_r|].
  unfold numbered, count. simpl. rewrite Hpost. simpl. rewrite app_nil_r. split; [done|lia].
Qed.

Lemma numbers_bind {A B} pin c0 post1 post2 (c : M A) (k : A → M B) :
  numbers X pin c0 post1 c →
  (∀ a, numbers X (post1 a).1 (post1 a).2 post2 (k a)) →
  numbers X pin c0 post2 (x <- c ;; k x).
Proof.
  intros Hc Hk W. unfold bind. destruct (Hc W) as (e1 & Ht1 & Hn1).
  destruct (c W) as [[a|u|] W1]; simpl in *; [|by exists e1..].
  destruct (Hk a W1) as (e2 & Ht2 & Hn2). exists (e1 ++ e2).
  split; [by rewrite Ht2, Ht1, app_assoc|].
  unfold numbered in *. destruct (post1 a) as [p1 c1]. simpl in *.
  destruct Hn1 as [Ho1 ->]. rewrite count_app, opened_app, frame_names_app.
  destruct ((k a W1).1) as [b|u|].
  - destruct (post2 b) as [p2 c2]. destruct Hn2 as [Ho2 ->]. split; [|lia].
    rewrite <- app_assoc, Ho2, !app_assoc, Ho1. done.
  - rewrite app_assoc, <- Ho1, <- app_assoc. by apply prefix_app.
  - rewrite app_assoc, <- Ho1, <- app_assoc. by apply prefix_app.
Qed.

(** *** The exporters *)

Ltac one_call := apply emits_step; intros W.
Ltac called := right; eexists; (split; [|reflexivity]); done.

Lemma te_fprintf f s : emits tail_event (fprintf X f s).
Proof.
  unfold fprintf. apply emits_bind; [by apply emits_emit|]. intros _.
  destruct f as [name|]; [|apply emits_undefined]. one_call. by left.
Qed.

Lemma te_fwrite p n f : emits tail_event (fwrite X p n f).
Proof.
  one_call. unfold fwrite, put_bytes. destruct f as [name|]; simpl.
  - destruct (load (heap W) p n); simpl; [called|by left].
  - called.
Qed.

Lemma te_fclose f : emits tail_event (fclose f).
Proof.
  unfold fclose. apply emits_bind; [by apply emits_emit|]. intros _.
  destruct f; [apply emits_ret|apply emits_undefined].
Qed.

Lemma te_rows f p stride n count i :
  emits tail_event
    (for_loop count i (λ i, fwrite X (ptr_add p (i * stride)) n f ;; ret tt)).
Proof.
  apply emits_for_loop. intros j. apply emits_bind; [apply te_fwrite|].
  intros _. apply emits_ret.
Qed.

Lemma te_allocateFrame w h : emits tail_event (allocateFrame X w h).
Proof.
  unfold allocateFrame. apply emits_bind; [one_call; by left|]. intros fr.
  apply emits_bind; [apply emits_when; by apply emits_emit|]. intros _.
  destruct fr as [fr|]; [|apply emits_undefined].
  apply emits_bind.
  { one_call. left. unfold image_alloc. by destruct (av_image_alloc _ _ _ _ _ _) as [[]|]. }
  intros [r fr']. apply emits_bind; [apply emits_when; by apply emits_emit|].
  intros _. apply emits_ret.
Qed.

Lemma tail_profile evs :
  Forall tail_event evs → opened evs = [] ∧ count (is_yield X) evs = 0%nat.
Proof. induction 1 as [|e evs He _ IH]; [done|]. by destruct e. Qed.

(** An export opens its file or no file, whatever follows. *)
Lemma opens_any {A} name (tail : FILE → M A) W :
  (∀ f, emits tail_event (tail f)) →
  ∃ evs,
    trace ((f <- fopen X name ;; tail f) W).2 = trace W ++ evs ∧
    count (is_yield X) evs = 0%nat ∧
    (opened evs = [] ∨ opened evs = [name]).
Proof.
  intros Htail. unfold bind, fopen. destruct (fopen_ok X name); cbv beta iota.
  - destruct (Htail (Some name)
                (mkWorld (heap W) (<[name:=[]]> (files W))
                   (trace W ++ [EvFopen name (Some name)]))) as (evs & Ht & Hev).
    apply tail_profile in Hev as [Ho Hy].
    exists ([EvFopen name (Some name)] ++ evs). split; [rewrite Ht; simpl; by rewrite <- app_assoc|].
    rewrite count_app, opened_app, Ho, Hy. split; [done|by right].
  - destruct (Htail None
                (mkWorld (heap W) (files W) (trace W ++ [EvFopen name None])))
      as (evs & Ht & Hev).
    apply tail_profile in Hev as [Ho Hy].
    exists ([EvFopen name None] ++ evs). split; [rewrite Ht; simpl; by rewrite <- app_assoc|].
    rewrite count_app, opened_app, Ho, Hy. split; [done|by left].
Qed.

Lemma numbers_export {A} name rest c0 (c : M A) :
  (∀ W, ∃ evs,
      trace (c W).2 = trace W ++ evs ∧ count (is_yield X) evs = 0%nat ∧
      (opened evs = [] ∨ opened evs = [name])) →
  (∀ W a W', c W = (Ret a, W') →
     ∃ evs, trace W' = trace W ++ evs ∧ export_stretch name evs) →
  numbers X (name :: rest) c0 (λ _, (rest, c0)) c.
Proof.
  intros Hany Hret W. destruct (Hany W) as (evs & Ht & Hy & Ho).
  exists evs. split; [done|]. unfold numbered. rewrite Hy. simpl. rewrite !app_nil_r.
  destruct (c W) as [[a|u|] W1] eqn:E; simpl in *.
  - destruct (Hret W a W1 E) as (evs' & Ht' & Hs).
    rewrite Ht in Ht'. apply app_inv_head in Ht' as <-.
    apply (export_stretch_profile X) in Hs as (-> & _). split; [done|lia].
  - destruct Ho as [-> | ->]; [apply prefix_nil|by apply prefix_cons, prefix_nil].
  - destruct Ho as [-> | ->]; [apply prefix_nil|by apply prefix_cons, prefix_nil].
Qed.

Lemma numbers_save_gray_frame buf wrap xsize ysize n rest c0 :
  numbers X (gray_filename n :: rest) c0 (λ _, (rest, c0))
    (save_gray_frame X buf wrap xsize ysize n).
Proof.
  apply numbers_export.
  - intros W0. apply opens_any. intros f.
    apply emits_bind; [apply te_fprintf|]. intros _.
    apply emits_bind; [apply te_rows|]. intros _. apply te_fclose.
  - intros W [] W'. apply save_gray_frame_returned.
Qed.

Lemma numbers_save_rgb_frame fr n rest c0 :
  numbers X (rgb_filename n :: rest) c0 (λ _, (rest, c0)) (save_rgb_frame X fr n).
Proof.
  apply numbers_export.
  - intros W0. apply opens_any. intros f.
    apply emits_bind; [apply te_fprintf|]. intros _.
    apply emits_bind; [apply te_allocateFrame|]. intros frame_rgb.
    apply emits_bind; [apply emits_ret|]. intros c.
    apply emits_bind.
    { destruct c as [c|]; [|apply emits_undefined]. one_call. unfold scale.
      destruct (store _ _ _); called. }
    intros _. apply emits_bind; [by apply emits_emit|]. intros _.
    apply emits_bind; [apply te_rows|]. intros _. apply te_fclose.
  - intros W [] W'. apply save_rgb_frame_returned.
Qed.

(** *** The decoder *)

Lemma numbers_log {A} pin c0 post s (k : M A) :
  numbers X pin c0 post k → numbers X pin c0 post (logging s ;; k).
Proof.
  intros Hk. apply (numbers_bind _ _ (λ _, (pin, c0))); [|intros _; exact Hk].
  apply numbers_plain. by apply emits_emit.
Qed.

Lemma numbers_receive_frame ctx :
  numbers X [] (frame_number X ctx)
    (λ a, (if decide (yield_code X a.1.1) then two_names (frame_number X a.2) else [],
           frame_number X a.2))
    (receive_frame X ctx).
Proof.
  intros W. unfold receive_frame.
  destruct (avcodec_receive_frame X ctx (heap W)) as [[[r fr] c] h] eqn:Hrecv.
  exists [EvReceiveFrame r]. split; [done|]. unfold numbered, count. simpl.
  destruct (decide (yield_code X r)) as [Hy|Hy].
  - rewrite bool_decide_eq_true_2 by done. simpl.
    rewrite (counts_yield X HC _ _ _ _ _ _ Hrecv Hy).
    unfold frame_names. simpl. split; [|lia].
    unfold two_names. by replace (Z.of_nat 0 + (frame_number X ctx + 1)) with (frame_number X ctx + 1) by lia.
  - rewrite bool_decide_eq_false_2 by done. simpl.
    rewrite (counts_other X HC _ _ _ _ _ _ Hrecv Hy). split; [done|lia].
Qed.

Lemma numbers_receive_loop fuel :
  ∀ ctx pFrame,
    numbers X [] (frame_number X ctx) (λ a, ([], frame_number X a.1.2))
      (receive_loop X fuel ctx pFrame).
Proof.
  induction fuel as [|fuel IH]; intros ctx pFrame; simpl.
  { intros W. exists []. split; [by rewrite app_nil_r|]. apply prefix_nil. }
  eapply numbers_bind; [apply numbers_receive_frame|].
  intros [[r fr] c]. simpl.
  destruct (decide (r = AVERROR_EAGAIN X ∨ r = AVERROR_EOF X)) as [Hb|Hb].
  { rewrite decide_False by (by intros [? _]). by apply numbers_ret. }
  destruct (decide (r < 0)) as [Hneg|Hneg].
  { rewrite decide_False by (by intros [_ ?]).
    apply numbers_log. by apply numbers_ret. }
  rewrite decide_True by done.
  apply numbers_log.
  eapply (numbers_bind _ _ (λ _, (two_names (frame_number X c), frame_number X c))).
  { apply numbers_plain. apply emits_when. by apply emits_emit. }
  intros _. simpl.
  eapply (numbers_bind _ _ (λ _, ([rgb_filename (frame_number X c)], frame_number X c)));
    [apply numbers_save_gray_frame|]. intros _. simpl.
  eapply (numbers_bind _ _ (λ _, ([], frame_number X c)));
    [apply numbers_save_rgb_frame|]. intros _. simpl.
  apply IH.
Qed.

Lemma numbers_decode_packet fuel pkt ctx pFrame :
  numbers X [] (frame_number X ctx) (λ a, ([], frame_number X a.1.2))
    (decode_packet X fuel pkt ctx pFrame).
Proof.
  unfold decode_packet.
  eapply (numbers_bind _ _ (λ a, ([], frame_number X a.2))).
  { intros W. unfold send_packet.
    pose proof (counts_send X HC ctx (Some pkt)) as Hs.
    destruct (avcodec_send_packet X ctx (Some pkt)) as [r c]. simpl in *.
    exists [EvSendPacket (Some pkt) r]. split; [done|].
    unfold numbered, count. simpl. split; [done|lia]. }
  intros [r c]. simpl. destruct (decide _); [|apply numbers_receive_loop].
  apply numbers_log. by apply numbers_ret.
Qed.

Lemma numbers_packet_loop fuel vsi pkts :
  ∀ resp budget ctx pFrame,
    numbers X [] (frame_number X ctx) (λ ex, ([], frame_number X (exit_ctx ex)))
      (packet_loop X fuel vsi pkts resp budget ctx pFrame).
Proof.
  assert (∀ {A} e c0 post (k : M A),
            plain_call X e → numbers X [] c0 post k → numbers X [] c0 post (emit e ;; k))
    as Hemit.
  { intros A e c0 post k He Hk.
    apply (numbers_bind _ _ (λ _, ([], c0))); [|intros _; exact Hk].
    apply numbers_plain. by apply emits_emit. }
  induction pkts as [|pkt rest IH]; intros resp budget ctx pFrame; simpl.
  - apply Hemit; [done|]. by apply numbers_ret.
  - apply Hemit; [done|].
    destruct (decide _).
    + apply numbers_log.
      eapply numbers_bind; [apply numbers_decode_packet|]. intros [[r c] fr]. simpl.
      destruct (decide _); [by apply numbers_ret|].
      destruct (decide _); [by apply numbers_ret|].
      apply Hemit; [done|]. apply IH.
    + apply Hemit; [done|]. apply IH.
Qed.

(** *** The whole run *)

Lemma nbc_plain {A} (c : M A) : emits (plain_call X) c → names_by_counter X c.
Proof.
  intros Hc W. destruct (Hc W) as (evs & Ht & Hev). exists evs. split; [done|].
  apply plain_profile in Hev as [-> ->]. split; [apply prefix_nil|done].
Qed.

Lemma nbc_bind {A B} (c : M A) (k : A → M B) :
  emits (plain_call X) c → (∀ a, names_by_counter X (k a)) →
  names_by_counter X (x <- c ;; k x).
Proof.
  intros Hc Hk W. unfold bind. destruct (Hc W) as (e1 & Ht1 & Hev).
  apply plain_profile in Hev as [Ho1 Hy1].
  destruct (c W) as [[a|u|] W1]; simpl in *.
  - destruct (Hk a W1) as (e2 & Ht2 & Hpre & Hret). exists (e1 ++ e2).
    split; [by rewrite Ht2, Ht1, app_assoc|].
    by rewrite opened_app, count_app, Ho1, Hy1.
  - exists e1. split; [done|]. rewrite Ho1, Hy1. split; [apply prefix_nil|done].
  - exists e1. split; [done|]. rewrite Ho1, Hy1. split; [apply prefix_nil|done].
Qed.

Lemma nbc_log {A} s (k : M A) :
  names_by_counter X k → names_by_counter X (logging s ;; k).
Proof. intros Hk. apply nbc_bind; [by apply emits_emit|done]. Qed.

Lemma nbc_exit s : names_by_counter X (logging s ;; ret (-1)).
Proof.
  apply nbc_plain. apply emits_bind; [by apply emits_emit|]. intros _. apply emits_ret.
Qed.

Lemma nbc_run_packets fuel budget sel fc ctx pFrame :
  frame_number X ctx = 0 →
  names_by_counter X (run_packets X fuel budget sel fc ctx pFrame).
Proof.
  intros H0 W.
  destruct (numbers_packet_loop fuel (video_stream_index sel) (packets fc) 0 budget
              ctx pFrame W) as (evs & Ht & Hn).
  rewrite H0 in Hn. unfold numbered in Hn.
  destruct (packet_loop X fuel (video_stream_index sel) (packets fc) 0 budget
              ctx pFrame W) as [[ex|u|] W1] eqn:E; simpl in *.
  - assert (run_packets X fuel budget sel fc ctx pFrame W
            = (Ret 0, mkWorld (heap W1) (files W1)
                        (trace W1 ++ EvLog releasing :: release_calls))) as ->.
    { unfold run_packets, bind at 1. rewrite E. unfold bind, logging, emit, ret. simpl.
      by rewrite <- !app_assoc. }
    destruct Hn as [Ho _]. rewrite app_nil_r in Ho.
    exists (evs ++ EvLog releasing :: release_calls). split.
    { simpl. rewrite Ht, <- !app_assoc. done. }
    rewrite opened_app, count_app. simpl. rewrite app_nil_r, Nat.add_0_r, Ho. done.
  - assert (run_packets X fuel budget sel fc ctx pFrame W = (Undefined u, W1)) as ->.
    { unfold run_packets, bind at 1. by rewrite E. }
    exists evs. by split_and!.
  - assert (run_packets X fuel budget sel fc ctx pFrame W = (OutOfFuel, W1)) as ->.
    { unfold run_packets, bind at 1. by rewrite E. }
    exists evs. by split_and!.
Qed.

Lemma stream_loop_plain ss i sel :
  0 ≤ i → emits (plain_call X) (stream_loop X i ss sel).
Proof.
  intros Hi W.
  destruct (stream_loop_runs X ss i sel W Hi) as (sel' & W' & evs & [Hrun Ht] & Hlog & _).
  exists evs. rewrite Hrun. split; [done|].
  eapply Forall_impl; [exact Hlog|]. by intros [].
Qed.

Lemma nbc_main_with budget fuel argc argv1 :
  names_by_counter X (main_with X budget fuel argc argv1).
Proof.
  unfold main_with.
  destruct (decide _).
  { apply nbc_plain. apply emits_bind; [by apply emits_emit|]. intros _. apply emits_ret. }
  apply nbc_log.
  destruct (avformat_alloc_context X); cbn [negb]; [|apply nbc_exit].
  apply nbc_log.
  destruct (avformat_open_input X argv1) as [fc|]; [|apply nbc_exit].
  do 2 apply nbc_log.
  destruct (decide _); [apply nbc_exit|].
  apply nbc_bind; [by apply stream_loop_plain|]. intros sel.
  destruct (decide _); [apply nbc_exit|].
  destruct (avcodec_alloc_context3 X (pCodec sel)) as [ctx|]; [|apply nbc_exit].
  destruct (avcodec_parameters_to_context X ctx (pCodecParameters sel)) as [r1 ctx1].
  destruct (decide _); [apply nbc_exit|].
  pose proof (counts_open X HC ctx1 (pCodec sel)) as H0.
  destruct (avcodec_open2 X ctx1 (pCodec sel)) as [r2 ctx2]. simpl in H0.
  destruct (decide _); [apply nbc_exit|].
  apply nbc_bind.
  { apply emits_step. intros W. by left. }
  intros [pFrame|]; [|apply nbc_exit].
  destruct (av_packet_alloc X); cbn [negb]; [|apply nbc_exit].
  by apply nbc_run_packets.
Qed.

End Numbering.

(** C4.  The frame counter is the decoder session's, modelled from the
    specification by [counted]: it is zero when the session is opened, a
    pull that hands over a frame adds one to it, and no other call changes
    it; so it is strictly increasing, by one per decoded frame, and it is 1
    when the first frame is decoded.  Over any run, whatever the library
    answers and however the run ends, the files opened are named by that
    counter, read when the frame is decoded: they are the first of
    [frame-1.pgm], [frame-1.ppm], [frame-2.pgm], [frame-2.ppm], ..., up to
    the number of frames pulled, and no name is used twice.  When the run
    returns they are all of them, two for every frame pulled, and every
    packet the decoder accepted was drained of its frames. *)
Theorem frame_counter_names_files {D} (L : Extern D) fuel argc argv1 W :
  let X := counted L in
  counts_frames X ∧
  ∃ evs,
    trace (main X fuel argc argv1 W).2 = trace W ++ evs ∧
    let names :=
      flat_map (λ n, ["frame-" +:+ pretty n +:+ ".pgm"; "frame-" +:+ pretty n +:+ ".ppm"])
        (seqZ 1 (Z.of_nat (count (is_yield X) evs))) in
    opened evs `prefix_of` names ∧
    NoDup (opened evs) ∧
    ∀ code W', main X fuel argc argv1 W = (Ret code, W') →
      opened evs = names ∧ drained X (calls evs).
Proof.
  intros X. split; [apply counted_counts_frames|].
  destruct (nbc_main_with X (counted_counts_frames L) 5 fuel argc argv1 W)
    as (evs & Ht & Hpre & Hret).
  exists evs. split; [done|]. split_and!.
  - exact Hpre.
  - destruct Hpre as [k Hk].
    pose proof (frame_names_NoDup 0 (count (is_yield X) evs)) as Hnd.
    rewrite Hk in Hnd. by apply NoDup_app in Hnd as [? _].
  - intros code W' Hrun. unfold main in Hrun. split.
    + apply (Hret code). by rewrite Hrun.
    + destruct (rd_main_with X 5 fuel argc argv1 W code W' Hrun) as (evs' & Ht' & Hd).
      rewrite Hrun in Ht. simpl in Ht. rewrite Ht in Ht'.
      by apply app_inv_head in Ht' as <-.
Qed.

(** The run on three packets of two pictures each opens the twelve files of
    frames one to six, in this order. *)
Lemma frame_counter_names_files_witness :
  opened (trace (main (counted (Toy.good six_in_three)) 9 2 "in.mp4" Toy.W0).2)
  = ["frame-1.pgm"; "frame-1.ppm"; "frame-2.pgm"; "frame-2.ppm";
     "frame-3.pgm"; "frame-3.ppm"; "frame-4.pgm"; "frame-4.ppm";
     "frame-5.pgm"; "frame-5.ppm"; "frame-6.pgm"; "frame-6.ppm"].
Proof.
  destruct (frame_counter_names_files (Toy.good six_in_three) 9 2 "in.mp4" Toy.W0)
    as (_ & evs & Ht & _ & _ & Hret).
  assert (main (counted (Toy.good six_in_three)) 9 2 "in.mp4" Toy.W0
          = (Ret 0, (main (counted (Toy.good six_in_three)) 9 2 "in.mp4" Toy.W0).2))
    as Hrun.
  { vm_compute. reflexivity. }
  destruct (Hret 0 _ Hrun) as [Ho _].
  change (trace Toy.W0 ++ evs) with evs in Ht. rewrite Ht, Ho.
  assert (count (is_yield (counted (Toy.good six_in_three))) evs = 6%nat) as ->.
  { rewrite <- Ht. vm_compute. reflexivity. }
  vm_compute. reflexivity.
Defined.

(** ** The exporters when something is missing *)

Section Missing.

Context {D : Type} (X : Extern D).

(** [allocateFrame] only prints when an allocation fails, and
    [save_rgb_frame] does not test the scaler.  So when the file opens but
    the destination frame, its picture or the scaler is refused, the colour
    export has undefined behaviour: it uses the null frame, converts into a
    picture that does not exist, or uses the null scaler.  The calls made
    before that are [fopen], the [fprintf] of the header, the messages of
    [allocateFrame] on standard error and, for a missing picture, the
    [sws_scale] call itself: no row is written and the file is not closed.
    Nothing is said of the state of the file after that. *)
Theorem colour_export_without_resources fr n W :
  let name := rgb_filename n in
  let header := rgb_header (width fr) (height fr) in
  fopen_ok X name = true →
  av_frame_alloc X (heap W) = false ∨
  av_image_alloc X (heap W) (width fr) (height fr) dst_pix_fmt 1 = None ∨
  sws_getContext X (rgb_scaler fr) = false →
  ∃ W' evs,
    save_rgb_frame X fr n W
    = (Undefined (if av_frame_alloc X (heap W)
                  then if sws_getContext X (rgb_scaler fr) then BadAccess else NullScaler
                  else NullFrame), W') ∧
    trace W' = trace W ++ EvFopen name (Some name) :: EvFprintf (Some name) header :: evs ∧
    Forall (λ e, match e with EvStderr _ | EvSwsScale _ _ _ => True | _ => False end) evs.
Proof.
  intros name header Hopen Hfail. unfold save_rgb_frame. fold name header.
  destruct (fopen_ok_spec X name W Hopen) as (W1 & Hr1 & He1 & _).
  destruct (fprintf_spec X name header W1) as (k & W2 & Hr2 & He2 & _).
  assert (heap W2 = heap W) as Hh2.
  { destruct He1 as (? & _), He2 as (? & _). congruence. }
  pose proof (file_effect_trans _ _ _ _ _ _ He1 He2) as (_ & _ & Ht12).
  rewrite (bind_ret_eq _ _ _ _ _ Hr1), (bind_ret_eq _ _ _ _ _ Hr2).
  destruct (av_frame_alloc X (heap W)) eqn:Hfa.
  2: { unfold bind at 1. rewrite allocateFrame_no_frame by (by rewrite Hh2).
       eexists _, [_]. split; [reflexivity|]. simpl. rewrite Ht12, <- ?app_assoc.
       split; [done|by repeat constructor]. }
  destruct (av_image_alloc X (heap W) (width fr) (height fr) dst_pix_fmt 1)
    as [[ls blk]|] eqn:Hia.
  - destruct Hfail as [?|[?|Hs]]; [done|done|]. rewrite Hs.
    erewrite bind_ret_eq; [|apply allocateFrame_spec; rewrite Hh2; eassumption].
    cbn [width height data linesize]. unfold get_scaler. rewrite bind_ret_l.
    change (mkSws _ _ _ _ _ _ _) with (rgb_scaler fr). rewrite Hs.
    eexists _, []. split; [reflexivity|]. simpl. rewrite Ht12, <- ?app_assoc.
    split; [done|by constructor].
  - erewrite bind_ret_eq; [|apply allocateFrame_no_image; rewrite Hh2; eassumption].
    cbn [width height data linesize]. unfold get_scaler. rewrite bind_ret_l.
    change (mkSws _ _ _ _ _ _ _) with (rgb_scaler fr).
    destruct (sws_getContext X (rgb_scaler fr)) eqn:Hs.
    + unfold bind at 1. rewrite scale_null.
      eexists _, [_; _]. split; [reflexivity|]. simpl.
      rewrite Ht12, <- ?app_assoc.
      split; [done|by repeat constructor].
    + eexists _, [_]. split; [reflexivity|]. simpl. rewrite Ht12, <- ?app_assoc.
      split; [done|by repeat constructor].
Qed.

(** [save_gray_frame] does not check the bounds of the plane.  When the
    file opens and rows [0] to [j-1] of the plane can be read but row
    [j < ysize] does not lie inside its block, the export has undefined
    behaviour: after [fopen], the [fprintf] of the header and one write for
    each of the [j] rows before it, [fwrite] is handed bytes outside the
    block.  Nothing is said of what happens after that. *)
Theorem gray_export_reads_out_of_bounds buf wrap xsize ysize n j W :
  let name := gray_filename n in
  fopen_ok X name = true →
  0 ≤ j < ysize →
  (∀ i, 0 ≤ i < j → is_Some (load (heap W) (ptr_add buf (i * wrap)) xsize)) →
  load (heap W) (ptr_add buf (j * wrap)) xsize = None →
  ∃ W' evs,
    save_gray_frame X buf wrap xsize ysize n W = (Undefined BadAccess, W') ∧
    trace W' = trace W ++ EvFopen name (Some name)
                 :: EvFprintf (Some name) (gray_header xsize ysize) :: evs ∧
    Forall (row_write name) evs ∧
    length evs = Z.to_nat j.
Proof.
  intros name Hopen Hj Hrd Hbad. unfold save_gray_frame. fold name.
  destruct (fopen_ok_spec X name W Hopen) as (W1 & Hr1 & He1 & _).
  destruct (fprintf_spec X name (gray_header xsize ysize) W1)
    as (k & W2 & Hr2 & He2 & _).
  assert (heap W2 = heap W) as Hh2.
  { destruct He1 as (? & _), He2 as (? & _). congruence. }
  pose proof (file_effect_trans _ _ _ _ _ _ He1 He2) as (_ & _ & Ht12).
  destruct (row_loop_exact X name buf wrap xsize (Z.to_nat j) 0 W2)
    as (W3 & ks & Hr3 & Hh3 & Hlen & Ht3).
  { intros i Hi. rewrite Hh2. apply Hrd. lia. }
  eexists W3, _.
  rewrite (bind_ret_eq _ _ _ _ _ Hr1), (bind_ret_eq _ _ _ _ _ Hr2).
  replace (Z.to_nat ysize) with (Z.to_nat j + S (Z.to_nat ysize - Z.to_nat j - 1))%nat by lia.
  split_and!.
  - unfold bind at 1. rewrite for_loop_app. rewrite (bind_ret_eq _ _ _ _ _ Hr3).
    cbn [for_loop]. unfold bind, fwrite.
    replace (0 + Z.of_nat (Z.to_nat j)) with j by lia.
    by rewrite Hh3, Hh2, Hbad.
  - rewrite Ht3, Ht12, <- !app_assoc. reflexivity.
  - by eapply row_loop_writes.
  - rewrite length_zip_with, Hlen.
    assert (∀ h p s m i c, length (plane_rows h p s m i c) = c) as Hpl.
    { intros h p s m i c. revert i. induction c as [|c IH]; intros i; simpl; [done|].
      by rewrite IH. }
    rewrite Hpl. lia.
Qed.

End Missing.

(** *** Concrete runs *)

Lemma colour_export_without_resources_witness :
  (save_rgb_frame (with_allocs (Toy.good []) (λ _, true) (λ _ _ _ _ _, None) (λ _, true))
     Toy.frame 1 Toy.W1).1
  = Undefined BadAccess.
Proof.
  destruct (colour_export_without_resources
              (with_allocs (Toy.good []) (λ _, true) (λ _ _ _ _ _, None) (λ _, true))
              Toy.frame 1 Toy.W1)
    as (W' & evs & Hrun & _).
  - reflexivity.
  - right. left. reflexivity.
  - rewrite Hrun. reflexivity.
Defined.

(** Three rows are asked of the toy picture, which has two. *)
Lemma gray_export_reads_out_of_bounds_witness :
  (save_gray_frame (Toy.good []) (Some (0%nat, 0)) 4 3 3 1 Toy.W1).1
  = Undefined BadAccess.
Proof.
  destruct (gray_export_reads_out_of_bounds (Toy.good []) (Some (0%nat, 0)) 4 3 3 1 2
              Toy.W1)
    as (W' & evs & Hrun & _).
  - reflexivity.
  - lia.
  - intros i Hi. apply toy_plane_readable. exact Hi.
  - reflexivity.
  - rewrite Hrun. reflexivity.
Defined.
